(** * chainer.optimizer: the base [Optimizer] class

    A shallow embedding of [src/chainer/optimizer.py].

    - Arrays ([numpy.ndarray], [cuda.GPUArray]) are Python objects that the
      optimizer references and mutates in place; they live in a store
      ([heap]) indexed by object identity, and the optimizer's tuples hold
      identities, so that aliasing is visible.
    - The optimizer object has no [__init__]: its attributes [t] and
      [tuples] do not exist before [setup]; reading a missing attribute
      raises [AttributeError].
    - Every method is a computation in a state-and-exception monad over the
      store and the optimizer's attributes: an exception leaves the
      mutations made so far in place, as in Python.
    - Element arithmetic is an interface ([Arith]) with two instances:
      binary64 floating point (what CPython and a float64 ndarray compute)
      and exact real arithmetic (what a statement up to floating-point
      tolerance is about).
    - numpy's [dot] is a library routine (BLAS on the host,
      [cuda.gpuarray.dot] on a device) whose order of summation and
      intermediate roundings are its own: it is an operation of the
      interface ([vdot]), known by two laws that every summation of rounded
      products obeys. The general theorems hold for every such [vdot]; the
      binary64 evaluations use gradients of one element, or whose products
      add exactly, on which every summation agrees.
    - The [cuda] module is not part of this file's source: a GPU array is an
      array with a device tag, its kernels and transfers have the
      element-wise meaning of their host counterparts, and
      [cuda.using_device] is a scope without effect on the arrays.
    - An array's shape is its number of elements (every buffer is taken
      ravelled); an in-place operation broadcasts a one-element right
      operand and raises [ValueError] on any other mismatch, as numpy does
      for one-dimensional arrays. *)

From Stdlib Require Import ZArith Bool Reals Lra Floats.
From stdpp Require Import gmap list fin_maps strings.

(** ** Element arithmetic *)

(** The sum of the products of two sequences, accumulated from the left,
    each operation rounded on its own. *)
Definition sum_products {F} (zero : F) (add mul : F -> F -> F)
    (xs ys : list F) : F :=
  foldl (fun acc xy => add acc (mul xy.1 xy.2)) zero (zip xs ys).

Class Arith (F : Type) := {
  zero : F;
  add : F -> F -> F;
  mul : F -> F -> F;
  div : F -> F -> F;
  sqrt : F -> F;
  (** [ltb x y] is Python's [x < y] (and [y > x]); [leb x y] is [x <= y]. *)
  ltb : F -> F -> bool;
  leb : F -> F -> bool;
  (** [eqb x y] is Python's [x == y]. *)
  eqb : F -> F -> bool;
  (** [x.dot(y)] on ravelled arrays, and [cuda.gpuarray.dot]: the library's
      sum of the products. In which order it adds them, and where it
      rounds, is the library's business. *)
  vdot : list F -> list F -> F
}.

(** binary64, round to nearest even: Python's [float] and numpy's float64,
    with the products summed from the left. *)
#[export] Instance float_arith : Arith float := {
  zero := 0%float;
  add := PrimFloat.add;
  mul := PrimFloat.mul;
  div := PrimFloat.div;
  sqrt := PrimFloat.sqrt;
  ltb := PrimFloat.ltb;
  leb := PrimFloat.leb;
  eqb := PrimFloat.eqb;
  vdot := sum_products 0%float PrimFloat.add PrimFloat.mul
}.

(** binary64 with any other dot product [d]. *)
Definition binary64_with (d : list float -> list float -> float) : Arith float := {|
  zero := 0%float;
  add := PrimFloat.add;
  mul := PrimFloat.mul;
  div := PrimFloat.div;
  sqrt := PrimFloat.sqrt;
  ltb := PrimFloat.ltb;
  leb := PrimFloat.leb;
  eqb := PrimFloat.eqb;
  vdot := d
|}.

(** Exact arithmetic on the reals. *)
#[export] Instance real_arith : Arith R := {
  zero := 0%R;
  add := Rplus;
  mul := Rmult;
  div := Rdiv;
  sqrt := R_sqrt.sqrt;
  ltb x y := if Rlt_dec x y then true else false;
  leb x y := if Rle_dec x y then true else false;
  eqb x y := if Req_dec_T x y then true else false;
  vdot := sum_products 0%R Rplus Rmult
}.

(** What binary64 and the reals share: zero is neutral where the code
    starts its sums, the orders agree, and sums of squares are not
    negative. Floating-point addition is not associative, so no law says
    so. Of the library's dot product two facts are used, which hold however
    it orders and rounds its sum: the product of an array with itself is
    not below zero, and that of an array of zeros is zero. *)
Class ArithLaws (F : Type) {AF : Arith F} : Prop := {
  add_zero_zero : add zero zero = zero;
  mul_zero_zero : mul zero zero = zero;
  sqrt_zero : sqrt zero = zero;
  ltb_zero_zero : ltb zero zero = false;
  leb_not_gt : forall x y, leb x y = true -> ltb y x = false;
  pos_lt_nonzero : forall m n,
    ltb zero m = true -> ltb m n = true -> eqb n zero = false;
  square_nonneg : forall x, ltb (mul x x) zero = false;
  add_nonneg : forall a b,
    ltb a zero = false -> ltb b zero = false -> ltb (add a b) zero = false;
  vdot_nonneg : forall xs, ltb (vdot xs xs) zero = false;
  vdot_zeros : forall xs : list F,
    vdot (map (fun _ => zero) xs) (map (fun _ => zero) xs) = zero
}.

(** The sign of a binary64 value, as the comparison with zero sees it: NaN
    and both zeros are not below zero. *)
Definition sf_nonneg (x : spec_float) : bool :=
  match x with
  | S754_nan | S754_zero _ => true
  | S754_infinity s | S754_finite s _ _ => negb s
  end.

(** ** Python exceptions and outcomes *)

Inductive exn :=
  | AttributeError        (* a missing attribute of the optimizer *)
  | NotImplementedError   (* the base update hooks *)
  | ValueError            (* shape mismatch, math domain error *)
  | ZeroDivisionError     (* float division by zero *)
  | HookError (code : nat) (* whatever an overriding hook raises *)
  | DanglingRef.          (* a reference to no object: impossible in Python *)

Inductive outcome (A : Type) :=
  | Return (a : A)
  | Raise (e : exn).
Arguments Return {A} a.
Arguments Raise {A} e.

(** ** Arrays and the store *)

(** Where an array lives: [numpy.ndarray] on the host, [cuda.GPUArray] on a
    device. *)
Inductive device :=
  | Host
  | Gpu (id : nat).

Definition is_gpu (d : device) : bool :=
  match d with Host => false | Gpu _ => true end.

(** An array object: its backend and its elements in [ravel] order. The
    shape is modelled by the number of elements. *)
Record ndarray (F : Type) := NdArray {
  dev : device;
  data : list F
}.
Arguments NdArray {F} dev data.
Arguments dev {F} _.
Arguments data {F} _.

(** Object identity. *)
Definition loc := nat.

(** Python's exception hierarchy, as far as the claims need it:
    [ZeroDivisionError] is an [ArithmeticError]; [NotImplementedError] is a
    [RuntimeError]; the others are neither. *)
Definition is_arithmetic_error (e : exn) : bool :=
  match e with ZeroDivisionError => true | _ => false end.

Section Optimizer.

Context {F : Type} {AF : Arith F}.

(** [St] is what a subclass's [init_state] returns (references to its
    auxiliary arrays); the state of a triple is [None] (Python's [None], the
    base class's state) or [Some s]. *)
Context {St : Type}.

Abbreviation heap := (gmap loc (ndarray F)).
Abbreviation triple := (loc * loc * option St)%type.

(** The optimizer object's attributes; [None] is a missing attribute. *)
Record optimizer := Optimizer_ {
  t : option Z;
  tuples : option (list triple)
}.

Record world := World {
  store : heap;
  self : optimizer
}.

(** ** The monad: state and exceptions *)

Definition M (A : Type) : Type := world -> world * outcome A.

#[export] Instance M_ret : MRet M := fun A a w => (w, Return a).

#[export] Instance M_bind : MBind M := fun A B k m w =>
  match m w with
  | (w', Return a) => k a w'
  | (w', Raise e) => (w', Raise e)
  end.

Definition raise {A} (e : exn) : M A := fun w => (w, Raise e).

(** [for x in xs: acc = body(acc, x)] *)
Fixpoint for_fold {X A} (xs : list X) (acc : A) (body : A -> X -> M A) : M A :=
  match xs with
  | [] => mret acc
  | x :: xs' => acc' ← body acc x; for_fold xs' acc' body
  end.

(** [for x in xs: body(x)] *)
Definition for_each {X} (xs : list X) (body : X -> M unit) : M unit :=
  for_fold xs tt (fun _ x => body x).

(** *** Attributes of [self] *)

Definition getattr_t : M Z := fun w =>
  match t (self w) with
  | Some n => (w, Return n)
  | None => (w, Raise AttributeError)
  end.

Definition setattr_t (n : Z) : M unit := fun w =>
  (World (store w) (Optimizer_ (Some n) (tuples (self w))), Return tt).

Definition getattr_tuples : M (list triple) := fun w =>
  match tuples (self w) with
  | Some ts => (w, Return ts)
  | None => (w, Raise AttributeError)
  end.

Definition setattr_tuples (ts : list triple) : M unit := fun w =>
  (World (store w) (Optimizer_ (t (self w)) (Some ts)), Return tt).

(** [self.tuples.append(x)] *)
Definition tuples_append (x : triple) : M unit :=
  ts ← getattr_tuples; setattr_tuples (ts ++ [x]).

(** *** Array objects *)

(** Reading the object behind a reference. *)
Definition deref (l : loc) : M (ndarray F) := fun w =>
  match store w !! l with
  | Some a => (w, Return a)
  | None => (w, Raise DanglingRef)
  end.

(** Overwriting the elements of an object in place; its identity and its
    backend stay. *)
Definition assign (l : loc) (xs : list F) : M unit := fun w =>
  match store w !! l with
  | Some a => (World (<[l := NdArray (dev a) xs]> (store w)) (self w), Return tt)
  | None => (w, Raise DanglingRef)
  end.

(** The sum of the products accumulated from the left: the dot product in
    exact arithmetic, and in binary64 the one of [float_arith]. *)
Definition dot (xs ys : list F) : F :=
  foldl (fun acc xy => add acc (mul xy.1 xy.2)) zero (zip xs ys).

(** numpy's broadcasting of the right operand of an in-place operation to
    the [n] elements of the left one. The arrays of this model are flat:
    the operand fits when it has [n] elements or one, which is numpy's rule
    for one-dimensional arrays, for operands of equal shape, and for a
    right operand of one element. *)
Definition broadcast_to (n : nat) (xs : list F) : option (list F) :=
  if decide (length xs = n) then Some xs
  else match xs with
       | [x] => Some (replicate n x)
       | _ => None
       end.

(** The elements after [a += xs], when the shapes allow it. *)
Definition added (a : list F) (xs : list F) : option (list F) :=
  ys ← broadcast_to (length a) xs; Some (zip_with add a ys).

(** [g += xs] *)
Definition iadd (g : loc) (xs : list F) : M unit :=
  a ← deref g;
  match added (data a) xs with
  | Some zs => assign g zs
  | None => raise ValueError
  end.

(** [g *= ratio] *)
Definition imul (g : loc) (ratio : F) : M unit :=
  a ← deref g; assign g (map (fun x => mul x ratio) (data a)).

(** [g.fill(v)] *)
Definition fill (g : loc) (v : F) : M unit :=
  a ← deref g; assign g (map (fun _ => v) (data a)).

(** [decay * p], a fresh array. *)
Definition scaled (decay : F) (p : list F) : list F :=
  map (fun x => mul decay x) p.

(** [cuda.to_cpu], [cuda.to_gpu] and [cuda.copy] move an array between
    backends and keep its elements. *)
Definition to_cpu (a : ndarray F) : ndarray F := NdArray Host (data a).
Definition to_gpu (a : ndarray F) (d : nat) : ndarray F := NdArray (Gpu d) (data a).
Definition copy (a : ndarray F) (out_device : nat) : ndarray F :=
  NdArray (Gpu out_device) (data a).

(** *** Python floats *)

(** [math.sqrt(x)]: a negative argument is a math domain error. *)
Definition math_sqrt (x : F) : M F :=
  if ltb x zero then raise ValueError else mret (sqrt x).

(** [x / y] on Python floats. *)
Definition truediv (x y : F) : M F :=
  if eqb y zero then raise ZeroDivisionError else mret (div x y).

(** ** The overridable hooks *)

(** The type-specific methods a subclass overrides. A hook is a method: it
    sees [self.t], and it works on the arrays (it may allocate and mutate
    them); it does not reassign the optimizer's attributes. That is exact
    for the hooks of the base class, the only ones in this file's source;
    an override that assigned [self.t] or [self.tuples] is outside the
    model. *)
Record hooks := Hooks {
  init_state_cpu : option Z -> loc -> loc -> heap -> heap * outcome (option St);
  init_state_gpu : option Z -> loc -> loc -> heap -> heap * outcome (option St);
  update_one_cpu : option Z -> loc -> loc -> option St -> heap -> heap * outcome unit;
  update_one_gpu : option Z -> loc -> loc -> option St -> heap -> heap * outcome unit
}.

(** The base class: no state ([return None]), no update rule
    ([raise NotImplementedError()]). *)
Definition base : hooks := {|
  init_state_cpu := fun _ _ _ h => (h, Return None);
  init_state_gpu := fun _ _ _ h => (h, Return None);
  update_one_cpu := fun _ _ _ _ h => (h, Raise NotImplementedError);
  update_one_gpu := fun _ _ _ _ h => (h, Raise NotImplementedError)
|}.

Definition call_hook {A} (f : option Z -> heap -> heap * outcome A) : M A := fun w =>
  (World (f (t (self w)) (store w)).1 (self w), (f (t (self w)) (store w)).2).

Variable cls : hooks.

(** ** The methods of [Optimizer] *)

Definition _sqnorm (x : loc) : M F :=
  a ← deref x;
  if is_gpu (dev a) then mret (vdot (data a) (data a))
  else mret (vdot (data a) (data a)).

Definition init_state (param grad : loc) : M (option St) :=
  a ← deref param;
  if is_gpu (dev a) then call_hook (fun t => init_state_gpu cls t param grad)
  else call_hook (fun t => init_state_cpu cls t param grad).

Definition setup (params_grads : list loc * list loc) : M unit :=
  setattr_t 0;;
  setattr_tuples [];;
  for_each (zip params_grads.1 params_grads.2) (fun pg =>
    state ← init_state pg.1 pg.2;
    tuples_append (pg.1, pg.2, state)).

Definition zero_grads : M unit :=
  ts ← getattr_tuples;
  for_each ts (fun '(_, g, _) =>
    a ← deref g;
    if is_gpu (dev a) then fill g zero else fill g zero).

Definition compute_grads_norm : M F :=
  ts ← getattr_tuples;
  sqnorm ← for_fold ts zero (fun sqnorm '(_, g, _) =>
    s ← _sqnorm g; mret (add sqnorm s));
  math_sqrt sqnorm.

Definition clip_grads (maxnorm : F) : M unit :=
  norm ← compute_grads_norm;
  if ltb maxnorm norm then
    ratio ← truediv maxnorm norm;
    ts ← getattr_tuples;
    for_each ts (fun '(_, g, _) => imul g ratio)
  else mret tt.

Definition weight_decay (decay : F) : M unit :=
  ts ← getattr_tuples;
  for_each ts (fun '(p, g, _) =>
    pa ← deref p;
    if is_gpu (dev pa) then iadd g (scaled decay (data pa))
    else iadd g (scaled decay (data pa))).

Definition accumulate_grads (grads : list loc) : M unit :=
  ts ← getattr_tuples;
  for_each (zip ts grads) (fun '((_, g_dst, _), g_src) =>
    dst ← deref g_dst;
    src ← deref g_src;
    match dev dst with
    | Host => iadd g_dst (data (to_cpu src))
    | Gpu d_dst =>
        match dev src with
        | Gpu d_src =>
            if negb (Nat.eqb d_dst d_src)
            then iadd g_dst (data (copy src d_src))
            else iadd g_dst (data (to_gpu src d_dst))
        | Host => iadd g_dst (data (to_gpu src d_dst))
        end
    end).

Definition update_one (param grad : loc) (state : option St) : M unit :=
  a ← deref param;
  if is_gpu (dev a) then call_hook (fun t => update_one_gpu cls t param grad state)
  else call_hook (fun t => update_one_cpu cls t param grad state).

Definition update : M unit :=
  n ← getattr_t;
  setattr_t (n + 1);;
  ts ← getattr_tuples;
  for_each ts (fun '(p, g, s) => update_one p g s).

End Optimizer.

Arguments optimizer St : clear implicits.
Arguments world F St : clear implicits.
Arguments hooks F St : clear implicits.
Arguments M F St A : clear implicits.

(** ** States of the optimizer and the meaning of the loops *)

Section Spec.

Context {F : Type} {AF : Arith F} {St : Type}.

Abbreviation heap := (gmap loc (ndarray F)).
Abbreviation triple := (loc * loc * option St)%type.

Definition params (ts : list triple) : list loc := (fun x => x.1.1) <$> ts.
Definition grads (ts : list triple) : list loc := (fun x => x.1.2) <$> ts.

(** Before [setup]: the attributes do not exist. *)
Definition Unconfigured (w : world F St) : Prop :=
  t (self w) = None /\ tuples (self w) = None.

(** After [setup]: the attributes exist, with step counter [n] and tuples
    [ts], and every buffer the tuples reference is an object of the store.
    Every state a run of the program reaches after [setup] is of this kind. *)
Definition Configured (w : world F St) (n : Z) (ts : list triple) : Prop :=
  t (self w) = Some n /\ tuples (self w) = Some ts /\
  Forall (fun l => is_Some (store w !! l)) (params ts ++ grads ts).

(** Two live objects of the same shape. *)
Definition same_len (h : heap) (l1 l2 : loc) : Prop :=
  exists a1 a2, h !! l1 = Some a1 /\ h !! l2 = Some a2 /\
    length (data a1) = length (data a2).

(** The parameter and the gradient of a triple have the same shape. *)
Definition same_shape (h : heap) (x : triple) : Prop :=
  same_len h x.1.1 x.1.2.

(** A source gradient has the shape of the gradient it is added to. *)
Definition matched (h : heap) (x : triple * loc) : Prop :=
  same_len h x.2 x.1.1.2.

(** The Ready state of the data model: configured, and the triples are
    those of a model, whose parameter and gradient buffers are pairwise
    distinct objects, the gradient of the shape of its parameter. *)
Definition Ready (w : world F St) (n : Z) (ts : list triple) : Prop :=
  t (self w) = Some n /\ tuples (self w) = Some ts /\ (0 <= n)%Z /\
  Forall (same_shape (store w)) ts /\ NoDup (params ts ++ grads ts).

(** In-place updates of array objects, one after the other; each new value
    may depend on the store at that moment. *)
Definition apply_all (us : list (loc * (heap -> ndarray F -> ndarray F)))
    (h : heap) : heap :=
  foldl (fun h u => alter (u.2 h) u.1 h) h us.

Definition with_data (f : list F -> list F) (a : ndarray F) : ndarray F :=
  NdArray (dev a) (f (data a)).

(** What [a += xs] leaves in [a] when it does not raise. *)
Definition plus (xs : list F) (a : list F) : list F :=
  default a (added a xs).

(** The sum of the squares of the elements, as [_sqnorm] accumulates it. *)
Definition sqnorm_of (a : ndarray F) : F := vdot (data a) (data a).

(** The squared norm as [compute_grads_norm] accumulates it over the
    gradient arrays [gs]. *)
Definition sum_sqnorm (gs : list (ndarray F)) : F :=
  foldl (fun acc a => add acc (sqnorm_of a)) zero gs.

(** The elements of the object behind a reference. *)
Definition elems (h : heap) (l : loc) : list F :=
  match h !! l with Some a => data a | None => [] end.

(** The updates each loop performs, in order. *)
Definition zero_updates (ts : list triple) :=
  (fun x => (x.1.2, fun _ : heap => with_data (map (fun _ => zero)))) <$> ts.

Definition scale_updates (ratio : F) (ts : list triple) :=
  (fun x => (x.1.2, fun _ : heap => with_data (map (fun v => mul v ratio)))) <$> ts.

Definition decay_updates (decay : F) (ts : list triple) :=
  (fun x => (x.1.2, fun h : heap =>
     with_data (plus (scaled decay (elems h x.1.1))))) <$> ts.

Definition accum_updates (xs : list (triple * loc)) :=
  (fun x => (x.1.1.2, fun h : heap => with_data (plus (elems h x.2)))) <$> xs.

(** The sources [sums] hold, position by position, the element-wise sums of
    the sources [xs] and [ys]. *)
Definition presummed (h : heap) (xs ys sums : list loc) : Prop :=
  forall i x y s, xs !! i = Some x -> ys !! i = Some y -> sums !! i = Some s ->
    elems h s = zip_with add (elems h x) (elems h y).

(** The arrays behind a list of references. *)
Definition arrays (h : heap) (ls : list loc) : list (ndarray F) :=
  omap (fun l => h !! l) ls.

End Spec.

(** The sum of the squares of a sequence of reals: the spec's [Σ gᵢ²]. *)
Definition sum_of_squares (xs : list R) : R :=
  foldr (fun x acc => (x * x + acc)%R) 0%R xs.

(** The elements of all the arrays, one after the other. *)
Definition concatenation {F} (gs : list (ndarray F)) : list F :=
  concat (data <$> gs).

(** The optimizer with its tuples in another order. *)
Definition with_tuples {F St} (ts : list (loc * loc * option St))
    (w : world F St) : world F St :=
  World (store w) (Optimizer_ (t (self w)) (Some ts)).

(** A computation that leaves the optimizer's attributes alone. *)
Definition keeps_self {F St A} (m : M F St A) : Prop :=
  forall w, self (m w).1 = self w.

(** A computation that changes nothing at all. *)
Definition read_only {F St A} (m : M F St A) : Prop :=
  forall w, (m w).1 = w.

(** Initialisers that return and keep every object alive. *)
Definition init_total {F St} (cls : hooks F St) : Prop :=
  forall f, f = init_state_cpu cls \/ f = init_state_gpu cls ->
  forall n p g h, exists s, (f n p g h).2 = Return s /\
    forall l, is_Some (h !! l) -> is_Some ((f n p g h).1 !! l).

(** ** [examples/word2vec/search.py]

    The script normalises the rows of the embedding matrix and then answers
    queries read from standard input until end of input. What it prints is
    modelled as a list of lines, in order; standard input as the list of
    the lines it will deliver. The pickled model ([w], [word2index],
    [index2word]) and numpy's [argsort] are inputs of the model. *)

Inductive line (F : Type) :=
  | Prompt                            (* '>> ', printed by [raw_input] *)
  | NotFound (q : string)             (* '"q" is not found' *)
  | Query (q : string)                (* 'query: q' *)
  | Result (word : string) (sim : F). (* 'word: sim' *)
Arguments Prompt {F}.
Arguments NotFound {F} q.
Arguments Query {F} q.
Arguments Result {F} word sim.

(** The exceptions that end the script with a traceback. *)
Inductive lookup_error :=
  | KeyError (i : nat)     (* [index2word[i]] on a missing key *)
  | IndexError (i : nat).  (* an index past the end of an array *)

(** [n_result = 5  # number of search result to show] *)
Definition n_result : nat := 5.

Section Search.

Context {F : Type} {AF : Arith F}.

(** [numpy.isnan] on an element. *)
Variable isnan : F -> bool.

(** [(-similarity).argsort()]: the indices of [similarity], by decreasing
    value as numpy orders them. *)
Variable ranking : list F -> list nat.

Variable word2index : gmap string nat.
Variable index2word : gmap nat string.

(** One row after [s = numpy.sqrt((w * w).sum(1))] and
    [w /= s.reshape((s.shape[0], 1))]: numpy's division, which does not
    raise. *)
Definition normalize_row (row : list F) : list F :=
  map (fun x => div x (sqrt (dot row row))) row.

Definition normalize (w : list (list F)) : list (list F) :=
  map normalize_row w.

(** [w.dot(v)] *)
Definition similarities (w : list (list F)) (v : list F) : list F :=
  map (fun row => dot row v) w.

(** The loop over the ranking, entered with [count] results printed:
    [continue] on a NaN similarity, [break] when [count] reaches
    [n_result]. The lines printed before an exception stay printed. *)
Fixpoint print_results (similarity : list F) (order : list nat) (count : nat) :
    list (line F) * option lookup_error :=
  match order with
  | [] => ([], None)
  | i :: order' =>
      match similarity !! i with
      | None => ([], Some (IndexError i))
      | Some v =>
          if isnan v then print_results similarity order' count
          else
            match index2word !! i with
            | None => ([], Some (KeyError i))
            | Some word =>
                if Nat.eqb (S count) n_result then ([Result word v], None)
                else
                  let r := print_results similarity order' (S count) in
                  (Result word v :: r.1, r.2)
            end
      end
  end.

(** The [while True] loop on the normalised matrix [w], for the lines
    [inputs] that [raw_input] will return before it raises [EOFError]. *)
Fixpoint session (w : list (list F)) (inputs : list string) :
    list (line F) * option lookup_error :=
  match inputs with
  | [] => ([Prompt], None)
  | q :: inputs' =>
      match word2index !! q with
      | None =>
          let r := session w inputs' in
          (Prompt :: NotFound q :: r.1, r.2)
      | Some k =>
          match w !! k with
          | None => ([Prompt], Some (IndexError k))
          | Some v =>
              let similarity := similarities w v in
              let p := print_results similarity (ranking similarity) 0 in
              match p.2 with
              | Some e => (Prompt :: Query q :: p.1, Some e)
              | None =>
                  let r := session w inputs' in
                  (Prompt :: Query q :: p.1 ++ r.1, r.2)
              end
          end
      end
  end.

(** The whole script. *)
Definition search (w : list (list F)) (inputs : list string) :
    list (line F) * option lookup_error :=
  session (normalize w) inputs.

(** The results the ranking offers, in its order: the entries whose
    similarity is not NaN. *)
Definition ranked (similarity : list F) (order : list nat) : list (line F) :=
  omap (fun i =>
          v ← similarity !! i;
          if isnan v then None
          else word ← index2word !! i; Some (Result word v)) order.

End Search.

(** A line that shows a similarity shows one that is not NaN. *)
Definition shows_no_nan {F} (isnan : F -> bool) (l : line F) : Prop :=
  match l with Result _ v => isnan v = false | _ => True end.

Definition is_result {F} (l : line F) : bool :=
  match l with Result _ _ => true | _ => false end.

Definition is_query {F} (l : line F) : bool :=
  match l with Query _ => true | _ => false end.

(** Every result line belongs to a query line: it follows one, with only
    result lines in between, fewer than [n] of them. [budget] is the number
    of result lines that may still come at this point of the output. *)
Fixpoint results_per_query {F} (n budget : nat) (out : list (line F)) : bool :=
  match out with
  | [] => true
  | Query _ :: out' => results_per_query n n out'
  | Result _ _ :: out' =>
      match budget with
      | 0 => false
      | S budget' => results_per_query n budget' out'
      end
  | _ :: out' => results_per_query n 0 out'
  end.

(** ** Footprints

    What a computation may write, and what it keeps, whatever its outcome. *)

(** A computation that writes no object outside [L]. *)
Definition writes_within {F St A} (L : list loc) (m : M F St A) : Prop :=
  forall w l, l ∉ L -> store (m w).1 !! l = store w !! l.

(** The backend and the number of elements of the object behind a
    reference, if there is one. *)
Definition shape_at {F} (h : gmap loc (ndarray F)) (l : loc) : option (device * nat) :=
  (fun a => (dev a, length (data a))) <$> h !! l.

(** A computation that allocates, frees, moves and reshapes nothing. *)
Definition keeps_shapes {F St A} (m : M F St A) : Prop :=
  forall w l, shape_at (store (m w).1) l = shape_at (store w) l.

(** ** Concrete models

    One parameter array [[1.0, 2.0]] with gradient [[3.0, 4.0]], and two
    further arrays, all float64 on the host. *)

Module Scenario.

Definition objects : gmap loc (ndarray float) :=
  {[ 0 := NdArray Host [1; 2]%float;
     1 := NdArray Host [3; 4]%float;
     2 := NdArray Host [10; 20]%float;
     3 := NdArray Host [100; 200]%float ]}.

(** The optimizer object as constructed, before [setup]. *)
Definition fresh : world float unit :=
  World objects (Optimizer_ None None).

(** After [setup(((p,), (g,)))]. *)
Definition ready : world float unit :=
  World objects (Optimizer_ (Some 0%Z) (Some [(0, 1, None)])).

End Scenario.

(** Three one-element gradients, [[1e8]], [[1.0]] and [[1.0]], each with a
    parameter of its own, and the same triples in the two orders. *)

Module Order.

Definition objects : gmap loc (ndarray float) :=
  {[ 0 := NdArray Host [0]%float; 1 := NdArray Host [100000000]%float;
     2 := NdArray Host [0]%float; 3 := NdArray Host [1]%float;
     4 := NdArray Host [0]%float; 5 := NdArray Host [1]%float ]}.

Definition forward : world float unit :=
  World objects (Optimizer_ (Some 0%Z) (Some [(0, 1, None); (2, 3, None); (4, 5, None)])).

Definition backward : world float unit :=
  World objects (Optimizer_ (Some 0%Z) (Some [(4, 5, None); (2, 3, None); (0, 1, None)])).

End Order.

(** A gradient [[1e16]] with parameter [[1.0]], two sources [[1.0]] and
    their exact sum [[2.0]], all float64. *)

Module Rounding.

Definition objects : gmap loc (ndarray float) :=
  {[ 0 := NdArray Host [1]%float;
     1 := NdArray Host [10000000000000000]%float;
     2 := NdArray Host [1]%float;
     3 := NdArray Host [1]%float;
     4 := NdArray Host [2]%float ]}.

Definition ready : world float unit :=
  World objects (Optimizer_ (Some 0%Z) (Some [(0, 1, None)])).

End Rounding.

(** One gradient array [[1.0, 1.0]] listed as the gradient of two
    parameters: a state outside the data model. *)

Module Shared.

Definition objects : gmap loc (ndarray float) :=
  {[ 0 := NdArray Host [0; 0]%float;
     1 := NdArray Host [1; 1]%float;
     2 := NdArray Host [0; 0]%float ]}.

Definition configured : world float unit :=
  World objects (Optimizer_ (Some 0%Z) (Some [(0, 1, None); (2, 1, None)])).

End Shared.

(** The model of [Scenario] over the reals, with the sum [[110, 220]] of the
    two further arrays. *)

Module Exact.

Definition objects : gmap loc (ndarray R) :=
  {[ 0 := NdArray Host [1; 2]%R;
     1 := NdArray Host [3; 4]%R;
     2 := NdArray Host [10; 20]%R;
     3 := NdArray Host [100; 200]%R;
     4 := NdArray Host [10 + 100; 20 + 200]%R ]}.

Definition ready : world R unit :=
  World objects (Optimizer_ (Some 0%Z) (Some [(0, 1, None)])).

End Exact.

(** Four one-element gradients at the upper end of binary64, each with a
    parameter of its own: one whose square is the second largest float,
    [1.7976931348623155e308], and three whose square is [2^970], half the
    distance from there to the largest float; and the same triples in the
    two orders. *)

Module Brink.

Definition objects : gmap loc (ndarray float) :=
  {[ 0 := NdArray Host [0]%float; 1 := NdArray Host [0x1.fffffffffffffp+511]%float;
     2 := NdArray Host [0]%float; 3 := NdArray Host [0x1p+485]%float;
     4 := NdArray Host [0]%float; 5 := NdArray Host [0x1p+485]%float;
     6 := NdArray Host [0]%float; 7 := NdArray Host [0x1p+485]%float ]}.

Definition tuples_forward : list (loc * loc * option unit) :=
  [(0, 1, None); (2, 3, None); (4, 5, None); (6, 7, None)].

Definition forward : world float unit :=
  World objects (Optimizer_ (Some 0%Z) (Some tuples_forward)).

Definition backward : world float unit :=
  World objects (Optimizer_ (Some 0%Z) (Some (reverse tuples_forward))).

End Brink.

(** A gradient [[2^600]] (about [4e180]), whose square overflows, with
    parameter [[1.0]]. *)

Module Huge.

Definition objects : gmap loc (ndarray float) :=
  {[ 0 := NdArray Host [1]%float; 1 := NdArray Host [0x1p+600]%float ]}.

Definition ready : world float unit :=
  World objects (Optimizer_ (Some 0%Z) (Some [(0, 1, None)])).

End Huge.

(** A gradient [[1.5 * 2^-537]] (about [3.3e-162]), whose square is a
    subnormal number, with parameter [[1.0]]. *)

Module Tiny.

Definition objects : gmap loc (ndarray float) :=
  {[ 0 := NdArray Host [1]%float; 1 := NdArray Host [0x1.8p-537]%float ]}.

Definition ready : world float unit :=
  World objects (Optimizer_ (Some 0%Z) (Some [(0, 1, None)])).

End Tiny.

(** A gradient with a NaN element. *)

Module Diverged.

Definition objects : gmap loc (ndarray float) :=
  {[ 0 := NdArray Host [1; 2]%float;
     1 := NdArray Host [3; PrimFloat.nan]%float ]}.

Definition configured : world float unit :=
  World objects (Optimizer_ (Some 0%Z) (Some [(0, 1, None)])).

End Diverged.

(** Two triples, of two and of three elements, and two sources of two
    elements: the second source does not fit its gradient. *)

Module Mismatch.

Definition objects : gmap loc (ndarray float) :=
  {[ 0 := NdArray Host [1; 2]%float;
     1 := NdArray Host [3; 4]%float;
     2 := NdArray Host [1; 2; 3]%float;
     3 := NdArray Host [5; 6; 7]%float;
     4 := NdArray Host [10; 20]%float;
     5 := NdArray Host [1; 2]%float ]}.

Definition ready : world float unit :=
  World objects (Optimizer_ (Some 0%Z) (Some [(0, 1, None); (2, 3, None)])).

End Mismatch.

(** A subclass whose state initialiser checks that the gradient has the
    shape of the parameter, and raises [ValueError] when it has not. *)

Module Strict.

Definition check (p g : loc) (h : gmap loc (ndarray float)) :
    gmap loc (ndarray float) * outcome (option unit) :=
  match h !! p, h !! g with
  | Some a, Some b =>
      if decide (length (data a) = length (data b)) then (h, Return (Some tt))
      else (h, Raise ValueError)
  | _, _ => (h, Raise DanglingRef)
  end.

Definition cls : hooks float unit := {|
  init_state_cpu := fun _ => check;
  init_state_gpu := fun _ => check;
  update_one_cpu := fun _ _ _ _ h => (h, Return tt);
  update_one_gpu := fun _ _ _ _ h => (h, Return tt)
|}.

End Strict.

(** A vocabulary of three words; the similarity of the second is NaN. *)

Module Vocabulary.

Definition index2word : gmap nat string :=
  {[ 0 := "king"%string; 1 := "void"%string; 2 := "queen"%string ]}.

Definition similarity : list float := [0.5; PrimFloat.nan; 1]%float.

Definition order : list nat := [2; 1; 0].

End Vocabulary.

(** * Proofs *)

(** ** The two arithmetics obey the laws *)

(** The sum from the left obeys the two laws of a dot product. *)
Section Sequential.

Context {F : Type} (zero : F) (add mul : F -> F -> F) (ltb : F -> F -> bool).

Lemma sum_products_nonneg :
  (forall x, ltb (mul x x) zero = false) ->
  (forall a b, ltb a zero = false -> ltb b zero = false ->
               ltb (add a b) zero = false) ->
  ltb zero zero = false ->
  forall xs, ltb (sum_products zero add mul xs xs) zero = false.
Proof.
  intros Hsq Hadd H0 xs. unfold sum_products.
  assert (H : forall acc, ltb acc zero = false ->
            ltb (foldl (fun acc xy => add acc (mul xy.1 xy.2)) acc (zip xs xs)) zero
            = false); [|exact (H zero H0)].
  induction xs as [|x xs IH]; intros acc Hacc; simpl; [exact Hacc|].
  apply IH, Hadd; [exact Hacc|apply Hsq].
Qed.

Lemma sum_products_zeros :
  mul zero zero = zero -> add zero zero = zero ->
  forall xs : list F,
    sum_products zero add mul (map (fun _ => zero) xs) (map (fun _ => zero) xs)
    = zero.
Proof.
  intros Hmul Hadd xs. unfold sum_products.
  induction xs as [|x xs IH]; simpl; [reflexivity|].
  rewrite Hmul, Hadd. exact IH.
Qed.

End Sequential.

Section Binary64.

Lemma SFltb_zero x : SFltb x (S754_zero false) = negb (sf_nonneg x).
Proof. destruct x as [[]|[]| |[] ? ?]; reflexivity. Qed.

Lemma float_ltb_zero x : (x <? 0)%float = negb (sf_nonneg (Prim2SF x)).
Proof. rewrite FloatAxioms.ltb_spec. apply SFltb_zero. Qed.

Lemma binary_round_aux_nonneg mx ex lx :
  sf_nonneg (binary_round_aux prec emax false mx ex lx) = true.
Proof.
  unfold binary_round_aux.
  destruct (shr_fexp prec emax mx ex lx) as [mrs' e'].
  destruct (shr_fexp _ _ _ _ _) as [mrs'' e''].
  destruct (shr_m mrs''); [reflexivity| |reflexivity].
  destruct (Z.leb _ _); reflexivity.
Qed.

Lemma SFmul_self_nonneg x : sf_nonneg (SF64mul x x) = true.
Proof.
  destruct x as [s|s| |s m e]; try reflexivity.
  - simpl. rewrite xorb_nilpotent. reflexivity.
  - unfold SF64mul, SFmul. rewrite xorb_nilpotent. apply binary_round_aux_nonneg.
Qed.

Lemma SFadd_nonneg x y :
  sf_nonneg x = true -> sf_nonneg y = true -> sf_nonneg (SF64add x y) = true.
Proof.
  destruct x as [sx|sx| |sx mx ex], y as [sy|sy| |sy my ey]; simpl;
    try reflexivity; try (intros; assumption);
    try (destruct sx, sy; simpl; intros; (reflexivity || discriminate)).
  destruct sx, sy; simpl; try discriminate. intros _ _.
  unfold SF64add, SFadd. cbn [cond_Zopp]. 
  unfold binary_normalize. cbn [Z.add]. unfold binary_round.
  destruct (shl_align _ _ _) as [mz ez]. apply binary_round_aux_nonneg.
Qed.

Lemma float_sq_nonneg x : (x * x <? 0)%float = false.
Proof. rewrite float_ltb_zero, mul_spec, SFmul_self_nonneg. reflexivity. Qed.

Lemma float_add_nonneg a b :
  (a <? 0)%float = false -> (b <? 0)%float = false -> (a + b <? 0)%float = false.
Proof.
  rewrite !float_ltb_zero, add_spec. intros Ha Hb.
  apply negb_false_iff in Ha, Hb. rewrite SFadd_nonneg; auto.
Qed.

Lemma SFcompare_antisym x y :
  SFcompare y x = option_map CompOpp (SFcompare x y).
Proof.
  destruct x as [sx|sx| |sx mx ex], y as [sy|sy| |sy my ey]; simpl;
    try reflexivity; try (destruct sx; reflexivity); try (destruct sy; reflexivity);
    try (destruct sx, sy; reflexivity).
  destruct sx, sy; try reflexivity.
  - rewrite (Z.compare_antisym ex ey). destruct (ex ?= ey)%Z; simpl; try reflexivity.
    f_equal. rewrite <- (Pos.compare_cont_antisym _ _ Eq). reflexivity.
  - rewrite (Z.compare_antisym ex ey). destruct (ex ?= ey)%Z; simpl; try reflexivity.
    f_equal. rewrite <- (Pos.compare_cont_antisym _ _ Eq). simpl.
    destruct (Pos.compare_cont Eq mx my); reflexivity.
Qed.

Lemma float_le_not_gt x y : (x <=? y)%float = true -> (y <? x)%float = false.
Proof.
  rewrite FloatAxioms.leb_spec, FloatAxioms.ltb_spec. unfold SFleb, SFltb. rewrite (SFcompare_antisym (Prim2SF x)).
  destruct (SFcompare _ _) as [[]|]; simpl; congruence.
Qed.

Lemma float_pos_lt_nonzero m n :
  (0 <? m)%float = true -> (m <? n)%float = true -> (n =? 0)%float = false.
Proof.
  rewrite !FloatAxioms.ltb_spec, FloatAxioms.eqb_spec. unfold SFltb, SFeqb.
  change (Prim2SF 0) with (S754_zero false).
  destruct (Prim2SF m) as [sm|sm| |sm mm em], (Prim2SF n) as [sn|sn| |sn mn en];
    simpl; try congruence; try (destruct sm; simpl; congruence);
    try (destruct sn; simpl; congruence).
Qed.

(** binary64 obeys the laws with every dot product that obeys its two. *)
Lemma binary64_with_laws (d : list float -> list float -> float) :
  (forall xs, (d xs xs <? 0)%float = false) ->
  (forall xs : list float,
     d (map (fun _ => 0%float) xs) (map (fun _ => 0%float) xs) = 0%float) ->
  @ArithLaws float (binary64_with d).
Proof.
  intros Hnonneg Hzeros. split; try reflexivity.
  - exact float_le_not_gt.
  - exact float_pos_lt_nonzero.
  - exact float_sq_nonneg.
  - exact float_add_nonneg.
  - exact Hnonneg.
  - exact Hzeros.
Qed.

#[export] Instance float_laws : ArithLaws float.
Proof.
  split; try reflexivity.
  - exact float_le_not_gt.
  - exact float_pos_lt_nonzero.
  - exact float_sq_nonneg.
  - exact float_add_nonneg.
  - exact (sum_products_nonneg 0%float PrimFloat.add PrimFloat.mul PrimFloat.ltb
             float_sq_nonneg float_add_nonneg eq_refl).
  - exact (sum_products_zeros 0%float PrimFloat.add PrimFloat.mul eq_refl eq_refl).
Qed.

End Binary64.

Section Reals.

Lemma real_ltb_false (x y : R) : ltb x y = false <-> (y <= x)%R.
Proof.
  simpl. destruct (Rlt_dec x y); split; intros; try lra; try congruence.
Qed.

Lemma real_ltb_true (x y : R) : ltb x y = true <-> (x < y)%R.
Proof.
  simpl. destruct (Rlt_dec x y); split; intros; try lra; try congruence.
Qed.

Lemma real_leb_true (x y : R) : leb x y = true <-> (x <= y)%R.
Proof.
  simpl. destruct (Rle_dec x y); split; intros; try lra; try congruence.
Qed.

Lemma real_eqb_false (x y : R) : eqb x y = false <-> x <> y.
Proof.
  simpl. destruct (Req_dec_T x y); split; intros; try congruence.
Qed.

#[export] Instance real_laws : ArithLaws R.
Proof.
  split.
  - simpl. lra.
  - simpl. lra.
  - apply sqrt_0.
  - apply real_ltb_false. simpl. lra.
  - intros x y H. apply real_leb_true in H. apply real_ltb_false. exact H.
  - intros m n Hm Hn. apply real_ltb_true in Hm, Hn. simpl in Hm.
    apply real_eqb_false. simpl. lra.
  - intros x. apply real_ltb_false. simpl. nra.
  - intros a b Ha Hb. apply real_ltb_false in Ha, Hb. apply real_ltb_false.
    simpl in *. lra.
  - apply (sum_products_nonneg 0%R Rplus Rmult (@ltb R real_arith)).
    + intros x. apply real_ltb_false. nra.
    + intros a b Ha Hb. apply real_ltb_false in Ha, Hb. apply real_ltb_false. lra.
    + apply real_ltb_false. lra.
  - apply (sum_products_zeros 0%R Rplus Rmult); lra.
Qed.

End Reals.

Section Monad.

Context {F : Type} {AF : Arith F} {St : Type}.

Lemma run_bind {A B} (m : M F St A) (k : A -> M F St B) w :
  (m ≫= k) w =
  match m w with
  | (w', Return a) => k a w'
  | (w', Raise e) => (w', Raise e)
  end.
Proof. reflexivity. Qed.

Lemma run_bind_return {A B} (m : M F St A) (k : A -> M F St B) w w' a :
  m w = (w', Return a) -> (m ≫= k) w = k a w'.
Proof. intros E. rewrite run_bind, E. reflexivity. Qed.

Lemma run_bind_raise {A B} (m : M F St A) (k : A -> M F St B) w w' e :
  m w = (w', Raise e) -> (m ≫= k) w = (w', Raise e).
Proof. intros E. rewrite run_bind, E. reflexivity. Qed.

Lemma run_deref l (w : world F St) a :
  store w !! l = Some a -> deref l w = (w, Return a).
Proof. intros E. unfold deref. rewrite E. reflexivity. Qed.

Lemma run_assign l xs (w : world F St) a :
  store w !! l = Some a ->
  assign l xs w = (World (<[l := NdArray (dev a) xs]> (store w)) (self w), Return tt).
Proof. intros E. unfold assign. rewrite E. reflexivity. Qed.

Lemma for_each_nil {X} (body : X -> M F St unit) w :
  for_each [] body w = (w, Return tt).
Proof. reflexivity. Qed.

Lemma for_each_cons {X} (x : X) xs (body : X -> M F St unit) w :
  for_each (x :: xs) body w = (body x ≫= fun _ => for_each xs body) w.
Proof.
  unfold for_each. simpl. rewrite !run_bind.
  destruct (body x w) as [w' [[]|e]]; reflexivity.
Qed.

Lemma for_each_app {X} (xs ys : list X) (body : X -> M F St unit) w :
  for_each (xs ++ ys) body w = (for_each xs body ≫= fun _ => for_each ys body) w.
Proof.
  revert w. induction xs as [|x xs IH]; intros w; [reflexivity|].
  rewrite <- app_comm_cons, (run_bind (for_each (x :: xs) body)).
  rewrite !for_each_cons, !run_bind.
  destruct (body x w) as [w1 [[]|e]]; [|reflexivity].
  rewrite IH, run_bind. reflexivity.
Qed.

Lemma run_getattr_tuples (w : world F St) ts :
  tuples (self w) = Some ts -> getattr_tuples w = (w, Return ts).
Proof. intros E. unfold getattr_tuples. rewrite E. reflexivity. Qed.

Lemma run_getattr_t (w : world F St) n :
  t (self w) = Some n -> getattr_t w = (w, Return n).
Proof. intros E. unfold getattr_t. rewrite E. reflexivity. Qed.

Lemma run_tuples_append x (w : world F St) ts :
  tuples (self w) = Some ts ->
  tuples_append x w
  = (World (store w) (Optimizer_ (t (self w)) (Some (ts ++ [x]))), Return tt).
Proof.
  intros E. unfold tuples_append.
  rewrite (run_bind_return _ _ _ _ _ (run_getattr_tuples w ts E)). reflexivity.
Qed.

(** *** Frames *)

Lemma keeps_self_ret {A} (a : A) : keeps_self (mret a : M F St A).
Proof. intros w. reflexivity. Qed.

Lemma keeps_self_raise {A} e : keeps_self (raise e : M F St A).
Proof. intros w. reflexivity. Qed.

Lemma keeps_self_bind {A B} (m : M F St A) (k : A -> M F St B) :
  keeps_self m -> (forall a, keeps_self (k a)) -> keeps_self (m ≫= k).
Proof.
  intros Hm Hk w. rewrite run_bind. specialize (Hm w).
  destruct (m w) as [w' [a|e]]; simpl in *.
  - rewrite Hk. exact Hm.
  - exact Hm.
Qed.

Lemma keeps_self_for_fold {X A} (xs : list X) (body : A -> X -> M F St A) acc :
  (forall a x, keeps_self (body a x)) -> keeps_self (for_fold xs acc body).
Proof.
  intros Hb. revert acc. induction xs as [|x xs IH]; intros acc; simpl.
  - apply keeps_self_ret.
  - apply keeps_self_bind; auto.
Qed.

Lemma keeps_self_for_each {X} (xs : list X) (body : X -> M F St unit) :
  (forall x, keeps_self (body x)) -> keeps_self (for_each xs body).
Proof. intros Hb. apply keeps_self_for_fold. auto. Qed.

Lemma keeps_self_getattr_t : keeps_self (getattr_t : M F St Z).
Proof. intros w. unfold getattr_t. destruct (t (self w)); reflexivity. Qed.

Lemma keeps_self_getattr_tuples : keeps_self (getattr_tuples : M F St _).
Proof. intros w. unfold getattr_tuples. destruct (tuples (self w)); reflexivity. Qed.

Lemma keeps_self_deref l : keeps_self (deref l : M F St _).
Proof. intros w. unfold deref. destruct (store w !! l); reflexivity. Qed.

Lemma keeps_self_assign l xs : keeps_self (assign l xs : M F St _).
Proof. intros w. unfold assign. destruct (store w !! l); reflexivity. Qed.

Lemma keeps_self_call_hook {A} f : keeps_self (call_hook f : M F St A).
Proof. intros w. reflexivity. Qed.

Lemma keeps_self_iadd g xs : keeps_self (iadd g xs : M F St _).
Proof.
  apply keeps_self_bind; [apply keeps_self_deref|]. intros a.
  destruct (added (data a) xs); [apply keeps_self_assign | apply keeps_self_raise].
Qed.

Lemma keeps_self_imul g r : keeps_self (imul g r : M F St _).
Proof.
  apply keeps_self_bind; [apply keeps_self_deref|]. intros a. apply keeps_self_assign.
Qed.

Lemma keeps_self_fill g v : keeps_self (fill g v : M F St _).
Proof.
  apply keeps_self_bind; [apply keeps_self_deref|]. intros a. apply keeps_self_assign.
Qed.

Lemma keeps_self_math_sqrt x : keeps_self (math_sqrt x : M F St _).
Proof. unfold math_sqrt. destruct (ltb x zero); [apply keeps_self_raise | apply keeps_self_ret]. Qed.

Lemma keeps_self_truediv x y : keeps_self (truediv x y : M F St _).
Proof. unfold truediv. destruct (eqb y zero); [apply keeps_self_raise | apply keeps_self_ret]. Qed.

Lemma read_only_keeps_self {A} (m : M F St A) : read_only m -> keeps_self m.
Proof. intros H w. rewrite H. reflexivity. Qed.

Lemma read_only_ret {A} (a : A) : read_only (mret a : M F St A).
Proof. intros w. reflexivity. Qed.

Lemma read_only_raise {A} e : read_only (raise e : M F St A).
Proof. intros w. reflexivity. Qed.

Lemma read_only_bind {A B} (m : M F St A) (k : A -> M F St B) :
  read_only m -> (forall a, read_only (k a)) -> read_only (m ≫= k).
Proof.
  intros Hm Hk w. rewrite run_bind. specialize (Hm w).
  destruct (m w) as [w' [a|e]]; simpl in *; subst.
  - apply Hk.
  - reflexivity.
Qed.

Lemma read_only_for_fold {X A} (xs : list X) (body : A -> X -> M F St A) acc :
  (forall a x, read_only (body a x)) -> read_only (for_fold xs acc body).
Proof.
  intros Hb. revert acc. induction xs as [|x xs IH]; intros acc; simpl.
  - apply read_only_ret.
  - apply read_only_bind; auto.
Qed.

Lemma read_only_getattr_tuples : read_only (getattr_tuples : M F St _).
Proof. intros w. unfold getattr_tuples. destruct (tuples (self w)); reflexivity. Qed.

Lemma read_only_deref l : read_only (deref l : M F St _).
Proof. intros w. unfold deref. destruct (store w !! l); reflexivity. Qed.

Lemma read_only_sqnorm l : read_only (_sqnorm l : M F St _).
Proof.
  apply read_only_bind; [apply read_only_deref|]. intros a.
  destruct (is_gpu (dev a)); apply read_only_ret.
Qed.

Lemma read_only_math_sqrt x : read_only (math_sqrt x : M F St _).
Proof. unfold math_sqrt. destruct (ltb x zero); [apply read_only_raise | apply read_only_ret]. Qed.

Lemma read_only_compute_grads_norm : read_only (compute_grads_norm : M F St _).
Proof.
  apply read_only_bind; [apply read_only_getattr_tuples|]. intros ts.
  apply read_only_bind; [|intros; apply read_only_math_sqrt].
  apply read_only_for_fold. intros a [[p g] s].
  apply read_only_bind; [apply read_only_sqnorm|]. intros; apply read_only_ret.
Qed.

End Monad.

Section Structure.

Context {F : Type} {AF : Arith F} {St : Type}.

Implicit Types (w : world F St) (cls : hooks F St) (h : gmap loc (ndarray F)).
Implicit Types (ts : list (loc * loc * option St)).

(** *** [setup] *)

Lemma init_state_run cls p g h o a :
  init_total cls -> h !! p = Some a ->
  exists h' s, init_state cls p g (World h o) = (World h' o, Return s) /\
    forall l, is_Some (h !! l) -> is_Some (h' !! l).
Proof.
  intros Hcls Hp. unfold init_state.
  rewrite (run_bind_return _ _ _ _ _ (run_deref p (World h o) a Hp)).
  destruct (is_gpu (dev a)).
  - destruct (Hcls _ (or_intror eq_refl) (t o) p g h) as (s & Hs & Hl).
    eexists _, s. unfold call_hook; simpl. rewrite Hs. split; [reflexivity|exact Hl].
  - destruct (Hcls _ (or_introl eq_refl) (t o) p g h) as (s & Hs & Hl).
    eexists _, s. unfold call_hook; simpl. rewrite Hs. split; [reflexivity|exact Hl].
Qed.

Lemma setup_loop cls (pgs : list (loc * loc)) h n acc :
  init_total cls ->
  Forall (fun pg => is_Some (h !! pg.1)) pgs ->
  exists h' new,
    for_each pgs (fun pg => state ← init_state cls pg.1 pg.2;
                            tuples_append (pg.1, pg.2, state))
      (World h (Optimizer_ n (Some acc)))
    = (World h' (Optimizer_ n (Some (acc ++ new))), Return tt) /\
    new.*1 = pgs /\
    forall l, is_Some (h !! l) -> is_Some (h' !! l).
Proof.
  intros Hcls. revert h acc. induction pgs as [|[p g] pgs IH]; intros h acc Hlive.
  - exists h, []. rewrite app_nil_r. auto.
  - apply Forall_cons in Hlive as [[a Ha] Hlive]. simpl in Ha.
    destruct (init_state_run cls p g h (Optimizer_ n (Some acc)) a Hcls Ha)
      as (h1 & s & Hrun & Hmono).
    destruct (IH h1 (acc ++ [(p, g, s)])) as (h' & new & Hloop & Hnew & Hmono').
    { eapply Forall_impl; [exact Hlive|]. intros pg. apply Hmono. }
    exists h', ((p, g, s) :: new). split; [|split].
    + rewrite for_each_cons. erewrite run_bind_return.
      * rewrite Hloop, <- app_assoc. reflexivity.
      * simpl. erewrite run_bind_return; [|exact Hrun].
        apply run_tuples_append. reflexivity.
    + rewrite fmap_cons, Hnew. reflexivity.
    + intros l Hl. apply Hmono', Hmono, Hl.
Qed.

(** [setup] pairs the two sequences positionally, up to the shorter one. *)
Lemma setup_run cls (ps gs : list loc) w :
  init_total cls ->
  Forall (fun p => is_Some (store w !! p)) (take (length gs) ps) ->
  exists h' ts,
    setup cls (ps, gs) w = (World h' (Optimizer_ (Some 0%Z) (Some ts)), Return tt) /\
    ts.*1 = zip ps gs /\
    forall l, is_Some (store w !! l) -> is_Some (h' !! l).
Proof.
  intros Hcls Hlive.
  destruct (setup_loop cls (zip ps gs) (store w) (Some 0%Z) [] Hcls)
    as (h' & new & Hloop & Hnew & Hmono).
  { apply Forall_forall. intros [p g] Hin. simpl.
    rewrite Forall_forall in Hlive. apply Hlive.
    apply list_elem_of_lookup in Hin as [i Hi].
    apply list_elem_of_lookup. exists i.
    unfold zip in Hi. apply lookup_zip_with_Some in Hi as (p' & g' & E & Hp & Hg).
    inversion E; subst. rewrite lookup_take_lt; [exact Hp|].
    apply lookup_lt_Some in Hg. exact Hg. }
  exists h', new. split; [|auto].
  unfold setup. simpl. exact Hloop.
Qed.

Lemma base_init_total : init_total (base : hooks F St).
Proof.
  intros f [-> | ->] n p g h; exists None; simpl; auto.
Qed.

(** With the base hooks every state is [None] and the store is untouched. *)
Lemma setup_base_loop (pgs : list (loc * loc)) h n acc :
  Forall (fun pg => is_Some (h !! pg.1)) pgs ->
  for_each pgs (fun pg => state ← init_state (base : hooks F St) pg.1 pg.2;
                          tuples_append (pg.1, pg.2, state))
    (World h (Optimizer_ n (Some acc)))
  = (World h (Optimizer_ n (Some (acc ++ ((fun pg => (pg.1, pg.2, None)) <$> pgs)))), Return tt).
Proof.
  revert acc. induction pgs as [|[p g] pgs IH]; intros acc Hlive.
  - simpl. rewrite app_nil_r. reflexivity.
  - apply Forall_cons in Hlive as [[a Ha] Hlive]. simpl in Ha.
    rewrite for_each_cons.
    rewrite (run_bind_return _ _ _
      (World h (Optimizer_ n (Some (acc ++ [(p, g, None)])))) tt).
    + rewrite (IH _ Hlive), <- app_assoc. reflexivity.
    + simpl.
      rewrite (run_bind_return _ _ _ (World h (Optimizer_ n (Some acc))) None).
      * apply run_tuples_append. reflexivity.
      * unfold init_state. erewrite run_bind_return; [|apply run_deref; exact Ha].
        destruct (is_gpu (dev a)); reflexivity.
Qed.

End Structure.

Section Frames.

Context {F : Type} {AF : Arith F} {St : Type}.

Implicit Types (w : world F St) (cls : hooks F St).

Lemma keeps_self_compute_grads_norm : keeps_self (compute_grads_norm : M F St _).
Proof. apply read_only_keeps_self, read_only_compute_grads_norm. Qed.

Lemma keeps_self_zero_grads : keeps_self (zero_grads : M F St _).
Proof.
  apply keeps_self_bind; [apply keeps_self_getattr_tuples|]. intros ts.
  apply keeps_self_for_each. intros [[p g] s].
  apply keeps_self_bind; [apply keeps_self_deref|]. intros a.
  destruct (is_gpu (dev a)); apply keeps_self_fill.
Qed.

Lemma keeps_self_clip_grads maxnorm : keeps_self (clip_grads maxnorm : M F St _).
Proof.
  apply keeps_self_bind; [apply keeps_self_compute_grads_norm|]. intros norm.
  destruct (ltb maxnorm norm); [|apply keeps_self_ret].
  apply keeps_self_bind; [apply keeps_self_truediv|]. intros ratio.
  apply keeps_self_bind; [apply keeps_self_getattr_tuples|]. intros ts.
  apply keeps_self_for_each. intros [[p g] s]. apply keeps_self_imul.
Qed.

Lemma keeps_self_weight_decay decay : keeps_self (weight_decay decay : M F St _).
Proof.
  apply keeps_self_bind; [apply keeps_self_getattr_tuples|]. intros ts.
  apply keeps_self_for_each. intros [[p g] s].
  apply keeps_self_bind; [apply keeps_self_deref|]. intros a.
  destruct (is_gpu (dev a)); apply keeps_self_iadd.
Qed.

Lemma keeps_self_accumulate_grads gs : keeps_self (accumulate_grads gs : M F St _).
Proof.
  apply keeps_self_bind; [apply keeps_self_getattr_tuples|]. intros ts.
  apply keeps_self_for_each. intros [[[p g] s] g_src].
  apply keeps_self_bind; [apply keeps_self_deref|]. intros dst.
  apply keeps_self_bind; [apply keeps_self_deref|]. intros src.
  destruct (dev dst); [apply keeps_self_iadd|].
  destruct (dev src); [apply keeps_self_iadd|].
  destruct (negb _); apply keeps_self_iadd.
Qed.

Lemma keeps_self_update_one cls p g s : keeps_self (update_one cls p g s).
Proof.
  apply keeps_self_bind; [apply keeps_self_deref|]. intros a.
  destruct (is_gpu (dev a)); apply keeps_self_call_hook.
Qed.

(** [update] is the loop over the tuples, run with the counter already
    advanced. *)
Lemma update_run cls w n ts :
  t (self w) = Some n -> tuples (self w) = Some ts ->
  update cls w
  = for_each ts (fun '(p, g, s) => update_one cls p g s)
      (World (store w) (Optimizer_ (Some (n + 1)%Z) (Some ts))).
Proof.
  intros Ht Hts. unfold update.
  rewrite (run_bind_return _ _ _ _ _ (run_getattr_t w n Ht)).
  rewrite (run_bind_return _ _ _
    (World (store w) (Optimizer_ (Some (n + 1)%Z) (tuples (self w)))) tt eq_refl).
  cbv beta. rewrite Hts.
  erewrite run_bind_return; [reflexivity|].
  apply run_getattr_tuples. reflexivity.
Qed.

(** The base class raises at the first triple. *)
Lemma update_one_base p g s w a :
  store w !! p = Some a ->
  update_one (base : hooks F St) p g s w = (w, Raise NotImplementedError).
Proof.
  intros Hp. unfold update_one.
  rewrite (run_bind_return _ _ _ _ _ (run_deref p w a Hp)).
  destruct w as [h o]. destruct (is_gpu (dev a)); reflexivity.
Qed.

End Frames.

Section Loops.

Context {F : Type} {AF : Arith F} {St : Type}.

Implicit Types (w : world F St) (h : gmap loc (ndarray F)).
Implicit Types (us : list (loc * (gmap loc (ndarray F) -> ndarray F -> ndarray F))).

Lemma insert_as_alter h l a (f : ndarray F -> ndarray F) :
  h !! l = Some a -> <[l := f a]> h = alter f l h.
Proof.
  intros E. apply map_eq. intros i. destruct (decide (l = i)) as [->|Hne].
  - rewrite lookup_insert_eq, lookup_alter_eq, E. reflexivity.
  - rewrite lookup_insert_ne, lookup_alter_ne by done. reflexivity.
Qed.

Lemma apply_all_cons u us h :
  apply_all (u :: us) h = apply_all us (alter (u.2 h) u.1 h).
Proof. reflexivity. Qed.

(** An object no update targets is untouched. *)
Lemma lookup_apply_all_notin us h l :
  l ∉ us.*1 -> apply_all us h !! l = h !! l.
Proof.
  revert h. induction us as [|[g f] us IH]; intros h Hl; [reflexivity|].
  rewrite apply_all_cons. rewrite fmap_cons in Hl. apply not_elem_of_cons in Hl as [Hne Hl].
  rewrite IH by exact Hl. simpl in *. apply lookup_alter_ne. congruence.
Qed.

(** With distinct targets, each object is updated once, by a function of
    the initial store if that function reads no target. *)
Lemma lookup_apply_all_in us h i g f :
  NoDup us.*1 -> us !! i = Some (g, f) ->
  (forall h', (forall l, l ∉ us.*1 -> h' !! l = h !! l) -> f h' = f h) ->
  apply_all us h !! g = f h <$> h !! g.
Proof.
  revert h i. induction us as [|[g0 f0] us IH]; intros h i Hnd Hi Hf; [done|].
  rewrite fmap_cons in Hnd. apply NoDup_cons in Hnd as [Hg0 Hnd].
  rewrite apply_all_cons. simpl. destruct i as [|i]; simpl in Hi.
  - inversion Hi; subst. rewrite lookup_apply_all_notin by exact Hg0.
    apply lookup_alter_eq.
  - assert (Hne : g0 <> g).
    { intros ->. apply Hg0. apply list_elem_of_fmap. exists (g, f). split; [done|].
      apply list_elem_of_lookup. eauto. }
    assert (Hagree : forall l, l ∉ ((g0, f0) :: us).*1 ->
                       alter (f0 h) g0 h !! l = h !! l).
    { intros l Hl. rewrite fmap_cons in Hl. apply not_elem_of_cons in Hl as [Hl _].
      apply lookup_alter_ne. simpl in Hl. congruence. }
    rewrite (IH _ i Hnd Hi).
    + rewrite lookup_alter_ne by exact Hne. rewrite (Hf _ Hagree). reflexivity.
    + intros h' Hh'. rewrite (Hf _ Hagree). apply Hf.
      intros l Hl. rewrite <- Hagree by exact Hl. apply Hh'.
      rewrite fmap_cons in Hl. apply not_elem_of_cons in Hl as [_ Hl]. exact Hl.
Qed.

(** A loop whose body updates one object per element runs to the end. *)
Lemma for_each_apply_all {X} (body : X -> M F St unit)
    (u : X -> loc * (gmap loc (ndarray F) -> ndarray F -> ndarray F))
    (P : gmap loc (ndarray F) -> X -> Prop) xs h o :
  (forall x h, P h x ->
     body x (World h o) = (World (alter ((u x).2 h) (u x).1 h) o, Return tt)) ->
  (forall x y h, P h y -> P h x -> P (alter ((u y).2 h) (u y).1 h) x) ->
  Forall (P h) xs ->
  for_each xs body (World h o) = (World (apply_all (u <$> xs) h) o, Return tt).
Proof.
  intros Hbody Hpres. revert h. induction xs as [|x xs IH]; intros h HP.
  - reflexivity.
  - apply Forall_cons in HP as [Hx HP].
    rewrite for_each_cons, (run_bind_return _ _ _ _ _ (Hbody x h Hx)).
    rewrite IH; [reflexivity|].
    eapply Forall_impl; [exact HP|]. intros y Hy. apply Hpres; assumption.
Qed.

(** *** Shapes *)

Lemma broadcast_to_length n (xs ys : list F) :
  broadcast_to n xs = Some ys -> length ys = n.
Proof.
  unfold broadcast_to. destruct (decide (length xs = n)) as [E|_].
  - intros [= <-]. exact E.
  - destruct xs as [|x [|? ?]]; try discriminate.
    intros [= <-]. apply length_replicate.
Qed.

Lemma added_length (a xs zs : list F) : added a xs = Some zs -> length zs = length a.
Proof.
  unfold added. destruct (broadcast_to (length a) xs) as [ys|] eqn:E; [|discriminate].
  simpl. intros [= <-]. apply broadcast_to_length in E.
  rewrite length_zip_with. lia.
Qed.

Lemma added_same_shape (a xs : list F) :
  length xs = length a -> added a xs = Some (zip_with add a xs).
Proof.
  intros E. unfold added, broadcast_to. rewrite decide_True by exact E. reflexivity.
Qed.

Lemma plus_length (xs a : list F) : length (plus xs a) = length a.
Proof.
  unfold plus. destruct (added a xs) as [zs|] eqn:E; simpl; [|reflexivity].
  eapply added_length, E.
Qed.

Lemma plus_same_shape (xs a : list F) :
  length xs = length a -> plus xs a = zip_with add a xs.
Proof. intros E. unfold plus. rewrite added_same_shape by exact E. reflexivity. Qed.

Lemma scaled_length (d : F) p : length (scaled d p) = length p.
Proof. apply length_map. Qed.

(** Updating the elements of an object by a function that keeps their number
    keeps every shape in the store. *)
Lemma lookup_alter_shape h g (k : list F -> list F) l :
  (forall a, length (k a) = length a) ->
  (fun a => length (data a)) <$> (alter (with_data k) g h !! l)
  = (fun a => length (data a)) <$> (h !! l).
Proof.
  intros Hk. destruct (decide (g = l)) as [->|Hne].
  - rewrite lookup_alter_eq. destruct (h !! l) as [a|]; simpl; [|reflexivity].
    rewrite Hk. reflexivity.
  - rewrite lookup_alter_ne by exact Hne. reflexivity.
Qed.

Lemma same_len_alter h g (k : list F -> list F) l1 l2 :
  (forall a, length (k a) = length a) ->
  same_len h l1 l2 -> same_len (alter (with_data k) g h) l1 l2.
Proof.
  intros Hk (pa & ga & Hp & Hg & Hlen).
  pose proof (lookup_alter_shape h g k l1 Hk) as Sp.
  pose proof (lookup_alter_shape h g k l2 Hk) as Sg.
  rewrite Hp in Sp. rewrite Hg in Sg. simpl in *.
  destruct (alter (with_data k) g h !! l1) as [pa'|] eqn:Ep; [|discriminate].
  destruct (alter (with_data k) g h !! l2) as [ga'|] eqn:Eg; [|discriminate].
  exists pa', ga'. cbn in Sp, Sg. injection Sp as Sp. injection Sg as Sg.
  split; [exact Ep|]. split; [exact Eg|]. congruence.
Qed.

Lemma same_shape_alter h g (k : list F -> list F) (x : loc * loc * option St) :
  (forall a, length (k a) = length a) ->
  same_shape h x -> same_shape (alter (with_data k) g h) x.
Proof. apply same_len_alter. Qed.

Lemma is_Some_alter h g (f : ndarray F -> ndarray F) l :
  is_Some (h !! l) -> is_Some (alter f g h !! l).
Proof.
  intros [a Ha]. destruct (decide (g = l)) as [->|Hne].
  - rewrite lookup_alter_eq, Ha. eauto.
  - rewrite lookup_alter_ne, Ha by exact Hne. eauto.
Qed.

End Loops.

Section Methods.

Context {F : Type} {AF : Arith F} {St : Type}.

Implicit Types (w : world F St) (h : gmap loc (ndarray F)).
Implicit Types (ts : list (loc * loc * option St)).

Lemma run_fill g v w a :
  store w !! g = Some a ->
  fill g v w
  = (World (alter (with_data (map (fun _ => v))) g (store w)) (self w), Return tt).
Proof.
  intros E. unfold fill.
  rewrite (run_bind_return _ _ _ _ _ (run_deref g w a E)).
  rewrite (run_assign g _ w a E).
  rewrite <- (insert_as_alter _ _ a) by exact E. reflexivity.
Qed.

Lemma run_imul g r w a :
  store w !! g = Some a ->
  imul g r w
  = (World (alter (with_data (map (fun v => mul v r))) g (store w)) (self w), Return tt).
Proof.
  intros E. unfold imul.
  rewrite (run_bind_return _ _ _ _ _ (run_deref g w a E)).
  rewrite (run_assign g _ w a E).
  rewrite <- (insert_as_alter _ _ a) by exact E. reflexivity.
Qed.

Lemma run_iadd g xs w a :
  store w !! g = Some a -> length xs = length (data a) ->
  iadd g xs w
  = (World (alter (with_data (plus xs)) g (store w)) (self w), Return tt).
Proof.
  intros E Hlen. unfold iadd.
  rewrite (run_bind_return _ _ _ _ _ (run_deref g w a E)).
  rewrite added_same_shape by exact Hlen.
  rewrite (run_assign g _ w a E).
  rewrite <- (insert_as_alter _ _ a) by exact E.
  unfold with_data. rewrite plus_same_shape by exact Hlen. reflexivity.
Qed.

(** [a += xs] with shapes that do not broadcast raises and changes nothing. *)
Lemma run_iadd_mismatch g xs w a :
  store w !! g = Some a -> added (data a) xs = None ->
  iadd g xs w = (w, Raise ValueError).
Proof.
  intros E Hno. unfold iadd.
  rewrite (run_bind_return _ _ _ _ _ (run_deref g w a E)). rewrite Hno. reflexivity.
Qed.

Lemma elems_lookup h l a : h !! l = Some a -> elems h l = data a.
Proof. intros E. unfold elems. rewrite E. reflexivity. Qed.

Lemma Forall_grads_live ts h :
  Forall (fun l => is_Some (h !! l)) (grads ts) <->
  Forall (fun x : loc * loc * option St => is_Some (h !! x.1.2)) ts.
Proof. unfold grads. rewrite Forall_fmap. reflexivity. Qed.

Lemma same_shape_live h (x : loc * loc * option St) :
  same_shape h x -> is_Some (h !! x.1.1) /\ is_Some (h !! x.1.2).
Proof. intros (pa & ga & Hp & Hg & _). rewrite Hp, Hg. eauto. Qed.

Lemma Configured_live_grads w n ts :
  Configured w n ts -> Forall (fun l => is_Some (store w !! l)) (grads ts).
Proof. intros (_ & _ & H). apply Forall_app in H as [_ H]. exact H. Qed.

Lemma Configured_live_params w n ts :
  Configured w n ts -> Forall (fun l => is_Some (store w !! l)) (params ts).
Proof. intros (_ & _ & H). apply Forall_app in H as [H _]. exact H. Qed.

Lemma Ready_Configured w n ts : Ready w n ts -> Configured w n ts.
Proof.
  intros (Ht & Hts & _ & Hshape & _). split; [exact Ht|]. split; [exact Hts|].
  apply Forall_app. unfold params, grads. rewrite !Forall_fmap. split.
  - eapply Forall_impl; [exact Hshape|]. intros x Hx. apply (same_shape_live _ _ Hx).
  - eapply Forall_impl; [exact Hshape|]. intros x Hx. apply (same_shape_live _ _ Hx).
Qed.

(** *** [zero_grads] *)

Lemma zero_grads_run w ts :
  tuples (self w) = Some ts ->
  Forall (fun l => is_Some (store w !! l)) (grads ts) ->
  zero_grads w = (World (apply_all (zero_updates ts) (store w)) (self w), Return tt).
Proof.
  intros Hts Hlive. unfold zero_grads.
  rewrite (run_bind_return _ _ _ _ _ (run_getattr_tuples w ts Hts)).
  destruct w as [h o]. simpl in *. unfold zero_updates.
  apply (for_each_apply_all _ _ (fun h x => is_Some (h !! x.1.2))).
  - intros [[p g] s] h' [a Ha]. simpl in *.
    rewrite (run_bind_return _ _ _ _ _ (run_deref g (World h' o) a Ha)).
    destruct (is_gpu (dev a)); apply (run_fill g zero (World h' o) a Ha).
  - intros x y h' _ Hx. apply is_Some_alter, Hx.
  - apply Forall_grads_live, Hlive.
Qed.

(** *** the loop of [clip_grads] *)

Lemma scale_loop_run ratio h o ts :
  Forall (fun l => is_Some (h !! l)) (grads ts) ->
  for_each ts (fun '(_, g, _) => imul g ratio) (World h o : world F St)
  = (World (apply_all (scale_updates ratio ts) h) o, Return tt).
Proof.
  intros Hlive. unfold scale_updates.
  apply (for_each_apply_all _ _ (fun h x => is_Some (h !! x.1.2))).
  - intros [[p g] s] h' [a Ha]. simpl in *.
    apply (run_imul g ratio (World h' o) a Ha).
  - intros x y h' _ Hx. apply is_Some_alter, Hx.
  - apply Forall_grads_live, Hlive.
Qed.

(** *** [weight_decay] *)

Lemma weight_decay_run decay w ts :
  tuples (self w) = Some ts ->
  Forall (same_shape (store w)) ts ->
  weight_decay decay w
  = (World (apply_all (decay_updates decay ts) (store w)) (self w), Return tt).
Proof.
  intros Hts Hshape. unfold weight_decay.
  rewrite (run_bind_return _ _ _ _ _ (run_getattr_tuples w ts Hts)).
  destruct w as [h o]. simpl in *. unfold decay_updates.
  apply (for_each_apply_all _ _ (fun h x => same_shape h x)).
  - intros [[p g] s] h' (pa & ga & Hp & Hg & Hlen). simpl in *.
    rewrite (run_bind_return _ _ _ _ _ (run_deref p (World h' o) pa Hp)).
    rewrite (elems_lookup h' p pa Hp).
    assert (Hl : length (scaled decay (data pa)) = length (data ga))
      by (rewrite scaled_length; exact Hlen).
    destruct (is_gpu (dev pa)); apply (run_iadd g _ (World h' o) ga Hg Hl).
  - intros x y h' _ Hx. apply same_shape_alter; [apply plus_length | exact Hx].
  - exact Hshape.
Qed.

(** *** [accumulate_grads] *)

Lemma accumulate_grads_run srcs w ts :
  tuples (self w) = Some ts ->
  Forall (matched (store w)) (zip ts srcs) ->
  accumulate_grads srcs w
  = (World (apply_all (accum_updates (zip ts srcs)) (store w)) (self w), Return tt).
Proof.
  intros Hts Hshape. unfold accumulate_grads.
  rewrite (run_bind_return _ _ _ _ _ (run_getattr_tuples w ts Hts)).
  destruct w as [h o]. simpl in *. unfold accum_updates.
  apply (for_each_apply_all _ _ (fun h x => matched h x)).
  - intros [[[p g] s] g_src] h' (sa & ga & Hs & Hg & Hlen). simpl in *.
    rewrite (run_bind_return _ _ _ _ _ (run_deref g (World h' o) ga Hg)).
    rewrite (run_bind_return _ _ _ _ _ (run_deref g_src (World h' o) sa Hs)).
    rewrite (elems_lookup h' g_src sa Hs).
    destruct (dev ga); [|destruct (dev sa); [|destruct (negb _)]];
      apply (run_iadd g _ (World h' o) ga Hg Hlen).
  - intros x y h' _ Hx. apply same_len_alter; [apply plus_length | exact Hx].
  - exact Hshape.
Qed.

(** *** [compute_grads_norm] *)

Lemma arrays_cons_live h l ls a :
  h !! l = Some a -> arrays h (l :: ls) = a :: arrays h ls.
Proof. intros E. unfold arrays. simpl. rewrite E. reflexivity. Qed.

Lemma sqnorm_loop_run ts acc w :
  Forall (fun l => is_Some (store w !! l)) (grads ts) ->
  for_fold ts acc (fun sqnorm '(_, g, _) => s ← _sqnorm g; mret (add sqnorm s)) w
  = (w, Return (foldl (fun acc a => add acc (sqnorm_of a)) acc
                  (arrays (store w) (grads ts)))).
Proof.
  revert acc. induction ts as [|[[p g] s] ts IH]; intros acc Hlive; [reflexivity|].
  unfold grads in Hlive. rewrite fmap_cons in Hlive.
  apply Forall_cons in Hlive as [[a Ha] Hlive]. simpl in Ha.
  simpl for_fold.
  rewrite (run_bind_return _ _ _ w (add acc (sqnorm_of a))).
  - rewrite (IH _ Hlive). unfold grads. rewrite fmap_cons. cbn [fst snd].
    rewrite (arrays_cons_live _ _ _ _ Ha). reflexivity.
  - rewrite (run_bind_return _ _ _ w (sqnorm_of a)); [reflexivity|].
    unfold _sqnorm. rewrite (run_bind_return _ _ _ _ _ (run_deref g w a Ha)).
    destruct (is_gpu (dev a)); reflexivity.
Qed.

Lemma compute_grads_norm_run w ts :
  tuples (self w) = Some ts ->
  Forall (fun l => is_Some (store w !! l)) (grads ts) ->
  compute_grads_norm w = math_sqrt (sum_sqnorm (arrays (store w) (grads ts))) w.
Proof.
  intros Hts Hlive. unfold compute_grads_norm.
  rewrite (run_bind_return _ _ _ _ _ (run_getattr_tuples w ts Hts)).
  rewrite (run_bind_return _ _ _ _ _ (sqnorm_loop_run ts zero w Hlive)).
  reflexivity.
Qed.

End Methods.

Section Norm.

Context {F : Type} {AF : Arith F} {AL : ArithLaws F} {St : Type}.

Implicit Types (w : world F St) (h : gmap loc (ndarray F)).
Implicit Types (ts : list (loc * loc * option St)).

(** *** The squared norm is never negative, so [math.sqrt] returns *)

Lemma sum_from_nonneg (gs : list (ndarray F)) acc :
  ltb acc zero = false ->
  ltb (foldl (fun acc a => add acc (sqnorm_of a)) acc gs) zero = false.
Proof.
  revert acc. induction gs as [|a gs IH]; intros acc Hacc; simpl; [exact Hacc|].
  apply IH. apply add_nonneg; [exact Hacc | apply vdot_nonneg].
Qed.

Lemma sum_sqnorm_nonneg (gs : list (ndarray F)) : ltb (sum_sqnorm gs) zero = false.
Proof. apply sum_from_nonneg, ltb_zero_zero. Qed.

(** [compute_grads_norm] returns, and changes nothing. *)
Lemma compute_grads_norm_returns w n ts :
  Configured w n ts ->
  compute_grads_norm w
  = (w, Return (sqrt (sum_sqnorm (arrays (store w) (grads ts))))).
Proof.
  intros Hc. pose proof (Configured_live_grads _ _ _ Hc) as Hlive.
  destruct Hc as (_ & Hts & _).
  rewrite (compute_grads_norm_run w ts Hts Hlive).
  unfold math_sqrt. rewrite sum_sqnorm_nonneg. reflexivity.
Qed.

(** *** Zero gradients *)

Lemma sqnorm_of_zeros (a : ndarray F) :
  sqnorm_of (with_data (map (fun _ => zero)) a) = zero.
Proof. unfold sqnorm_of, with_data. simpl. apply vdot_zeros. Qed.

Lemma sum_sqnorm_zeros (gs : list (ndarray F)) :
  sum_sqnorm (with_data (map (fun _ => zero)) <$> gs) = zero.
Proof.
  unfold sum_sqnorm. induction gs as [|a gs IH]; simpl; [reflexivity|].
  rewrite sqnorm_of_zeros, add_zero_zero. exact IH.
Qed.

End Norm.

Section Pointwise.

Context {F : Type} {AF : Arith F} {St : Type}.

Implicit Types (w : world F St) (h : gmap loc (ndarray F)).
Implicit Types (ts : list (loc * loc * option St)).

(** The same idempotent update of every target, whatever the aliasing. *)
Lemma lookup_apply_all_const (k : ndarray F -> ndarray F) (gs : list loc) h l :
  (forall a, k (k a) = k a) ->
  apply_all ((fun g => (g, fun _ : gmap loc (ndarray F) => k)) <$> gs) h !! l
  = if decide (l ∈ gs) then k <$> h !! l else h !! l.
Proof.
  intros Hk. revert h. induction gs as [|g gs IH]; intros h.
  - destruct (decide (l ∈ [])) as [Hin|_]; [|reflexivity].
    apply elem_of_nil in Hin. destruct Hin.
  - rewrite fmap_cons, apply_all_cons, IH. cbn [fst snd].
    destruct (decide (l ∈ g :: gs)) as [Hin|Hnin]; destruct (decide (l ∈ gs)) as [Hin'|Hnin'].
    + destruct (decide (g = l)) as [->|Hne].
      * rewrite lookup_alter_eq. destruct (h !! l); simpl; [|reflexivity].
        rewrite Hk. reflexivity.
      * rewrite lookup_alter_ne by exact Hne. reflexivity.
    + apply elem_of_cons in Hin as [->|Hin]; [|contradiction].
      apply lookup_alter_eq.
    + exfalso. apply Hnin, list_elem_of_further, Hin'.
    + apply not_elem_of_cons in Hnin as [Hne _].
      apply lookup_alter_ne. congruence.
Qed.

Lemma zero_updates_grads ts :
  zero_updates ts
  = (fun g => (g, fun _ : gmap loc (ndarray F) => with_data (map (fun _ => zero))))
      <$> grads ts.
Proof. unfold zero_updates, grads. rewrite <- list_fmap_compose. reflexivity. Qed.

Lemma lookup_zero_updates ts h l :
  apply_all (zero_updates ts) h !! l
  = if decide (l ∈ grads ts)
    then with_data (map (fun _ => zero)) <$> h !! l else h !! l.
Proof.
  rewrite zero_updates_grads. apply lookup_apply_all_const.
  intros a. unfold with_data. simpl. f_equal.
  rewrite map_map. reflexivity.
Qed.

Lemma arrays_cons h l (ls : list loc) :
  arrays h (l :: ls)
  = match h !! l with Some a => a :: arrays h ls | None => arrays h ls end.
Proof. unfold arrays. simpl. destruct (h !! l); reflexivity. Qed.

Lemma arrays_fmap h h' (k : ndarray F -> ndarray F) (ls : list loc) :
  (forall l, l ∈ ls -> h' !! l = k <$> h !! l) ->
  arrays h' ls = k <$> arrays h ls.
Proof.
  induction ls as [|l ls IH]; intros H; [reflexivity|].
  rewrite !arrays_cons, (H l) by apply list_elem_of_here.
  rewrite IH by (intros l' Hl'; apply H, list_elem_of_further, Hl').
  destruct (h !! l) as [a|]; reflexivity.
Qed.

(** Updates of the elements keep every object alive. *)
Lemma is_Some_apply_all us h l :
  is_Some (h !! l) -> is_Some (apply_all us h !! l).
Proof.
  revert h. induction us as [|u us IH]; intros h Hl; [exact Hl|].
  rewrite apply_all_cons. apply IH, is_Some_alter, Hl.
Qed.

Lemma Configured_apply_all us w n ts :
  Configured w n ts -> Configured (World (apply_all us (store w)) (self w)) n ts.
Proof.
  intros (Ht & Hts & Hlive). split; [exact Ht|]. split; [exact Hts|].
  eapply Forall_impl; [exact Hlive|]. intros l. apply is_Some_apply_all.
Qed.

(** With distinct targets, the update made for an element of the loop. *)
Lemma lookup_updates_in {X} (mk : X -> loc * (gmap loc (ndarray F) -> ndarray F -> ndarray F))
    (xs : list X) h x :
  NoDup (mk <$> xs).*1 -> x ∈ xs ->
  (forall h', (forall l, l ∉ (mk <$> xs).*1 -> h' !! l = h !! l) -> (mk x).2 h' = (mk x).2 h) ->
  apply_all (mk <$> xs) h !! (mk x).1 = (mk x).2 h <$> h !! (mk x).1.
Proof.
  intros Hnd Hx Hframe. apply list_elem_of_lookup in Hx as [i Hi].
  apply (lookup_apply_all_in _ h i); [exact Hnd| |exact Hframe].
  rewrite list_lookup_fmap, Hi. simpl. destruct (mk x). reflexivity.
Qed.

Lemma scale_updates_targets ratio ts : (scale_updates ratio ts).*1 = grads ts.
Proof. unfold scale_updates, grads. rewrite <- list_fmap_compose. reflexivity. Qed.

Lemma decay_updates_targets decay ts : (decay_updates decay ts).*1 = grads ts.
Proof. unfold decay_updates, grads. rewrite <- list_fmap_compose. reflexivity. Qed.

Lemma lookup_scale_updates_in ratio ts h l :
  NoDup (grads ts) -> l ∈ grads ts ->
  apply_all (scale_updates ratio ts) h !! l
  = with_data (map (fun v => mul v ratio)) <$> h !! l.
Proof.
  intros Hnd Hl. apply list_elem_of_fmap in Hl as (x & -> & Hx).
  apply (lookup_updates_in
           (fun x => (x.1.2, fun _ => with_data (map (fun v => mul v ratio)))) ts h x).
  - fold (scale_updates ratio ts). rewrite scale_updates_targets. exact Hnd.
  - exact Hx.
  - reflexivity.
Qed.

Lemma lookup_scale_updates_notin ratio ts h l :
  l ∉ grads ts -> apply_all (scale_updates ratio ts) h !! l = h !! l.
Proof.
  intros Hl. apply lookup_apply_all_notin. rewrite scale_updates_targets. exact Hl.
Qed.

Lemma Ready_NoDup_grads w n ts : Ready w n ts -> NoDup (grads ts).
Proof. intros (_ & _ & _ & _ & Hnd). apply NoDup_app in Hnd as (_ & _ & Hnd). exact Hnd. Qed.

Lemma Ready_param_not_grad w n ts l :
  Ready w n ts -> l ∈ params ts -> l ∉ grads ts.
Proof. intros (_ & _ & _ & _ & Hnd). apply NoDup_app in Hnd as (_ & Hd & _). apply Hd. Qed.

(** Updates that keep the number of elements keep the shapes. *)
Lemma same_len_apply_all us h l1 l2 :
  Forall (fun u => forall h', exists k,
            u.2 h' = with_data k /\ forall a : list F, length (k a) = length a) us ->
  same_len h l1 l2 -> same_len (apply_all us h) l1 l2.
Proof.
  revert h. induction us as [|u us IH]; intros h Hus Hl; [exact Hl|].
  apply Forall_cons in Hus as [Hu Hus]. rewrite apply_all_cons.
  apply IH; [exact Hus|]. destruct (Hu h) as (k & -> & Hk).
  apply same_len_alter; assumption.
Qed.

Lemma decay_updates_keep_shape decay ts :
  Forall (fun u => forall h', exists k,
            u.2 h' = with_data k /\ forall a : list F, length (k a) = length a)
    (decay_updates decay ts).
Proof.
  unfold decay_updates. apply Forall_fmap, Forall_forall. intros x _ h'. simpl.
  eexists. split; [reflexivity|]. intros a. apply plus_length.
Qed.

Lemma accum_updates_keep_shape (xs : list (loc * loc * option St * loc)) :
  Forall (fun u => forall h', exists k,
            u.2 h' = with_data k /\ forall a : list F, length (k a) = length a)
    (accum_updates xs).
Proof.
  unfold accum_updates. apply Forall_fmap, Forall_forall. intros x _ h'. simpl.
  eexists. split; [reflexivity|]. intros a. apply plus_length.
Qed.

Lemma elems_agree h h' l : h' !! l = h !! l -> elems h' l = elems h l.
Proof. intros E. unfold elems. rewrite E. reflexivity. Qed.

Lemma lookup_decay_updates_in decay ts h x :
  NoDup (params ts ++ grads ts) -> x ∈ ts ->
  apply_all (decay_updates decay ts) h !! x.1.2
  = with_data (plus (scaled decay (elems h x.1.1))) <$> h !! x.1.2.
Proof.
  intros Hnd Hx. apply NoDup_app in Hnd as (_ & Hdisj & Hnd).
  apply (lookup_updates_in
           (fun x => (x.1.2, fun h => with_data (plus (scaled decay (elems h x.1.1)))))
           ts h x).
  - fold (decay_updates decay ts). rewrite decay_updates_targets. exact Hnd.
  - exact Hx.
  - intros h' Hh'. simpl. rewrite (elems_agree h h'); [reflexivity|].
    apply Hh'. fold (decay_updates decay ts). rewrite decay_updates_targets.
    apply Hdisj. unfold params. apply list_elem_of_fmap. exists x. auto.
Qed.

Lemma lookup_decay_updates_notin decay ts h l :
  l ∉ grads ts -> apply_all (decay_updates decay ts) h !! l = h !! l.
Proof.
  intros Hl. apply lookup_apply_all_notin. rewrite decay_updates_targets. exact Hl.
Qed.

Lemma accum_updates_targets ts (srcs : list loc) :
  length srcs = length ts -> (accum_updates (zip ts srcs)).*1 = grads ts.
Proof.
  intros Hlen. unfold accum_updates, grads. rewrite <- list_fmap_compose.
  rewrite <- (fst_zip ts srcs) at 2 by lia.
  rewrite <- list_fmap_compose. reflexivity.
Qed.

Lemma lookup_accum_updates_in ts (srcs : list loc) h i x src :
  length srcs = length ts -> NoDup (grads ts) ->
  ts !! i = Some x -> srcs !! i = Some src -> src ∉ grads ts ->
  apply_all (accum_updates (zip ts srcs)) h !! x.1.2
  = with_data (plus (elems h src)) <$> h !! x.1.2.
Proof.
  intros Hlen Hnd Hx Hsrc Hext.
  apply (lookup_updates_in
           (fun x : loc * loc * option St * loc =>
              (x.1.1.2, fun h => with_data (plus (elems h x.2))))
           (zip ts srcs) h (x, src)).
  - fold (accum_updates (zip ts srcs)). rewrite accum_updates_targets by exact Hlen.
    exact Hnd.
  - apply list_elem_of_lookup. exists i. unfold zip.
    apply lookup_zip_with_Some. eauto.
  - intros h' Hh'. simpl. rewrite (elems_agree h h'); [reflexivity|].
    apply Hh'. fold (accum_updates (zip ts srcs)).
    rewrite accum_updates_targets by exact Hlen. exact Hext.
Qed.

Lemma lookup_accum_updates_notin ts (srcs : list loc) h l :
  length srcs = length ts -> l ∉ grads ts ->
  apply_all (accum_updates (zip ts srcs)) h !! l = h !! l.
Proof.
  intros Hlen Hl. apply lookup_apply_all_notin.
  rewrite accum_updates_targets by exact Hlen. exact Hl.
Qed.

End Pointwise.

Section Attributes.

Context {F : Type} {AF : Arith F} {St : Type}.

Implicit Types (w : world F St) (cls : hooks F St).
Implicit Types (ts : list (loc * loc * option St)).

Lemma params_fst ts : params ts = (ts.*1).*1.
Proof. unfold params. rewrite <- list_fmap_compose. reflexivity. Qed.

Lemma grads_snd ts : grads ts = (ts.*1).*2.
Proof. unfold grads. rewrite <- list_fmap_compose. reflexivity. Qed.

Lemma getattr_tuples_missing w :
  tuples (self w) = None -> getattr_tuples w = (w, Raise AttributeError).
Proof. intros E. unfold getattr_tuples. rewrite E. reflexivity. Qed.

Lemma getattr_t_missing w :
  t (self w) = None -> getattr_t w = (w, Raise AttributeError).
Proof. intros E. unfold getattr_t. rewrite E. reflexivity. Qed.

(** The base class's [update] with at least one triple. *)
Lemma update_base_raises w n x ts :
  Configured w n (x :: ts) ->
  update (base : hooks F St) w
  = (World (store w) (Optimizer_ (Some (n + 1)%Z) (Some (x :: ts))),
     Raise NotImplementedError).
Proof.
  intros Hc. pose proof (Configured_live_params _ _ _ Hc) as Hlive.
  destruct Hc as (Ht & Hts & _).
  rewrite (update_run base w n (x :: ts) Ht Hts).
  rewrite for_each_cons. apply run_bind_raise.
  destruct x as [[p g] s]. unfold params in Hlive. rewrite fmap_cons in Hlive.
  apply Forall_cons in Hlive as [[a Ha] _].
  apply (update_one_base p g s _ a). exact Ha.
Qed.

Lemma fst_stateless (pgs : list (loc * loc)) :
  ((fun pg => (pg.1, pg.2, @None St)) <$> pgs).*1 = pgs.
Proof.
  induction pgs as [|[p g] pgs IH]; [reflexivity|].
  rewrite !fmap_cons, IH. reflexivity.
Qed.

(** [setup] on the parameters and gradients of a model (pairwise distinct
    arrays, each gradient of the shape of its parameter) establishes the
    Ready state. *)
Lemma setup_base_Ready (ps gs : list loc) w :
  length ps = length gs ->
  NoDup (ps ++ gs) ->
  Forall (fun pg => same_len (store w) pg.1 pg.2) (zip ps gs) ->
  exists ts,
    setup (base : hooks F St) (ps, gs) w
    = (World (store w) (Optimizer_ (Some 0%Z) (Some ts)), Return tt) /\
    Ready (World (store w) (Optimizer_ (Some 0%Z) (Some ts))) 0 ts.
Proof.
  intros Hlen Hnd Hshape.
  exists ((fun pg => (pg.1, pg.2, None)) <$> zip ps gs). split.
  - assert (Hpgs : Forall (fun pg => is_Some (store w !! pg.1)) (zip ps gs));
      [|exact (setup_base_loop (zip ps gs) (store w) (Some 0%Z) [] Hpgs)].
    eapply Forall_impl; [exact Hshape|].
    intros pg (pa & _ & Hp & _). rewrite Hp. eauto.
  - split; [reflexivity|]. split; [reflexivity|]. split; [done|]. split.
    + apply Forall_fmap. eapply Forall_impl; [exact Hshape|]. intros pg H. exact H.
    + rewrite params_fst, grads_snd, fst_stateless, fst_zip, snd_zip by lia.
      exact Hnd.
Qed.

End Attributes.

(** Exposes the operations of the reals behind the interface. *)
Ltac real_ops := cbn [zero add mul div real_arith] in *.

Section RealNorm.

Context {St : Type}.

Implicit Types (w : world R St) (gs : list (ndarray R)).

Lemma sum_of_squares_app (xs ys : list R) :
  sum_of_squares (xs ++ ys) = (sum_of_squares xs + sum_of_squares ys)%R.
Proof. induction xs as [|x xs IH]; simpl; [lra|]. rewrite IH. lra. Qed.

Lemma sum_of_squares_nonneg (xs : list R) : (0 <= sum_of_squares xs)%R.
Proof. induction xs as [|x xs IH]; simpl; [lra|]. nra. Qed.

Lemma dot_real_from (xs : list R) (acc : R) :
  foldl (fun acc xy => add acc (mul xy.1 xy.2)) acc (zip xs xs)
  = (acc + sum_of_squares xs)%R.
Proof.
  revert acc. induction xs as [|x xs IH]; intros acc; simpl; [lra|].
  rewrite IH. real_ops. lra.
Qed.

Lemma sqnorm_of_real (a : ndarray R) : sqnorm_of a = sum_of_squares (data a).
Proof.
  unfold sqnorm_of. change (vdot (data a) (data a)) with (dot (data a) (data a)).
  unfold dot. rewrite dot_real_from. real_ops. lra.
Qed.

Lemma sum_real_from gs (acc : R) :
  foldl (fun acc a => add acc (sqnorm_of a)) acc gs
  = (acc + sum_of_squares (concatenation gs))%R.
Proof.
  unfold concatenation.
  revert acc. induction gs as [|a gs IH]; intros acc; [simpl; lra|].
  cbn [foldl]. rewrite IH, sqnorm_of_real, fmap_cons, concat_cons, sum_of_squares_app.
  real_ops. rewrite Rplus_assoc. reflexivity.
Qed.

(** In exact arithmetic the accumulated squared norm is the sum of the
    squares of all gradient elements. *)
Lemma sum_sqnorm_real gs : sum_sqnorm gs = sum_of_squares (concatenation gs).
Proof. unfold sum_sqnorm. rewrite sum_real_from. real_ops. lra. Qed.

Lemma sum_of_squares_perm (xs ys : list R) :
  xs ≡ₚ ys -> sum_of_squares xs = sum_of_squares ys.
Proof.
  induction 1 as [|x xs ys _ IH|x y xs|xs ys zs _ IH1 _ IH2]; simpl.
  - reflexivity.
  - rewrite IH. reflexivity.
  - lra.
  - congruence.
Qed.

Lemma sum_sqnorm_perm gs gs' : gs ≡ₚ gs' -> sum_sqnorm gs = sum_sqnorm gs'.
Proof.
  intros H. rewrite !sum_sqnorm_real. apply sum_of_squares_perm.
  unfold concatenation. rewrite H. reflexivity.
Qed.

Lemma arrays_perm (h : gmap loc (ndarray R)) (ts ts' : list (loc * loc * option St)) :
  ts ≡ₚ ts' -> arrays h (grads ts) ≡ₚ arrays h (grads ts').
Proof. intros H. unfold arrays, grads. rewrite H. reflexivity. Qed.

End RealNorm.

Lemma Configured_perm {F St} (w : world F St) n ts ts' :
  Configured w n ts -> ts ≡ₚ ts' -> Configured (with_tuples ts' w) n ts'.
Proof.
  intros (Ht & Hts & Hlive) Hperm. split; [exact Ht|]. split; [reflexivity|].
  simpl. unfold params, grads in *. rewrite <- Hperm. exact Hlive.
Qed.

Section NumericClaims.

Context {F : Type} {AF : Arith F} {AL : ArithLaws F} {St : Type}.

Implicit Types (w : world F St) (h : gmap loc (ndarray F)).
Implicit Types (ts : list (loc * loc * option St)).

(** *** [clip_grads] *)

Lemma clip_grads_noop w maxnorm norm :
  compute_grads_norm w = (w, Return norm) ->
  leb norm maxnorm = true ->
  clip_grads maxnorm w = (w, Return tt).
Proof.
  intros Hnorm Hle. unfold clip_grads.
  rewrite (run_bind_return _ _ _ _ _ Hnorm).
  rewrite (leb_not_gt _ _ Hle). reflexivity.
Qed.

Lemma clip_grads_run w n ts maxnorm norm :
  Configured w n ts ->
  compute_grads_norm w = (w, Return norm) ->
  ltb zero maxnorm = true -> ltb maxnorm norm = true ->
  clip_grads maxnorm w
  = (World (apply_all (scale_updates (div maxnorm norm) ts) (store w)) (self w),
     Return tt).
Proof.
  intros Hc Hnorm Hpos Hgt. pose proof (Configured_live_grads _ _ _ Hc) as Hlive.
  destruct Hc as (_ & Hts & _). unfold clip_grads.
  rewrite (run_bind_return _ _ _ _ _ Hnorm). rewrite Hgt.
  assert (Hdiv : truediv maxnorm norm w = (w, Return (div maxnorm norm))).
  { unfold truediv. rewrite (pos_lt_nonzero _ _ Hpos Hgt). reflexivity. }
  rewrite (run_bind_return _ _ _ _ _ Hdiv).
  rewrite (run_bind_return _ _ _ _ _ (run_getattr_tuples w ts Hts)).
  destruct w as [h o]. apply scale_loop_run. exact Hlive.
Qed.

End NumericClaims.

Section RealClip.

Context {St : Type}.

Implicit Types (w : world R St) (gs : list (ndarray R)).

Lemma sum_of_squares_scaled (r : R) (xs : list R) :
  sum_of_squares (map (fun v => mul v r) xs) = (r * r * sum_of_squares xs)%R.
Proof. induction xs as [|x xs IH]; simpl in *; [lra|]. rewrite IH. lra. Qed.

Lemma sum_of_squares_scaled_arrays (r : R) gs :
  sum_of_squares (concatenation (with_data (map (fun v => mul v r)) <$> gs))
  = (r * r * sum_of_squares (concatenation gs))%R.
Proof.
  unfold concatenation. induction gs as [|a gs IH]; [simpl; lra|].
  rewrite !fmap_cons, !concat_cons, !sum_of_squares_app, IH.
  simpl. rewrite sum_of_squares_scaled. lra.
Qed.

(** In exact arithmetic, clipping brings the norm down to [maxnorm]. *)
Lemma clip_grads_real w n ts (maxnorm norm : R) :
  Ready w n ts ->
  (0 < maxnorm)%R ->
  compute_grads_norm w = (w, Return norm) ->
  (maxnorm < norm)%R ->
  exists w',
    clip_grads maxnorm w = (w', Return tt) /\
    compute_grads_norm w' = (w', Return maxnorm).
Proof.
  intros Hr Hpos Hnorm Hgt. pose proof (Ready_Configured _ _ _ Hr) as Hc.
  pose proof (Ready_NoDup_grads _ _ _ Hr) as Hnd.
  exists (World (apply_all (scale_updates (div maxnorm norm) ts) (store w)) (self w)).
  split.
  - apply (clip_grads_run w n ts); try assumption; apply real_ltb_true; assumption.
  - rewrite (compute_grads_norm_returns _ n ts (Configured_apply_all _ w n ts Hc)).
    rewrite (compute_grads_norm_returns w n ts Hc) in Hnorm.
    injection Hnorm as Hnorm. f_equal. f_equal. simpl store.
    rewrite (arrays_fmap (store w) _ (with_data (map (fun v => mul v (div maxnorm norm)))))
      by (intros l Hl; apply lookup_scale_updates_in; assumption).
    rewrite sum_sqnorm_real in *. rewrite sum_of_squares_scaled_arrays.
    set (S := sum_of_squares (concatenation (arrays (store w) (grads ts)))) in *.
    assert (HS : (0 <= S)%R) by apply sum_of_squares_nonneg.
    real_ops. cbn [sqrt real_arith] in *.
    assert (Hratio : (0 <= maxnorm / norm)%R).
    { apply Rlt_le, Rdiv_lt_0_compat; lra. }
    rewrite sqrt_mult by nra. rewrite sqrt_square by exact Hratio.
    rewrite Hnorm. field. lra.
Qed.

End RealClip.

Section Accumulation.

Context {F : Type} {AF : Arith F} {St : Type}.

Implicit Types (w : world F St) (h : gmap loc (ndarray F)).
Implicit Types (ts : list (loc * loc * option St)).

Lemma Ready_shapes w n ts : Ready w n ts -> Forall (same_shape (store w)) ts.
Proof. intros (_ & _ & _ & H & _). exact H. Qed.

Lemma Ready_tuples w n ts : Ready w n ts -> tuples (self w) = Some ts.
Proof. intros (_ & H & _). exact H. Qed.

Lemma Ready_NoDup w n ts : Ready w n ts -> NoDup (params ts ++ grads ts).
Proof. intros (_ & _ & _ & _ & H). exact H. Qed.

(** What [weight_decay] leaves in the buffers of a triple. *)
Lemma weight_decay_pointwise decay w n ts :
  Ready w n ts ->
  exists w',
    weight_decay decay w = (w', Return tt) /\
    self w' = self w /\
    (forall p g s, (p, g, s) ∈ ts ->
       exists pa ga,
         store w !! p = Some pa /\ store w !! g = Some ga /\
         store w' !! g
         = Some (with_data (fun xs => zip_with add xs (scaled decay (data pa))) ga) /\
         store w' !! p = Some pa) /\
    (forall l, l ∉ grads ts -> store w' !! l = store w !! l).
Proof.
  intros Hr. pose proof (Ready_shapes _ _ _ Hr) as Hshape.
  pose proof (Ready_NoDup _ _ _ Hr) as Hnd.
  exists (World (apply_all (decay_updates decay ts) (store w)) (self w)).
  split; [apply weight_decay_run; [apply (Ready_tuples _ _ _ Hr)|exact Hshape]|].
  split; [reflexivity|]. split.
  - intros p g s Hin. rewrite Forall_forall in Hshape.
    destruct (Hshape _ Hin) as (pa & ga & Hp & Hg & Hlen). simpl in Hp, Hg.
    exists pa, ga. split; [exact Hp|]. split; [exact Hg|]. simpl. split.
    + rewrite (lookup_decay_updates_in decay ts (store w) (p, g, s) Hnd Hin).
      simpl. rewrite Hg, (elems_lookup _ _ _ Hp). simpl. unfold with_data.
      rewrite plus_same_shape by (rewrite scaled_length; exact Hlen). reflexivity.
    + rewrite lookup_decay_updates_notin; [exact Hp|].
      apply (Ready_param_not_grad _ _ _ _ Hr). unfold params.
      apply list_elem_of_fmap. exists (p, g, s). auto.
  - intros l Hl. simpl. apply lookup_decay_updates_notin, Hl.
Qed.

(** What [accumulate_grads] leaves in the gradient buffers: the sum with the
    source, element by element, and nothing else. *)
Lemma accumulate_grads_pointwise (srcs : list loc) w n ts :
  Ready w n ts ->
  length srcs = length ts ->
  Forall (matched (store w)) (zip ts srcs) ->
  Forall (fun src => src ∉ grads ts) srcs ->
  exists w',
    accumulate_grads srcs w = (w', Return tt) /\
    self w' = self w /\
    (forall i p g s src, ts !! i = Some (p, g, s) -> srcs !! i = Some src ->
       exists ga sa,
         store w !! g = Some ga /\ store w !! src = Some sa /\
         store w' !! g = Some (with_data (fun xs => zip_with add xs (data sa)) ga)) /\
    (forall l, l ∉ grads ts -> store w' !! l = store w !! l).
Proof.
  intros Hr Hlen Hmatched Hext. pose proof (Ready_NoDup_grads _ _ _ Hr) as Hnd.
  exists (World (apply_all (accum_updates (zip ts srcs)) (store w)) (self w)).
  split; [apply accumulate_grads_run; [apply (Ready_tuples _ _ _ Hr)|exact Hmatched]|].
  split; [reflexivity|]. split.
  - intros i p g s src Hi Hsrc. rewrite Forall_forall in Hmatched.
    destruct (Hmatched ((p, g, s), src)) as (sa & ga & Hs & Hg & Hl).
    { apply list_elem_of_lookup. exists i. unfold zip.
      apply lookup_zip_with_Some. eauto. }
    simpl in Hs, Hg. exists ga, sa. split; [exact Hg|]. split; [exact Hs|]. simpl.
    rewrite (lookup_accum_updates_in ts srcs (store w) i (p, g, s) src Hlen Hnd Hi Hsrc).
    + simpl. rewrite Hg, (elems_lookup _ _ _ Hs). simpl. unfold with_data.
      rewrite plus_same_shape by exact Hl. reflexivity.
    + rewrite Forall_forall in Hext. apply Hext.
      apply list_elem_of_lookup. eauto.
  - intros l Hl. simpl. apply lookup_accum_updates_notin; assumption.
Qed.

(** Both methods keep the Ready state. *)
Lemma Ready_apply_all us w n ts :
  Forall (fun u => forall h', exists k,
            u.2 h' = with_data k /\ forall a : list F, length (k a) = length a) us ->
  Ready w n ts -> Ready (World (apply_all us (store w)) (self w)) n ts.
Proof.
  intros Hus (Ht & Hts & Hn & Hshape & Hnd).
  split; [exact Ht|]. split; [exact Hts|]. split; [exact Hn|]. split; [|exact Hnd].
  eapply Forall_impl; [exact Hshape|]. intros x. apply same_len_apply_all, Hus.
Qed.

(** Two calls of [weight_decay]: each product and each sum is made, and
    rounded, in turn. *)
Lemma weight_decay_twice d1 d2 w n ts :
  Ready w n ts ->
  exists w2,
    weight_decay d2 (weight_decay d1 w).1 = (w2, Return tt) /\
    forall p g s, (p, g, s) ∈ ts ->
      exists pa ga,
        store w !! p = Some pa /\ store w !! g = Some ga /\
        store w2 !! g
        = Some (with_data (fun xs => zip_with add
                                       (zip_with add xs (scaled d1 (data pa)))
                                       (scaled d2 (data pa))) ga).
Proof.
  intros Hr.
  destruct (weight_decay_pointwise d1 w n ts Hr) as (w1 & Hrun1 & _ & Hin1 & _).
  assert (Hr1 : Ready w1 n ts).
  { rewrite (weight_decay_run d1 w ts (Ready_tuples _ _ _ Hr) (Ready_shapes _ _ _ Hr))
      in Hrun1. injection Hrun1 as <-.
    apply Ready_apply_all; [apply decay_updates_keep_shape|exact Hr]. }
  destruct (weight_decay_pointwise d2 w1 n ts Hr1) as (w2 & Hrun2 & _ & Hin2 & _).
  exists w2. rewrite Hrun1. split; [exact Hrun2|].
  intros p g s Hin.
  destruct (Hin1 p g s Hin) as (pa & ga & Hp & Hg & Hg1 & Hp1).
  destruct (Hin2 p g s Hin) as (pa' & ga' & Hp' & Hg' & Hg2 & _).
  rewrite Hp1 in Hp'. injection Hp' as <-. rewrite Hg1 in Hg'. injection Hg' as <-.
  exists pa, ga. split; [exact Hp|]. split; [exact Hg|]. exact Hg2.
Qed.

(** Two calls of [accumulate_grads]: [(g + x) + y]. *)
Lemma accumulate_grads_twice (xs ys : list loc) w n ts :
  Ready w n ts ->
  length xs = length ts -> length ys = length ts ->
  Forall (matched (store w)) (zip ts xs) ->
  Forall (matched (store w)) (zip ts ys) ->
  Forall (fun src => src ∉ grads ts) (xs ++ ys) ->
  exists w2,
    accumulate_grads ys (accumulate_grads xs w).1 = (w2, Return tt) /\
    forall i p g s x y,
      ts !! i = Some (p, g, s) -> xs !! i = Some x -> ys !! i = Some y ->
      exists ga xa ya,
        store w !! g = Some ga /\ store w !! x = Some xa /\ store w !! y = Some ya /\
        store w2 !! g
        = Some (with_data (fun v => zip_with add (zip_with add v (data xa)) (data ya)) ga).
Proof.
  intros Hr Lx Ly Mx My Hext. apply Forall_app in Hext as [Ex Ey].
  destruct (accumulate_grads_pointwise xs w n ts Hr Lx Mx Ex)
    as (w1 & Hrun1 & _ & Hin1 & Hout1).
  pose proof Hrun1 as Hw1.
  rewrite (accumulate_grads_run xs w ts (Ready_tuples _ _ _ Hr) Mx) in Hw1.
  injection Hw1 as Hw1.
  assert (Hr1 : Ready w1 n ts).
  { rewrite <- Hw1. apply Ready_apply_all; [apply accum_updates_keep_shape|exact Hr]. }
  assert (My1 : Forall (matched (store w1)) (zip ts ys)).
  { rewrite <- Hw1. eapply Forall_impl; [exact My|]. intros x.
    apply same_len_apply_all, accum_updates_keep_shape. }
  destruct (accumulate_grads_pointwise ys w1 n ts Hr1 Ly My1 Ey)
    as (w2 & Hrun2 & _ & Hin2 & _).
  exists w2. rewrite Hrun1. split; [exact Hrun2|].
  intros i p g s x y Hi Hx Hy.
  destruct (Hin1 i p g s x Hi Hx) as (ga & xa & Hg & Hxa & Hg1).
  destruct (Hin2 i p g s y Hi Hy) as (ga' & ya & Hg' & Hya & Hg2).
  rewrite Hg1 in Hg'. injection Hg' as <-.
  rewrite Hout1 in Hya
    by (rewrite Forall_forall in Ey; apply Ey, list_elem_of_lookup; eauto).
  exists ga, xa, ya. split; [exact Hg|]. split; [exact Hxa|]. split; [exact Hya|].
  exact Hg2.
Qed.

End Accumulation.

Section RealLinearity.

Context {St : Type}.

Implicit Types (w : world R St) (h : gmap loc (ndarray R)).
Implicit Types (ts : list (loc * loc * option St)).

Lemma zip_with_add_assoc (g a b : list R) :
  zip_with add (zip_with add g a) b = zip_with add g (zip_with add a b).
Proof.
  revert a b. induction g as [|x g IH]; intros [|y a] [|z b]; simpl; try reflexivity.
  rewrite IH. f_equal. lra.
Qed.

Lemma zip_with_add_scaled (d1 d2 : R) (g p : list R) :
  zip_with add (zip_with add g (scaled d1 p)) (scaled d2 p)
  = zip_with add g (scaled (add d1 d2) p).
Proof.
  revert p. induction g as [|x g IH]; intros [|y p]; simpl; try reflexivity.
  rewrite IH. f_equal. lra.
Qed.

(** In exact arithmetic two decays are the decay by the sum. *)
Lemma weight_decay_linear w n ts (d1 d2 : R) :
  Ready w n ts ->
  weight_decay d2 (weight_decay d1 w).1 = weight_decay (add d1 d2) w.
Proof.
  intros Hr. pose proof (Ready_shapes _ _ _ Hr) as Hshape.
  pose proof (Ready_NoDup _ _ _ Hr) as Hnd.
  pose proof (Ready_tuples _ _ _ Hr) as Hts.
  rewrite (weight_decay_run d1 w ts Hts Hshape). cbn [fst].
  assert (Hshape1 : Forall (same_shape (apply_all (decay_updates d1 ts) (store w))) ts).
  { eapply Forall_impl; [exact Hshape|]. intros x.
    apply same_len_apply_all, decay_updates_keep_shape. }
  rewrite (weight_decay_run d2
             (World (apply_all (decay_updates d1 ts) (store w)) (self w)) ts Hts Hshape1).
  rewrite (weight_decay_run (add d1 d2) w ts Hts Hshape).
  f_equal. f_equal. cbn [store]. apply map_eq. intros l.
  destruct (decide (l ∈ grads ts)) as [Hl|Hl].
  - apply list_elem_of_fmap in Hl as (x & -> & Hx).
    rewrite !(lookup_decay_updates_in _ ts _ x Hnd Hx).
    rewrite (elems_agree (store w) (apply_all (decay_updates d1 ts) (store w)) x.1.1).
    + rewrite Forall_forall in Hshape.
      destruct (Hshape x Hx) as (pa & ga & Hp & Hg & Hlen).
      rewrite Hg, (elems_lookup _ _ _ Hp). cbn [fmap option_fmap option_map].
      unfold with_data. cbn [dev data]. f_equal. f_equal.
      rewrite (plus_same_shape (scaled d1 (data pa)) (data ga))
        by (rewrite scaled_length; exact Hlen).
      rewrite (plus_same_shape (scaled (add d1 d2) (data pa)) (data ga))
        by (rewrite scaled_length; exact Hlen).
      rewrite plus_same_shape.
      * apply zip_with_add_scaled.
      * rewrite length_zip_with, !scaled_length. lia.
    + apply lookup_decay_updates_notin.
      apply (Ready_param_not_grad _ _ _ _ Hr). unfold params.
      apply list_elem_of_fmap. exists x. auto.
  - rewrite !lookup_decay_updates_notin by exact Hl. reflexivity.
Qed.

(** In exact arithmetic two accumulations are the accumulation of the
    sums. *)
Lemma accumulate_grads_presummed w n ts (xs ys sums : list loc) :
  Ready w n ts ->
  length xs = length ts -> length ys = length ts -> length sums = length ts ->
  Forall (matched (store w)) (zip ts xs) ->
  Forall (matched (store w)) (zip ts ys) ->
  Forall (matched (store w)) (zip ts sums) ->
  Forall (fun src => src ∉ grads ts) (xs ++ ys ++ sums) ->
  presummed (store w) xs ys sums ->
  accumulate_grads ys (accumulate_grads xs w).1 = accumulate_grads sums w.
Proof.
  intros Hr Lx Ly Ls Mx My Ms Hext Hsum.
  pose proof (Ready_NoDup_grads _ _ _ Hr) as Hnd.
  pose proof (Ready_tuples _ _ _ Hr) as Hts.
  apply Forall_app in Hext as [Ex Hext]. apply Forall_app in Hext as [Ey Es].
  rewrite Forall_forall in Ex, Ey, Es.
  rewrite (accumulate_grads_run xs w ts Hts Mx). cbn [fst].
  assert (My1 : Forall (matched (apply_all (accum_updates (zip ts xs)) (store w)))
                  (zip ts ys)).
  { eapply Forall_impl; [exact My|]. intros x.
    apply same_len_apply_all, accum_updates_keep_shape. }
  rewrite (accumulate_grads_run ys
             (World (apply_all (accum_updates (zip ts xs)) (store w)) (self w)) ts Hts My1).
  rewrite (accumulate_grads_run sums w ts Hts Ms).
  f_equal. f_equal. cbn [store]. apply map_eq. intros l.
  destruct (decide (l ∈ grads ts)) as [Hl|Hl].
  - apply list_elem_of_fmap in Hl as (t0 & -> & Ht0).
    apply list_elem_of_lookup in Ht0 as [i Hi].
    destruct (lookup_lt_is_Some_2 xs i) as [x Hx];
      [rewrite Lx; apply (lookup_lt_Some _ _ _ Hi)|].
    destruct (lookup_lt_is_Some_2 ys i) as [y Hy];
      [rewrite Ly; apply (lookup_lt_Some _ _ _ Hi)|].
    destruct (lookup_lt_is_Some_2 sums i) as [s Hs];
      [rewrite Ls; apply (lookup_lt_Some _ _ _ Hi)|].
    assert (Hx' : x ∉ grads ts) by (apply Ex, list_elem_of_lookup; eauto).
    assert (Hy' : y ∉ grads ts) by (apply Ey, list_elem_of_lookup; eauto).
    assert (Hs' : s ∉ grads ts) by (apply Es, list_elem_of_lookup; eauto).
    rewrite (lookup_accum_updates_in ts ys _ i t0 y Ly Hnd Hi Hy Hy').
    rewrite (lookup_accum_updates_in ts xs _ i t0 x Lx Hnd Hi Hx Hx').
    rewrite (lookup_accum_updates_in ts sums _ i t0 s Ls Hnd Hi Hs Hs').
    rewrite (elems_agree (store w) (apply_all (accum_updates (zip ts xs)) (store w)) y)
      by (apply lookup_accum_updates_notin; assumption).
    rewrite (Hsum i x y s Hx Hy Hs).
    rewrite Forall_forall in Mx, My.
    destruct (Mx (t0, x)) as (xa & ga & Hxa & Hg & Hlx).
    { apply list_elem_of_lookup. exists i. unfold zip.
      apply lookup_zip_with_Some. eauto. }
    destruct (My (t0, y)) as (ya & ga' & Hya & Hg' & Hly).
    { apply list_elem_of_lookup. exists i. unfold zip.
      apply lookup_zip_with_Some. eauto. }
    cbn [fst snd] in *. rewrite Hg in Hg'. injection Hg' as <-.
    rewrite Hg, (elems_lookup _ _ _ Hxa), (elems_lookup _ _ _ Hya).
    cbn [fmap option_fmap option_map]. unfold with_data. cbn [dev data].
    f_equal. f_equal.
    rewrite (plus_same_shape (data xa) (data ga)) by exact Hlx.
    rewrite (plus_same_shape (zip_with add (data xa) (data ya)) (data ga))
      by (rewrite length_zip_with; lia).
    rewrite plus_same_shape by (rewrite length_zip_with; lia).
    apply zip_with_add_assoc.
  - rewrite !lookup_accum_updates_notin by assumption. reflexivity.
Qed.

End RealLinearity.

(** * The claims *)

Section Claims.

Context {F : Type} {AF : Arith F} {AL : ArithLaws F} {St : Type}.

Implicit Types (w : world F St) (cls : hooks F St).
Implicit Types (ts : list (loc * loc * option St)).

(** C1, as the code has it. In the Ready state [compute_grads_norm]
    returns a norm. With a positive [maxnorm]: if that norm is at most
    [maxnorm], [clip_grads] changes nothing; if it is greater, [clip_grads]
    multiplies every element of every gradient buffer, in place, by the one
    ratio [maxnorm / norm], and leaves everything else as it was. In exact
    arithmetic the norm after clipping is [maxnorm]; in binary64 nothing is
    said of it. For the parameter [[1.0, 2.0]] with gradient [[3.0, 4.0]],
    in binary64, the norm is [5.0] and [clip_grads(2.5)] leaves the gradient
    [[1.5, 2.0]], of norm [2.5]. *)
Theorem C1_clip_grads :
  (forall (w : world F St) n ts,
     Ready w n ts -> exists norm, compute_grads_norm w = (w, Return norm)) /\
  (forall (w : world F St) n ts (maxnorm norm : F),
     Ready w n ts ->
     ltb zero maxnorm = true ->
     compute_grads_norm w = (w, Return norm) ->
     (leb norm maxnorm = true -> clip_grads maxnorm w = (w, Return tt)) /\
     (ltb maxnorm norm = true ->
      exists w',
        clip_grads maxnorm w = (w', Return tt) /\
        self w' = self w /\
        (forall l, l ∈ grads ts ->
           store w' !! l
           = with_data (map (fun v => mul v (div maxnorm norm))) <$> store w !! l) /\
        (forall l, l ∉ grads ts -> store w' !! l = store w !! l))) /\
  (forall (w : world R St) n ts (maxnorm norm : R),
     Ready w n ts ->
     (0 < maxnorm)%R ->
     compute_grads_norm w = (w, Return norm) ->
     (maxnorm < norm)%R ->
     exists w' : world R St,
       clip_grads maxnorm w = (w', Return tt) /\
       compute_grads_norm w' = (w', Return maxnorm)) /\
  (compute_grads_norm Scenario.ready = (Scenario.ready, Return 5%float) /\
   clip_grads 2.5%float Scenario.ready
   = (World (<[1 := NdArray Host [1.5; 2]%float]> Scenario.objects)
        (self Scenario.ready), Return tt) /\
   compute_grads_norm (clip_grads 2.5%float Scenario.ready).1
   = ((clip_grads 2.5%float Scenario.ready).1, Return 2.5%float)).
Proof.
  split; [|split; [|split]].
  - intros w n ts Hr. eexists.
    apply (compute_grads_norm_returns w n ts (Ready_Configured _ _ _ Hr)).
  - intros w n ts maxnorm norm Hr Hpos Hnorm.
    pose proof (Ready_Configured _ _ _ Hr) as Hc. split.
    + intros Hle. apply (clip_grads_noop w maxnorm norm Hnorm Hle).
    + intros Hgt. eexists. split; [apply (clip_grads_run w n ts); eassumption|].
      split; [reflexivity|]. split.
      * intros l Hl. simpl. apply lookup_scale_updates_in; [|exact Hl].
        apply (Ready_NoDup_grads _ _ _ Hr).
      * intros l Hl. simpl. apply lookup_scale_updates_notin, Hl.
  - intros w n ts maxnorm norm. apply clip_grads_real.
  - repeat split; reflexivity.
Qed.

(** C2, as the code has it. [compute_grads_norm] changes nothing, in any
    state. In a configured optimizer it returns the square root of the sum,
    over the triples in their order, of what the library's dot product
    returns for each gradient with itself. In exact arithmetic that is the
    Euclidean norm of the concatenation of all gradient buffers, and it does
    not depend on the order of the triples; in binary64 the sum is rounded
    at each step, in tuple order. *)
Theorem C2_compute_grads_norm :
  (forall (w : world F St), (compute_grads_norm w).1 = w) /\
  (forall (w : world F St) n ts,
     Configured w n ts ->
     compute_grads_norm w
     = (w, Return (sqrt (sum_sqnorm (arrays (store w) (grads ts)))))) /\
  (forall (w : world R St) n ts,
     Configured w n ts ->
     compute_grads_norm w
     = (w, Return (R_sqrt.sqrt
                     (sum_of_squares (concatenation (arrays (store w) (grads ts))))))) /\
  (forall (w : world R St) n ts ts',
     Configured w n ts -> ts ≡ₚ ts' ->
     (compute_grads_norm (with_tuples ts' w)).2 = (compute_grads_norm w).2).
Proof.
  split; [|split; [|split]].
  - intros w. apply read_only_compute_grads_norm.
  - intros w n ts Hc. apply (compute_grads_norm_returns w n ts Hc).
  - intros w n ts Hc. rewrite (compute_grads_norm_returns w n ts Hc).
    rewrite sum_sqnorm_real. reflexivity.
  - intros w n ts ts' Hc Hperm.
    rewrite (compute_grads_norm_returns w n ts Hc).
    rewrite (compute_grads_norm_returns _ n ts' (Configured_perm w n ts ts' Hc Hperm)).
    simpl. rewrite (sum_sqnorm_perm _ _ (arrays_perm (store w) ts ts' Hperm)).
    reflexivity.
Qed.

(** C3, as the code has it. [setup] does not compare the lengths of the two
    sequences: it pairs them positionally up to the shorter one ([zip]) and
    returns. Every other operation, invoked before [setup], raises
    [AttributeError] at once and changes nothing. *)
Theorem C3_preconditions (ps gs : list loc) w :
  Unconfigured w ->
  Forall (fun p => is_Some (store w !! p)) (take (length gs) ps) ->
  (exists ts,
     setup (base : hooks F St) (ps, gs) w
     = (World (store w) (Optimizer_ (Some 0%Z) (Some ts)), Return tt) /\
     ts = (fun pg => (pg.1, pg.2, None)) <$> zip ps gs /\
     length ts = min (length ps) (length gs)) /\
  zero_grads w = (w, Raise AttributeError) /\
  compute_grads_norm w = (w, Raise AttributeError) /\
  (forall maxnorm, clip_grads maxnorm w = (w, Raise AttributeError)) /\
  (forall decay, weight_decay decay w = (w, Raise AttributeError)) /\
  (forall grads, accumulate_grads grads w = (w, Raise AttributeError)) /\
  (forall cls, update cls w = (w, Raise AttributeError)).
Proof.
  intros [Ht Hts] Hlive.
  pose proof (getattr_tuples_missing w Hts) as Htuples.
  assert (Hnorm : compute_grads_norm w = (w, Raise AttributeError)).
  { unfold compute_grads_norm. apply run_bind_raise, Htuples. }
  split; [|repeat split].
  - exists ((fun pg => (pg.1, pg.2, None)) <$> zip ps gs).
    split; [|split; [reflexivity|]].
    + assert (Hpgs : Forall (fun pg => is_Some (store w !! pg.1)) (zip ps gs));
        [|exact (setup_base_loop (zip ps gs) (store w) (Some 0%Z) [] Hpgs)].
      apply Forall_forall. intros [p g] Hin. simpl.
      rewrite Forall_forall in Hlive. apply Hlive.
      apply list_elem_of_lookup in Hin as [i Hi].
      apply list_elem_of_lookup. exists i.
      unfold zip in Hi. apply lookup_zip_with_Some in Hi as (p' & g' & E & Hp & Hg).
      inversion E; subst. rewrite lookup_take_lt; [exact Hp|].
      apply lookup_lt_Some in Hg. exact Hg.
    + rewrite length_fmap. unfold zip. apply length_zip_with.
  - unfold zero_grads. apply run_bind_raise, Htuples.
  - exact Hnorm.
  - intros maxnorm. unfold clip_grads. apply run_bind_raise, Hnorm.
  - intros decay. unfold weight_decay. apply run_bind_raise, Htuples.
  - intros grads. unfold accumulate_grads. apply run_bind_raise, Htuples.
  - intros cls. unfold update. apply run_bind_raise, getattr_t_missing, Ht.
Qed.

(** C4. In a configured optimizer with step counter [n], a call of
    [update] leaves the counter at [n + 1] (whether or not a hook raises),
    and [zero_grads], [compute_grads_norm], [clip_grads], [weight_decay] and
    [accumulate_grads] leave it at [n]. *)
Theorem C4_step_counter cls w n ts :
  Configured w n ts ->
  t (self (update cls w).1) = Some (n + 1)%Z /\
  t (self (zero_grads w).1) = Some n /\
  t (self (compute_grads_norm w).1) = Some n /\
  (forall maxnorm, t (self (clip_grads maxnorm w).1) = Some n) /\
  (forall decay, t (self (weight_decay decay w).1) = Some n) /\
  (forall grads, t (self (accumulate_grads grads w).1) = Some n).
Proof.
  intros (Ht & Hts & _). split; [|repeat split].
  - rewrite (update_run cls w n ts Ht Hts).
    rewrite keeps_self_for_each; [reflexivity|].
    intros [[p g] s]. apply keeps_self_update_one.
  - rewrite keeps_self_zero_grads. exact Ht.
  - rewrite keeps_self_compute_grads_norm. exact Ht.
  - intros maxnorm. rewrite keeps_self_clip_grads. exact Ht.
  - intros decay. rewrite keeps_self_weight_decay. exact Ht.
  - intros grads. rewrite keeps_self_accumulate_grads. exact Ht.
Qed.

(** C5. For parameter and gradient sequences of equal length, [setup]
    returns, and afterwards the optimizer holds one triple per input pair,
    in the input order (the parameters of the triples are the input
    parameters, their gradients the input gradients), and [t] is 0. This
    holds for the base class and for every subclass whose state initialisers
    return. *)
Theorem C5_setup_triples cls (ps gs : list loc) w :
  length ps = length gs ->
  init_total cls ->
  Forall (fun p => is_Some (store w !! p)) ps ->
  exists h' ts,
    setup cls (ps, gs) w = (World h' (Optimizer_ (Some 0%Z) (Some ts)), Return tt) /\
    length ts = length ps /\ params ts = ps /\ grads ts = gs.
Proof.
  intros Hlen Hcls Hlive.
  destruct (setup_run cls ps gs w Hcls) as (h' & ts & Hrun & Hts & _).
  { rewrite <- Hlen, firstn_all. exact Hlive. }
  exists h', ts. split; [exact Hrun|].
  assert (Hp : params ts = ps).
  { rewrite params_fst, Hts. apply fst_zip. lia. }
  assert (Hg : grads ts = gs).
  { rewrite grads_snd, Hts. apply snd_zip. lia. }
  split; [|auto]. rewrite <- Hp. unfold params. rewrite length_fmap. reflexivity.
Qed.

(** C6, as the code has it. In the Ready state, for sources positionally
    matched to the triples (as many as the triples, each of the shape of
    its gradient) that are not gradient buffers of the optimizer,
    [accumulate_grads] returns and leaves in each gradient buffer its sum
    with the source, element by element, with no scaling; nothing else
    changes. In exact arithmetic, accumulating [xs] and then [ys] is
    accumulating their element-wise sums; in binary64 each addition rounds,
    so [(g + x) + y] is what two calls leave and [g + (x + y)] what one
    does. *)
Theorem C6_accumulate_grads :
  (forall (w : world F St) n ts (srcs : list loc),
     Ready w n ts ->
     length srcs = length ts ->
     Forall (matched (store w)) (zip ts srcs) ->
     Forall (fun src => src ∉ grads ts) srcs ->
     exists w',
       accumulate_grads srcs w = (w', Return tt) /\
       self w' = self w /\
       (forall i p g s src, ts !! i = Some (p, g, s) -> srcs !! i = Some src ->
          exists ga sa,
            store w !! g = Some ga /\ store w !! src = Some sa /\
            store w' !! g
            = Some (with_data (fun xs => zip_with add xs (data sa)) ga)) /\
       (forall l, l ∉ grads ts -> store w' !! l = store w !! l)) /\
  (forall (w : world F St) n ts (xs ys : list loc),
     Ready w n ts ->
     length xs = length ts -> length ys = length ts ->
     Forall (matched (store w)) (zip ts xs) ->
     Forall (matched (store w)) (zip ts ys) ->
     Forall (fun src => src ∉ grads ts) (xs ++ ys) ->
     exists w2,
       accumulate_grads ys (accumulate_grads xs w).1 = (w2, Return tt) /\
       forall i p g s x y,
         ts !! i = Some (p, g, s) -> xs !! i = Some x -> ys !! i = Some y ->
         exists ga xa ya,
           store w !! g = Some ga /\ store w !! x = Some xa /\
           store w !! y = Some ya /\
           store w2 !! g
           = Some (with_data (fun v => zip_with add (zip_with add v (data xa))
                                         (data ya)) ga)) /\
  (forall (w : world R St) n ts (xs ys sums : list loc),
     Ready w n ts ->
     length xs = length ts -> length ys = length ts -> length sums = length ts ->
     Forall (matched (store w)) (zip ts xs) ->
     Forall (matched (store w)) (zip ts ys) ->
     Forall (matched (store w)) (zip ts sums) ->
     Forall (fun src => src ∉ grads ts) (xs ++ ys ++ sums) ->
     presummed (store w) xs ys sums ->
     accumulate_grads ys (accumulate_grads xs w).1 = accumulate_grads sums w).
Proof.
  split; [|split].
  - intros w n ts srcs. apply accumulate_grads_pointwise.
  - intros w n ts xs ys. apply accumulate_grads_twice.
  - intros w n ts xs ys sums. apply accumulate_grads_presummed.
Qed.

(** C7, as the code has it. In the Ready state [weight_decay(decay)]
    returns and leaves in the gradient buffer of every triple its sum with
    [decay * parameter], element by element; the parameter buffers and
    everything else are unchanged. In exact arithmetic, decaying by [d1] and
    then by [d2] is decaying by [d1 + d2]; in binary64 each product and each
    sum rounds, so the two differ in general. *)
Theorem C7_weight_decay :
  (forall (w : world F St) n ts (decay : F),
     Ready w n ts ->
     exists w',
       weight_decay decay w = (w', Return tt) /\
       self w' = self w /\
       (forall p g s, (p, g, s) ∈ ts ->
          exists pa ga,
            store w !! p = Some pa /\ store w !! g = Some ga /\
            store w' !! g
            = Some (with_data (fun xs => zip_with add xs (scaled decay (data pa))) ga) /\
            store w' !! p = Some pa) /\
       (forall l, l ∉ grads ts -> store w' !! l = store w !! l)) /\
  (forall (w : world F St) n ts (d1 d2 : F),
     Ready w n ts ->
     exists w2,
       weight_decay d2 (weight_decay d1 w).1 = (w2, Return tt) /\
       forall p g s, (p, g, s) ∈ ts ->
         exists pa ga,
           store w !! p = Some pa /\ store w !! g = Some ga /\
           store w2 !! g
           = Some (with_data (fun xs => zip_with add
                                          (zip_with add xs (scaled d1 (data pa)))
                                          (scaled d2 (data pa))) ga)) /\
  (forall (w : world R St) n ts (d1 d2 : R),
     Ready w n ts ->
     weight_decay d2 (weight_decay d1 w).1 = weight_decay (d1 + d2)%R w).
Proof.
  split; [|split].
  - intros w n ts decay. apply weight_decay_pointwise.
  - intros w n ts d1 d2. apply weight_decay_twice.
  - intros w n ts d1 d2. apply weight_decay_linear.
Qed.

(** C8. In a configured optimizer [zero_grads] returns; afterwards every
    element of every gradient buffer is zero (the buffers keep their
    identity, backend and shape), every other object and the optimizer's
    attributes are as before, and [compute_grads_norm] returns zero: in
    binary64, [0.0] exactly. *)
Theorem C8_zero_grads w n ts :
  Configured w n ts ->
  exists w',
    zero_grads w = (w', Return tt) /\
    self w' = self w /\
    (forall l, l ∈ grads ts ->
       store w' !! l = with_data (map (fun _ => zero)) <$> store w !! l) /\
    (forall l, l ∉ grads ts -> store w' !! l = store w !! l) /\
    compute_grads_norm w' = (w', Return zero).
Proof.
  intros Hc. pose proof (Configured_live_grads _ _ _ Hc) as Hlive.
  pose proof Hc as (_ & Hts & _).
  exists (World (apply_all (zero_updates ts) (store w)) (self w)).
  assert (Hin : forall l, l ∈ grads ts ->
            apply_all (zero_updates ts) (store w) !! l
            = with_data (map (fun _ => zero)) <$> store w !! l).
  { intros l Hl. rewrite lookup_zero_updates, decide_True by exact Hl. reflexivity. }
  split; [apply zero_grads_run; assumption|]. split; [reflexivity|].
  split; [exact Hin|]. split.
  - intros l Hl. simpl. rewrite lookup_zero_updates, decide_False by exact Hl.
    reflexivity.
  - rewrite (compute_grads_norm_returns _ n ts (Configured_apply_all _ w n ts Hc)).
    simpl. rewrite (arrays_fmap (store w) _ _ _ Hin).
    rewrite sum_sqnorm_zeros, sqrt_zero. reflexivity.
Qed.

(** C9. On the base class, with at least one triple, [update] raises
    [NotImplementedError], which is not an arithmetic error. *)
Theorem C9_base_update_not_implemented w n x ts :
  Configured w n (x :: ts) ->
  exists w' e,
    update (base : hooks F St) w = (w', Raise e) /\
    e = NotImplementedError /\ is_arithmetic_error e = false.
Proof.
  intros Hc. eexists _, _. split; [apply (update_base_raises w n x ts Hc)|].
  split; reflexivity.
Qed.

(** C10. [update] advances [t] before the loop over the triples: every hook
    runs with the counter already at [n + 1]; whatever the hooks do, the
    counter is [n + 1] when [update] ends; and on the base class, whose hook
    raises at the first triple, the result is the initial store, the counter
    [n + 1] and the exception. *)
Theorem C10_update_not_atomic w n x ts :
  Configured w n (x :: ts) ->
  (forall cls,
     update cls w
     = for_each (x :: ts) (fun '(p, g, s) => update_one cls p g s)
         (World (store w) (Optimizer_ (Some (n + 1)%Z) (Some (x :: ts))))) /\
  (forall cls, t (self (update cls w).1) = Some (n + 1)%Z) /\
  update (base : hooks F St) w
  = (World (store w) (Optimizer_ (Some (n + 1)%Z) (Some (x :: ts))),
     Raise NotImplementedError).
Proof.
  intros Hc. split; [|split].
  - intros cls. destruct Hc as (Ht & Hts & _). apply update_run; assumption.
  - intros cls. destruct Hc as (Ht & Hts & _).
    rewrite (update_run cls w n (x :: ts) Ht Hts).
    rewrite keeps_self_for_each; [reflexivity|].
    intros [[p g] s]. apply keeps_self_update_one.
  - apply update_base_raises, Hc.
Qed.

End Claims.

(** * The claims at the concrete model *)

Lemma scenario_live (ls : list loc) :
  forallb (fun l => bool_decide (is_Some (Scenario.objects !! l))) ls = true ->
  Forall (fun l => is_Some (Scenario.objects !! l)) ls.
Proof.
  intros H. apply Forall_forall. intros l Hl.
  rewrite forallb_forall in H. apply list_elem_of_In in Hl.
  apply (bool_decide_eq_true_1 _ (H l Hl)).
Qed.

Lemma scenario_Configured : Configured Scenario.ready 0 [(0, 1, None)].
Proof.
  split; [reflexivity|]. split; [reflexivity|]. apply scenario_live. reflexivity.
Defined.

(** C3: [setup] with two parameters and one gradient returns, with one
    triple. *)
Lemma C3_setup_mismatch_returns :
  length [0; 2] <> length [1] /\
  setup base ([0; 2], [1]) Scenario.fresh
  = (World Scenario.objects (Optimizer_ (Some 0%Z) (Some [(0, 1, None)])), Return tt).
Proof. split; [discriminate|reflexivity]. Qed.

Lemma C3_preconditions_witness :
  (exists ts,
     setup base ([0; 2], [1]) Scenario.fresh
     = (World Scenario.objects (Optimizer_ (Some 0%Z) (Some ts)), Return tt) /\
     ts = [(0, 1, None)] /\ length ts = 1) /\
  zero_grads Scenario.fresh = (Scenario.fresh, Raise AttributeError).
Proof.
  pose proof (C3_preconditions [0; 2] [1] Scenario.fresh) as H.
  destruct H as (Hsetup & Hzero & _).
  - split; reflexivity.
  - apply scenario_live. reflexivity.
  - split; [exact Hsetup | exact Hzero].
Defined.

Lemma C4_step_counter_witness :
  t (self (update base Scenario.ready).1) = Some 1%Z /\
  t (self (zero_grads Scenario.ready).1) = Some 0%Z.
Proof.
  destruct (C4_step_counter base Scenario.ready 0 [(0, 1, None)] scenario_Configured)
    as (Hu & Hz & _).
  split; [exact Hu | exact Hz].
Defined.

Lemma C5_setup_triples_witness :
  exists h' ts,
    setup base ([0], [1]) Scenario.fresh
    = (World h' (Optimizer_ (Some 0%Z) (Some ts)), Return tt) /\
    length ts = 1 /\ params ts = [0] /\ grads ts = [1].
Proof.
  apply (C5_setup_triples base [0] [1] Scenario.fresh).
  - reflexivity.
  - apply base_init_total.
  - apply scenario_live. reflexivity.
Defined.

Lemma C9_base_update_not_implemented_witness :
  exists w' e,
    update base Scenario.ready = (w', Raise e) /\
    e = NotImplementedError /\ is_arithmetic_error e = false.
Proof.
  apply (C9_base_update_not_implemented Scenario.ready 0 (0, 1, None) []).
  apply scenario_Configured.
Defined.

Lemma C10_update_not_atomic_witness :
  update base Scenario.ready
  = (World Scenario.objects (Optimizer_ (Some 1%Z) (Some [(0, 1, None)])),
     Raise NotImplementedError).
Proof.
  apply (C10_update_not_atomic Scenario.ready 0 (0, 1, None) []).
  apply scenario_Configured.
Defined.

Lemma C8_zero_grads_witness :
  exists w',
    zero_grads Scenario.ready = (w', Return tt) /\
    store w' !! 1 = Some (NdArray Host [0; 0]%float) /\
    store w' !! 0 = Some (NdArray Host [1; 2]%float) /\
    compute_grads_norm w' = (w', Return 0%float).
Proof.
  destruct (C8_zero_grads Scenario.ready 0 [(0, 1, None)] scenario_Configured)
    as (w' & Hrun & _ & Hin & Hout & Hnorm).
  exists w'. split; [exact Hrun|]. split; [|split; [|exact Hnorm]].
  - exact (Hin 1 (list_elem_of_here _ _)).
  - apply (Hout 0). apply not_elem_of_cons. split; [discriminate|].
    apply not_elem_of_nil.
Defined.

Lemma order_live (ls : list loc) :
  forallb (fun l => bool_decide (is_Some (Order.objects !! l))) ls = true ->
  Forall (fun l => is_Some (Order.objects !! l)) ls.
Proof.
  intros H. apply Forall_forall. intros l Hl.
  rewrite forallb_forall in H. apply list_elem_of_In in Hl.
  apply (bool_decide_eq_true_1 _ (H l Hl)).
Qed.

(** In binary64 the norm of the same three gradients is [1e8] in one order
    of the triples and the next float above [1e8] in the other. *)
Lemma order_changes_last_bit :
  tuples (self Order.backward) = reverse <$> tuples (self Order.forward) /\
  compute_grads_norm Order.forward = (Order.forward, Return 100000000%float) /\
  compute_grads_norm Order.backward
  = (Order.backward, Return 0x1.7d78400000001p+26%float) /\
  (compute_grads_norm Order.backward).2 <> (compute_grads_norm Order.forward).2.
Proof.
  split; [reflexivity|]. split; [reflexivity|]. split; [reflexivity|].
  intros H.
  apply (f_equal (fun o => match o with
                           | Return v => PrimFloat.ltb 100000000%float v
                           | Raise _ => false
                           end)) in H.
  vm_compute in H. discriminate.
Qed.

Lemma brink_Ready (ts : list (loc * loc * option unit)) (w : world float unit) :
  store w = Brink.objects -> self w = Optimizer_ (Some 0%Z) (Some ts) ->
  ts ≡ₚ Brink.tuples_forward -> Ready w 0 ts.
Proof.
  intros Hstore Hself Hperm. destruct w as [h o]. simpl in Hstore, Hself. subst h o.
  split; [reflexivity|]. split; [reflexivity|]. split; [done|]. split.
  - cbn [store]. rewrite Hperm. repeat constructor;
      eexists _, _; (split; [reflexivity|]); split; reflexivity.
  - unfold params, grads. rewrite Hperm.
    apply (bool_decide_eq_true_1 (NoDup [0; 2; 4; 6; 1; 3; 5; 7])). reflexivity.
Qed.

(** C2: in binary64, with the same four gradients in the Ready state, the
    norm is finite ([1.3407807929942596e154]) in one order of the triples
    and infinite in the reverse order: the three small squares are each
    rounded away when added to the large one, and added first they carry
    the sum over the largest float. No tolerance covers the difference. *)
Lemma C2_order_decides_overflow :
  Ready Brink.forward 0 Brink.tuples_forward /\
  Ready Brink.backward 0 (reverse Brink.tuples_forward) /\
  store Brink.backward = store Brink.forward /\
  compute_grads_norm Brink.forward
  = (Brink.forward, Return 0x1.fffffffffffffp+511%float) /\
  compute_grads_norm Brink.backward = (Brink.backward, Return infinity).
Proof.
  split; [apply brink_Ready; reflexivity|].
  split; [apply brink_Ready; try reflexivity; apply reverse_Permutation|].
  repeat split; reflexivity.
Qed.

(** The same norms with any dot product that returns, for a one-element
    array with itself, the rounded square of the element. *)
Lemma brink_norms_any_dot (d : list float -> list float -> float) :
  (forall x, d [x] [x] = (x * x)%float) ->
  @compute_grads_norm float (binary64_with d) unit Brink.forward
  = (Brink.forward, Return 0x1.fffffffffffffp+511%float) /\
  @compute_grads_norm float (binary64_with d) unit Brink.backward
  = (Brink.backward, Return infinity).
Proof.
  intros Hd. split; vm_compute; rewrite !Hd; reflexivity.
Qed.

Lemma C2_compute_grads_norm_witness :
  compute_grads_norm Scenario.ready = (Scenario.ready, Return 5%float) /\
  compute_grads_norm Order.forward = (Order.forward, Return 100000000%float).
Proof.
  destruct (@C2_compute_grads_norm float float_arith float_laws unit)
    as (_ & Hfloat & _).
  split.
  - apply (Hfloat Scenario.ready 0%Z [(0, 1, None)]).
    apply scenario_Configured.
  - apply (Hfloat Order.forward 0%Z [(0, 1, None); (2, 3, None); (4, 5, None)]).
    split; [reflexivity|]. split; [reflexivity|]. apply order_live. reflexivity.
Defined.

Lemma scenario_Ready : Ready Scenario.ready 0 [(0, 1, None)].
Proof.
  split; [reflexivity|]. split; [reflexivity|]. split; [done|]. split.
  - constructor; [|constructor].
    exists (NdArray Host [1; 2]%float), (NdArray Host [3; 4]%float).
    split; [reflexivity|]. split; reflexivity.
  - apply (bool_decide_eq_true_1 (NoDup [0; 1])). reflexivity.
Defined.

Lemma C1_clip_grads_witness :
  (clip_grads 5%float Scenario.ready = (Scenario.ready, Return tt)) /\
  (exists w',
     clip_grads 2.5%float Scenario.ready = (w', Return tt) /\
     store w' !! 1 = Some (NdArray Host [1.5; 2]%float) /\
     store w' !! 0 = Some (NdArray Host [1; 2]%float)).
Proof.
  destruct (@C1_clip_grads float float_arith float_laws unit)
    as (_ & Hgen & _ & (Hnorm & _)).
  split.
  - destruct (Hgen Scenario.ready 0%Z [(0, 1, None)]
                5%float 5%float scenario_Ready eq_refl Hnorm) as [Hle _].
    apply Hle. reflexivity.
  - destruct (Hgen Scenario.ready 0%Z [(0, 1, None)]
                2.5%float 5%float scenario_Ready eq_refl Hnorm) as [_ Hgt].
    destruct (Hgt eq_refl) as (w' & Hrun & _ & Hin & Hout).
    exists w'. split; [exact Hrun|]. split.
    + exact (Hin 1 (list_elem_of_here _ _)).
    + apply (Hout 0). apply not_elem_of_cons. split; [discriminate|].
      apply not_elem_of_nil.
Defined.

(** Why the Ready state asks for distinct buffers: a gradient array that
    two triples share is counted twice in the norm and scaled once per
    triple. Here the norm is [2.0], [clip_grads(1.0)] multiplies the array by
    [0.5] twice, and the norm afterwards is [0.5]. *)
Lemma one_triple_Ready (h : gmap loc (ndarray float)) (x y : float) :
  h !! 0 = Some (NdArray Host [x]) -> h !! 1 = Some (NdArray Host [y]) ->
  Ready (World h (Optimizer_ (Some 0%Z) (Some [(0, 1, None)]) : optimizer unit))
    0 [(0, 1, None)].
Proof.
  intros H0 H1. split; [reflexivity|]. split; [reflexivity|]. split; [done|]. split.
  - constructor; [|constructor]. eexists _, _. split; [exact H0|]. split; [exact H1|].
    reflexivity.
  - apply (bool_decide_eq_true_1 (NoDup [0; 1])). reflexivity.
Qed.

(** C1: in binary64 the norm after clipping need not be near [maxnorm].
    With the gradient [[2^600]] in the Ready state and [maxnorm = 1.0], the
    square overflows: the norm is infinite, the ratio [1.0 / inf] is [0.0],
    and [clip_grads] leaves the gradient [[0.0]], of norm [0.0]. With the
    gradient [[1.5 * 2^-537]] and [maxnorm = 2^-538] all values are finite:
    the norm is [3.1434555694052576e-162], the clipped gradient is
    [[1.1787958385269714e-162]], and its square underflows: the norm after
    clipping is [0.0]. *)
Lemma C1_clipped_norm_is_zero :
  (Ready Huge.ready 0 [(0, 1, None)] /\
   (0 <? 1)%float = true /\
   compute_grads_norm Huge.ready = (Huge.ready, Return infinity) /\
   clip_grads 1%float Huge.ready
   = (World (<[1 := NdArray Host [0]%float]> Huge.objects) (self Huge.ready),
      Return tt) /\
   compute_grads_norm (clip_grads 1%float Huge.ready).1
   = ((clip_grads 1%float Huge.ready).1, Return 0%float)) /\
  (Ready Tiny.ready 0 [(0, 1, None)] /\
   (0 <? 0x1p-538)%float = true /\
   compute_grads_norm Tiny.ready
   = (Tiny.ready, Return 0x1.6a09e667f3bcdp-537%float) /\
   clip_grads 0x1p-538%float Tiny.ready
   = (World (<[1 := NdArray Host [0x1.0f876ccdf6cd9p-538]%float]> Tiny.objects)
        (self Tiny.ready), Return tt) /\
   compute_grads_norm (clip_grads 0x1p-538%float Tiny.ready).1
   = ((clip_grads 0x1p-538%float Tiny.ready).1, Return 0%float)).
Proof.
  split.
  - split; [eapply one_triple_Ready; reflexivity|]. repeat split; reflexivity.
  - split; [eapply one_triple_Ready; reflexivity|]. repeat split; reflexivity.
Qed.

(** The same outcomes with any dot product that returns, for a one-element
    array with itself, the rounded square of the element. *)
Lemma clipped_norm_is_zero_any_dot (d : list float -> list float -> float) :
  (forall x, d [x] [x] = (x * x)%float) ->
  (@compute_grads_norm float (binary64_with d) unit
     (@clip_grads float (binary64_with d) unit 1%float Huge.ready).1).2
  = Return 0%float /\
  (@compute_grads_norm float (binary64_with d) unit
     (@clip_grads float (binary64_with d) unit 0x1p-538%float Tiny.ready).1).2
  = Return 0%float.
Proof.
  intros Hd. split; vm_compute; rewrite !Hd; vm_compute; rewrite ?Hd; reflexivity.
Qed.

Lemma shared_gradient_scaled_twice :
  compute_grads_norm Shared.configured = (Shared.configured, Return 2%float) /\
  store (clip_grads 1%float Shared.configured).1 !! 1
  = Some (NdArray Host [0.25; 0.25]%float) /\
  (compute_grads_norm (clip_grads 1%float Shared.configured).1).2
  = Return 0.5%float.
Proof. repeat split; reflexivity. Qed.

Lemma rounding_Ready : Ready Rounding.ready 0 [(0, 1, None)].
Proof.
  split; [reflexivity|]. split; [reflexivity|]. split; [done|]. split.
  - constructor; [|constructor].
    exists (NdArray Host [1]%float), (NdArray Host [10000000000000000]%float).
    split; [reflexivity|]. split; reflexivity.
  - apply (bool_decide_eq_true_1 (NoDup [0; 1])). reflexivity.
Qed.

(** C6: in binary64, adding [[1.0]] twice to the gradient [[1e16]] leaves
    [[1e16]]; adding their sum [[2.0]] once leaves [[1e16 + 2]]. *)
Lemma C6_two_calls_differ :
  Ready Rounding.ready 0 [(0, 1, None)] /\
  presummed Rounding.objects [2] [3] [4] /\
  store (accumulate_grads [3] (accumulate_grads [2] Rounding.ready).1).1 !! 1
  = Some (NdArray Host [10000000000000000]%float) /\
  store (accumulate_grads [4] Rounding.ready).1 !! 1
  = Some (NdArray Host [10000000000000002]%float) /\
  accumulate_grads [3] (accumulate_grads [2] Rounding.ready).1
  <> accumulate_grads [4] Rounding.ready.
Proof.
  split; [exact rounding_Ready|]. split.
  { intros [|i] x y s Hx Hy Hs; [|discriminate].
    injection Hx as <-. injection Hy as <-. injection Hs as <-. reflexivity. }
  split; [reflexivity|]. split; [reflexivity|].
  intros H.
  apply (f_equal (fun r : world float unit * outcome unit =>
                    match elems (store r.1) 1 with
                    | [v] => PrimFloat.ltb 10000000000000000%float v
                    | _ => false
                    end)) in H.
  vm_compute in H. discriminate.
Qed.

(** C7: in binary64, with parameter [[1.0]] and gradient [[1e16]], decaying
    by [1.0] twice leaves [[1e16]]; decaying by [1.0 + 1.0] once leaves
    [[1e16 + 2]]. *)
Lemma C7_two_decays_differ :
  Ready Rounding.ready 0 [(0, 1, None)] /\
  store (weight_decay 1%float (weight_decay 1%float Rounding.ready).1).1 !! 1
  = Some (NdArray Host [10000000000000000]%float) /\
  store (weight_decay (1 + 1)%float Rounding.ready).1 !! 1
  = Some (NdArray Host [10000000000000002]%float) /\
  weight_decay 1%float (weight_decay 1%float Rounding.ready).1
  <> weight_decay (1 + 1)%float Rounding.ready.
Proof.
  split; [exact rounding_Ready|].
  split; [reflexivity|]. split; [reflexivity|].
  intros H.
  apply (f_equal (fun r : world float unit * outcome unit =>
                    match elems (store r.1) 1 with
                    | [v] => PrimFloat.ltb 10000000000000000%float v
                    | _ => false
                    end)) in H.
  vm_compute in H. discriminate.
Qed.

Lemma exact_Ready : Ready Exact.ready 0 [(0, 1, None)].
Proof.
  split; [reflexivity|]. split; [reflexivity|]. split; [done|]. split.
  - constructor; [|constructor].
    exists (NdArray Host [1; 2]%R), (NdArray Host [3; 4]%R).
    split; [reflexivity|]. split; reflexivity.
  - apply (bool_decide_eq_true_1 (NoDup [0; 1])). reflexivity.
Defined.

Lemma exact_matched (src : loc) (a : ndarray R) :
  Exact.objects !! src = Some a -> length (data a) = 2 ->
  Forall (matched Exact.objects) (zip [(0, 1, @None unit)] [src]).
Proof.
  intros Ha Hlen. constructor; [|constructor].
  exists a, (NdArray Host [3; 4]%R). split; [exact Ha|]. split; [reflexivity|exact Hlen].
Defined.

Lemma not_grad (l : loc) : l <> 1 -> l ∉ grads [(0, 1, @None unit)].
Proof.
  intros Hne. apply not_elem_of_cons. split; [exact Hne|apply not_elem_of_nil].
Defined.

Lemma C6_accumulate_grads_witness :
  accumulate_grads [3] (accumulate_grads [2] Exact.ready).1
  = accumulate_grads [4] Exact.ready.
Proof.
  destruct (@C6_accumulate_grads R real_arith unit) as (_ & _ & Hreal).
  apply (Hreal Exact.ready 0%Z [(0, 1, None)] [2] [3] [4] exact_Ready);
    try reflexivity.
  - apply (exact_matched 2 (NdArray Host [10; 20]%R)); reflexivity.
  - apply (exact_matched 3 (NdArray Host [100; 200]%R)); reflexivity.
  - apply (exact_matched 4 (NdArray Host [10 + 100; 20 + 200]%R)); reflexivity.
  - repeat constructor; apply not_grad; discriminate.
  - intros [|i] x y s Hx Hy Hs; [|discriminate].
    injection Hx as <-. injection Hy as <-. injection Hs as <-. reflexivity.
Defined.

Lemma C7_weight_decay_witness :
  weight_decay 3%R (weight_decay 2%R Exact.ready).1
  = weight_decay (2 + 3)%R Exact.ready.
Proof.
  destruct (@C7_weight_decay R real_arith unit) as (_ & _ & Hreal).
  apply (Hreal Exact.ready 0%Z [(0, 1, None)] 2%R 3%R exact_Ready).
Defined.

(** * Further properties of the methods *)

Section Footprints.

Context {F : Type} {AF : Arith F} {St : Type}.

Implicit Types (w : world F St) (L : list loc).
Implicit Types (ts : list (loc * loc * option St)).

Lemma writes_within_ret {A} L (a : A) : writes_within L (mret a : M F St A).
Proof. intros w l _. reflexivity. Qed.

Lemma writes_within_raise {A} L e : writes_within L (raise e : M F St A).
Proof. intros w l _. reflexivity. Qed.

Lemma writes_within_bind {A B} L (m : M F St A) (k : A -> M F St B) :
  writes_within L m -> (forall a, writes_within L (k a)) -> writes_within L (m ≫= k).
Proof.
  intros Hm Hk w l Hl. rewrite run_bind. specialize (Hm w l Hl).
  destruct (m w) as [w' [a|e]]; simpl in *.
  - rewrite (Hk a w' l Hl). exact Hm.
  - exact Hm.
Qed.

Lemma writes_within_for_each {X} L (xs : list X) (body : X -> M F St unit) :
  (forall x, x ∈ xs -> writes_within L (body x)) -> writes_within L (for_each xs body).
Proof.
  induction xs as [|x xs IH]; intros Hb w l Hl; [reflexivity|].
  rewrite for_each_cons.
  apply (writes_within_bind L (body x) (fun _ => for_each xs body)); [| |exact Hl].
  - apply Hb, list_elem_of_here.
  - intros _. apply IH. intros y Hy. apply Hb, list_elem_of_further, Hy.
Qed.

Lemma writes_within_read_only {A} L (m : M F St A) : read_only m -> writes_within L m.
Proof. intros H w l _. rewrite H. reflexivity. Qed.

Lemma writes_within_assign L g xs : g ∈ L -> writes_within L (assign g xs : M F St _).
Proof.
  intros Hg w l Hl. unfold assign. destruct (store w !! g); [|reflexivity].
  simpl. apply lookup_insert_ne. intros ->. contradiction.
Qed.

Lemma writes_within_fill L g v : g ∈ L -> writes_within L (fill g v : M F St _).
Proof.
  intros Hg. apply writes_within_bind.
  - apply writes_within_read_only, read_only_deref.
  - intros a. apply writes_within_assign, Hg.
Qed.

Lemma writes_within_imul L g r : g ∈ L -> writes_within L (imul g r : M F St _).
Proof.
  intros Hg. apply writes_within_bind.
  - apply writes_within_read_only, read_only_deref.
  - intros a. apply writes_within_assign, Hg.
Qed.

Lemma writes_within_iadd L g xs : g ∈ L -> writes_within L (iadd g xs : M F St _).
Proof.
  intros Hg. apply writes_within_bind.
  - apply writes_within_read_only, read_only_deref.
  - intros a. destruct (added (data a) xs).
    + apply writes_within_assign, Hg.
    + apply writes_within_raise.
Qed.

Lemma read_only_getattr_t : read_only (getattr_t : M F St _).
Proof. intros w. unfold getattr_t. destruct (t (self w)); reflexivity. Qed.

Lemma read_only_truediv x y : read_only (truediv x y : M F St _).
Proof. unfold truediv. destruct (eqb y zero); [apply read_only_raise | apply read_only_ret]. Qed.

Lemma grad_of_elem (x : loc * loc * option St) ts : x ∈ ts -> x.1.2 ∈ grads ts.
Proof. intros Hx. unfold grads. apply list_elem_of_fmap. exists x. auto. Qed.

Lemma writes_within_zero_loop ts :
  writes_within (grads ts)
    (for_each ts (fun '(_, g, _) =>
       a ← deref g;
       if is_gpu (dev a) then fill g zero else fill g zero) : M F St _).
Proof.
  apply writes_within_for_each. intros [[p g] s] Hx.
  apply writes_within_bind; [apply writes_within_read_only, read_only_deref|].
  intros a. destruct (is_gpu (dev a));
    apply writes_within_fill, (grad_of_elem _ _ Hx).
Qed.

Lemma writes_within_scale_loop ratio ts :
  writes_within (grads ts)
    (for_each ts (fun '(_, g, _) => imul g ratio) : M F St _).
Proof.
  apply writes_within_for_each. intros [[p g] s] Hx.
  apply writes_within_imul, (grad_of_elem _ _ Hx).
Qed.

Lemma writes_within_decay_loop decay ts :
  writes_within (grads ts)
    (for_each ts (fun '(p, g, _) =>
       pa ← deref p;
       if is_gpu (dev pa) then iadd g (scaled decay (data pa))
       else iadd g (scaled decay (data pa))) : M F St _).
Proof.
  apply writes_within_for_each. intros [[p g] s] Hx.
  apply writes_within_bind; [apply writes_within_read_only, read_only_deref|].
  intros a. destruct (is_gpu (dev a));
    apply writes_within_iadd, (grad_of_elem _ _ Hx).
Qed.

End Footprints.

Section Invariants.

Context {F : Type} {AF : Arith F} {St : Type}.

Implicit Types (w : world F St) (L : list loc).
Implicit Types (ts : list (loc * loc * option St)).

Lemma zip_elem_take ts (srcs : list loc) (x : loc * loc * option St * loc) :
  x ∈ zip ts srcs -> x.1 ∈ take (length srcs) ts.
Proof.
  intros Hx. apply list_elem_of_lookup in Hx as [i Hi]. unfold zip in Hi.
  apply lookup_zip_with_Some in Hi as (t0 & src & -> & Ht0 & Hsrc).
  apply list_elem_of_lookup. exists i. simpl.
  rewrite lookup_take_lt; [exact Ht0|]. apply (lookup_lt_Some _ _ _ Hsrc).
Qed.

Lemma writes_within_accum_loop ts (srcs : list loc) :
  writes_within (grads (take (length srcs) ts))
    (for_each (zip ts srcs) (fun '((_, g_dst, _), g_src) =>
       dst ← deref g_dst;
       src ← deref g_src;
       match dev dst with
       | Host => iadd g_dst (data (to_cpu src))
       | Gpu d_dst =>
           match dev src with
           | Gpu d_src =>
               if negb (Nat.eqb d_dst d_src)
               then iadd g_dst (data (copy src d_src))
               else iadd g_dst (data (to_gpu src d_dst))
           | Host => iadd g_dst (data (to_gpu src d_dst))
           end
       end) : M F St _).
Proof.
  apply writes_within_for_each. intros [[[p g] s] g_src] Hx.
  pose proof (grad_of_elem _ _ (zip_elem_take _ _ _ Hx)) as Hg. simpl in Hg.
  apply writes_within_bind; [apply writes_within_read_only, read_only_deref|].
  intros dst.
  apply writes_within_bind; [apply writes_within_read_only, read_only_deref|].
  intros src.
  destruct (dev dst); [|destruct (dev src); [|destruct (negb _)]];
    apply writes_within_iadd, Hg.
Qed.

(** The five methods write gradient buffers only. *)
Lemma frame_outside_grads w ts (l : loc) :
  tuples (self w) = Some ts ->
  l ∉ grads ts ->
  store (zero_grads w).1 !! l = store w !! l /\
  store (compute_grads_norm w).1 !! l = store w !! l /\
  (forall maxnorm, store (clip_grads maxnorm w).1 !! l = store w !! l) /\
  (forall decay, store (weight_decay decay w).1 !! l = store w !! l) /\
  (forall srcs, store (accumulate_grads srcs w).1 !! l = store w !! l).
Proof.
  intros Hts Hl.
  pose proof (run_getattr_tuples w ts Hts) as Hget.
  split; [|split; [|split; [|split]]].
  - unfold zero_grads. rewrite (run_bind_return _ _ _ _ _ Hget).
    apply writes_within_zero_loop, Hl.
  - rewrite read_only_compute_grads_norm. reflexivity.
  - intros maxnorm. unfold clip_grads. rewrite run_bind.
    pose proof (read_only_compute_grads_norm w) as Hro.
    destruct (compute_grads_norm w) as [w' [norm|e]]; simpl in Hro; subst w';
      [|reflexivity].
    destruct (ltb maxnorm norm); [|reflexivity].
    rewrite run_bind. pose proof (read_only_truediv maxnorm norm w) as Hro.
    destruct (truediv maxnorm norm w) as [w' [ratio|e]]; simpl in Hro; subst w';
      [|reflexivity].
    rewrite (run_bind_return _ _ _ _ _ Hget).
    apply writes_within_scale_loop, Hl.
  - intros decay. unfold weight_decay. rewrite (run_bind_return _ _ _ _ _ Hget).
    apply writes_within_decay_loop, Hl.
  - intros srcs. unfold accumulate_grads. rewrite (run_bind_return _ _ _ _ _ Hget).
    apply writes_within_accum_loop. intros Hin. apply Hl.
    unfold grads in *. apply list_elem_of_fmap in Hin as (x & -> & Hx).
    apply list_elem_of_fmap. exists x. split; [reflexivity|].
    apply (subseteq_take (length srcs) ts), Hx.
Qed.

(** X1. Whatever the state of the store (shapes that do not match, buffers
    shared between triples) and whether the method returns or raises,
    [zero_grads], [compute_grads_norm], [clip_grads], [weight_decay] and
    [accumulate_grads] write to no object other than the gradient buffers
    of the optimizer's triples: parameters, sources and every other array
    keep their contents. *)
Theorem X1_only_gradients_written w ts (l : loc) :
  tuples (self w) = Some ts ->
  l ∉ grads ts ->
  store (zero_grads w).1 !! l = store w !! l /\
  store (compute_grads_norm w).1 !! l = store w !! l /\
  (forall maxnorm, store (clip_grads maxnorm w).1 !! l = store w !! l) /\
  (forall decay, store (weight_decay decay w).1 !! l = store w !! l) /\
  (forall srcs, store (accumulate_grads srcs w).1 !! l = store w !! l).
Proof. intros Hts Hl. exact (frame_outside_grads w ts l Hts Hl). Qed.

Lemma keeps_shapes_ret {A} (a : A) : keeps_shapes (mret a : M F St A).
Proof. intros w l. reflexivity. Qed.

Lemma keeps_shapes_raise {A} e : keeps_shapes (raise e : M F St A).
Proof. intros w l. reflexivity. Qed.

Lemma keeps_shapes_read_only {A} (m : M F St A) : read_only m -> keeps_shapes m.
Proof. intros H w l. rewrite H. reflexivity. Qed.

Lemma keeps_shapes_bind {A B} (m : M F St A) (k : A -> M F St B) :
  keeps_shapes m -> (forall a, keeps_shapes (k a)) -> keeps_shapes (m ≫= k).
Proof.
  intros Hm Hk w l. rewrite run_bind. specialize (Hm w l).
  destruct (m w) as [w' [a|e]]; simpl in *.
  - rewrite (Hk a w' l). exact Hm.
  - exact Hm.
Qed.

Lemma keeps_shapes_for_each {X} (xs : list X) (body : X -> M F St unit) :
  (forall x, keeps_shapes (body x)) -> keeps_shapes (for_each xs body).
Proof.
  intros Hb. induction xs as [|x xs IH]; intros w l; [reflexivity|].
  rewrite for_each_cons.
  apply (keeps_shapes_bind (body x) (fun _ => for_each xs body)); auto.
Qed.

(** Overwriting the elements of an object by as many elements. *)
Lemma keeps_shapes_overwrite g (k : list F -> list F) :
  (forall xs, length (k xs) = length xs) ->
  keeps_shapes (a ← deref g; assign g (k (data a)) : M F St _).
Proof.
  intros Hk w l. rewrite run_bind. unfold deref, assign.
  destruct (store w !! g) as [a|] eqn:E; [|reflexivity].
  simpl. rewrite E. simpl. unfold shape_at.
  destruct (decide (g = l)) as [->|Hne].
  - rewrite lookup_insert_eq, E. simpl. rewrite Hk. reflexivity.
  - rewrite lookup_insert_ne by exact Hne. reflexivity.
Qed.

Lemma keeps_shapes_fill g v : keeps_shapes (fill g v : M F St _).
Proof. apply (keeps_shapes_overwrite g (map (fun _ => v))). intros xs. apply length_map. Qed.

Lemma keeps_shapes_imul g r : keeps_shapes (imul g r : M F St _).
Proof.
  apply (keeps_shapes_overwrite g (map (fun x => mul x r))). intros xs. apply length_map.
Qed.

Lemma keeps_shapes_iadd g xs : keeps_shapes (iadd g xs : M F St _).
Proof.
  intros w l. unfold iadd. rewrite run_bind. unfold deref.
  destruct (store w !! g) as [a|] eqn:E; [|reflexivity].
  destruct (added (data a) xs) as [zs|] eqn:Ez; [|reflexivity].
  unfold assign. rewrite E. simpl. unfold shape_at.
  destruct (decide (g = l)) as [->|Hne].
  - rewrite lookup_insert_eq, E. simpl. rewrite (added_length _ _ _ Ez). reflexivity.
  - rewrite lookup_insert_ne by exact Hne. reflexivity.
Qed.

Lemma keeps_shapes_zero_grads : keeps_shapes (zero_grads : M F St _).
Proof.
  apply keeps_shapes_bind; [apply keeps_shapes_read_only, read_only_getattr_tuples|].
  intros ts. apply keeps_shapes_for_each. intros [[p g] s].
  apply keeps_shapes_bind; [apply keeps_shapes_read_only, read_only_deref|].
  intros a. destruct (is_gpu (dev a)); apply keeps_shapes_fill.
Qed.

Lemma keeps_shapes_clip_grads maxnorm : keeps_shapes (clip_grads maxnorm : M F St _).
Proof.
  apply keeps_shapes_bind;
    [apply keeps_shapes_read_only, read_only_compute_grads_norm|].
  intros norm. destruct (ltb maxnorm norm); [|apply keeps_shapes_ret].
  apply keeps_shapes_bind; [apply keeps_shapes_read_only, read_only_truediv|].
  intros ratio.
  apply keeps_shapes_bind; [apply keeps_shapes_read_only, read_only_getattr_tuples|].
  intros ts. apply keeps_shapes_for_each. intros [[p g] s]. apply keeps_shapes_imul.
Qed.

Lemma keeps_shapes_weight_decay decay : keeps_shapes (weight_decay decay : M F St _).
Proof.
  apply keeps_shapes_bind; [apply keeps_shapes_read_only, read_only_getattr_tuples|].
  intros ts. apply keeps_shapes_for_each. intros [[p g] s].
  apply keeps_shapes_bind; [apply keeps_shapes_read_only, read_only_deref|].
  intros a. destruct (is_gpu (dev a)); apply keeps_shapes_iadd.
Qed.

Lemma keeps_shapes_accumulate_grads srcs :
  keeps_shapes (accumulate_grads srcs : M F St _).
Proof.
  apply keeps_shapes_bind; [apply keeps_shapes_read_only, read_only_getattr_tuples|].
  intros ts. apply keeps_shapes_for_each. intros [[[p g] s] g_src].
  apply keeps_shapes_bind; [apply keeps_shapes_read_only, read_only_deref|].
  intros dst.
  apply keeps_shapes_bind; [apply keeps_shapes_read_only, read_only_deref|].
  intros src.
  destruct (dev dst); [|destruct (dev src); [|destruct (negb _)]];
    apply keeps_shapes_iadd.
Qed.

(** X2. In every state and whatever the outcome, [zero_grads],
    [clip_grads], [weight_decay] and [accumulate_grads] create no array,
    drop none, and leave every array on its backend with its number of
    elements: they only overwrite elements. *)
Theorem X2_shapes_and_backends_kept w (l : loc) :
  shape_at (store (zero_grads w).1) l = shape_at (store w) l /\
  (forall maxnorm, shape_at (store (clip_grads maxnorm w).1) l = shape_at (store w) l) /\
  (forall decay, shape_at (store (weight_decay decay w).1) l = shape_at (store w) l) /\
  (forall srcs, shape_at (store (accumulate_grads srcs w).1) l = shape_at (store w) l).
Proof.
  split; [apply keeps_shapes_zero_grads|].
  split; [intros maxnorm; apply keeps_shapes_clip_grads|].
  split; [intros decay; apply keeps_shapes_weight_decay|].
  intros srcs. apply keeps_shapes_accumulate_grads.
Qed.

End Invariants.

Section Lifecycle.

Context {F : Type} {AF : Arith F} {St : Type}.

Implicit Types (w : world F St) (cls : hooks F St).
Implicit Types (ts : list (loc * loc * option St)).

Lemma same_len_shapes (h h' : gmap loc (ndarray F)) l1 l2 :
  (forall l, shape_at h' l = shape_at h l) ->
  same_len h l1 l2 -> same_len h' l1 l2.
Proof.
  intros Hs (a1 & a2 & H1 & H2 & Hlen).
  pose proof (Hs l1) as S1. pose proof (Hs l2) as S2. unfold shape_at in S1, S2.
  rewrite H1 in S1. rewrite H2 in S2.
  destruct (h' !! l1) as [b1|] eqn:E1; [|discriminate].
  destruct (h' !! l2) as [b2|] eqn:E2; [|discriminate].
  cbn in S1, S2. injection S1 as _ S1. injection S2 as _ S2.
  exists b1, b2. split; [exact E1|]. split; [exact E2|]. congruence.
Qed.

Lemma Ready_kept w w' n ts :
  self w' = self w ->
  (forall l, shape_at (store w') l = shape_at (store w) l) ->
  Ready w n ts -> Ready w' n ts.
Proof.
  intros Hself Hs (Ht & Hts & Hn & Hshape & Hnd).
  rewrite <- Hself in Ht, Hts.
  split; [exact Ht|]. split; [exact Hts|]. split; [exact Hn|]. split; [|exact Hnd].
  eapply Forall_impl; [exact Hshape|]. intros x. apply same_len_shapes, Hs.
Qed.

(** X3. The Ready state is an invariant: [zero_grads],
    [compute_grads_norm], [clip_grads], [weight_decay] and
    [accumulate_grads] leave a Ready optimizer Ready, with the same counter
    and triples, for every argument and whether they return or raise (a
    source of the wrong shape included); so does the base class's [update],
    with the counter advanced. *)
Theorem X3_ready_is_kept w n ts :
  Ready w n ts ->
  Ready (zero_grads w).1 n ts /\
  Ready (compute_grads_norm w).1 n ts /\
  (forall maxnorm, Ready (clip_grads maxnorm w).1 n ts) /\
  (forall decay, Ready (weight_decay decay w).1 n ts) /\
  (forall srcs, Ready (accumulate_grads srcs w).1 n ts) /\
  Ready (update (base : hooks F St) w).1 (n + 1) ts.
Proof.
  intros Hr. split; [|split; [|split; [|split; [|split]]]].
  - apply (Ready_kept w); [apply keeps_self_zero_grads| |exact Hr].
    intros l. apply keeps_shapes_zero_grads.
  - rewrite read_only_compute_grads_norm. exact Hr.
  - intros maxnorm. apply (Ready_kept w); [apply keeps_self_clip_grads| |exact Hr].
    intros l. apply keeps_shapes_clip_grads.
  - intros decay. apply (Ready_kept w); [apply keeps_self_weight_decay| |exact Hr].
    intros l. apply keeps_shapes_weight_decay.
  - intros srcs. apply (Ready_kept w); [apply keeps_self_accumulate_grads| |exact Hr].
    intros l. apply keeps_shapes_accumulate_grads.
  - pose proof (Ready_Configured _ _ _ Hr) as Hc.
    destruct Hr as (Ht & Hts & Hn & Hshape & Hnd).
    destruct ts as [|x ts].
    + rewrite (update_run base w n [] Ht Hts). simpl.
      split; [reflexivity|]. split; [reflexivity|]. split; [lia|]. split; assumption.
    + rewrite (update_base_raises w n x ts Hc). simpl.
      split; [reflexivity|]. split; [reflexivity|]. split; [lia|]. split; assumption.
Qed.

(** *** [setup] *)

Lemma keeps_self_init_state cls p g : keeps_self (init_state cls p g).
Proof.
  apply keeps_self_bind; [apply keeps_self_deref|]. intros a.
  destruct (is_gpu (dev a)); apply keeps_self_call_hook.
Qed.

Lemma setup_loop_self cls (pgs : list (loc * loc)) h n acc :
  exists new,
    self (for_each pgs (fun pg => state ← init_state cls pg.1 pg.2;
                                  tuples_append (pg.1, pg.2, state))
            (World h (Optimizer_ n (Some acc)))).1
    = Optimizer_ n (Some (acc ++ new)) /\
    new.*1 `prefix_of` pgs /\
    ((for_each pgs (fun pg => state ← init_state cls pg.1 pg.2;
                              tuples_append (pg.1, pg.2, state))
        (World h (Optimizer_ n (Some acc)))).2 = Return tt -> new.*1 = pgs).
Proof.
  revert h acc. induction pgs as [|[p g] pgs IH]; intros h acc.
  - exists []. rewrite app_nil_r. split; [reflexivity|]. split; [|reflexivity].
    apply prefix_nil.
  - rewrite for_each_cons, run_bind. cbn [fst snd]. rewrite run_bind.
    pose proof (keeps_self_init_state cls p g (World h (Optimizer_ n (Some acc)))) as Hs.
    destruct (init_state cls p g (World h (Optimizer_ n (Some acc)))) as [[h1 o1] [s|e]];
      simpl in Hs; subst o1.
    + rewrite (run_tuples_append (p, g, s) (World h1 (Optimizer_ n (Some acc))) acc eq_refl).
      simpl. destruct (IH h1 (acc ++ [(p, g, s)])) as (new & Hself & Hpre & Hall).
      exists ((p, g, s) :: new). rewrite <- app_assoc in Hself.
      split; [exact Hself|]. split.
      * rewrite fmap_cons. apply prefix_cons, Hpre.
      * intros Hret. rewrite fmap_cons, (Hall Hret). reflexivity.
    + exists []. rewrite app_nil_r. split; [reflexivity|]. split; [apply prefix_nil|].
      discriminate.
Qed.

Lemma setup_as_loop cls (pg : list loc * list loc) w :
  setup cls pg w
  = for_each (zip pg.1 pg.2)
      (fun pg => state ← init_state cls pg.1 pg.2; tuples_append (pg.1, pg.2, state))
      (World (store w) (Optimizer_ (Some 0%Z) (Some []))).
Proof. reflexivity. Qed.

(** X4. [setup] starts from scratch and is not atomic. Its result does not
    depend on the attributes the optimizer had before (a second [setup]
    replaces the first). However it ends, with any hooks, the optimizer is
    left with [t = 0] and with triples for a prefix of the zipped pairs, in
    order: all of them if it returns. If the state initialiser raises at a
    pair, having returned for the pairs before it, [setup] ends there with
    that exception, in the state the failing initialiser left: the
    optimizer holds the triples of exactly the pairs before, and nothing is
    rolled back. *)
Theorem X4_setup_resets cls (pg : list loc * list loc) w :
  (forall o, setup cls pg (World (store w) o) = setup cls pg w) /\
  (exists ts,
     self (setup cls pg w).1 = Optimizer_ (Some 0%Z) (Some ts) /\
     ts.*1 `prefix_of` zip pg.1 pg.2 /\
     ((setup cls pg w).2 = Return tt -> ts.*1 = zip pg.1 pg.2)) /\
  (forall pre p g post e,
     zip pg.1 pg.2 = pre ++ (p, g) :: post ->
     (setup cls (pre.*1, pre.*2) w).2 = Return tt ->
     (init_state cls p g (setup cls (pre.*1, pre.*2) w).1).2 = Raise e ->
     setup cls pg w
     = ((init_state cls p g (setup cls (pre.*1, pre.*2) w).1).1, Raise e) /\
     exists ts,
       self (setup cls pg w).1 = Optimizer_ (Some 0%Z) (Some ts) /\
       ts.*1 = pre).
Proof.
  split; [reflexivity|]. split.
  - destruct (setup_loop_self cls (zip pg.1 pg.2) (store w) (Some 0%Z) [])
      as (new & Hself & Hpre & Hall).
    exists new. split; [exact Hself|]. split; [exact Hpre|exact Hall].
  - intros pre p g post e Hzip Hpre Hinit.
    destruct (setup_loop_self cls pre (store w) (Some 0%Z) [])
      as (new & Hself & _ & Hall).
    rewrite setup_as_loop in Hpre, Hinit. cbn [fst snd] in Hpre, Hinit.
    rewrite zip_fst_snd in Hpre, Hinit.
    assert (Hrun : setup cls pg w
                   = ((init_state cls p g
                         (setup cls (pre.*1, pre.*2) w).1).1, Raise e)).
    { rewrite (setup_as_loop cls (pre.*1, pre.*2)). cbn [fst snd].
      rewrite zip_fst_snd, setup_as_loop, Hzip, for_each_app, run_bind.
      destruct (for_each pre _ _) as [w1 [[]|e1]]; [|discriminate].
      cbn [fst snd] in *. rewrite for_each_cons, run_bind. cbn [fst snd].
      rewrite run_bind.
      destruct (init_state cls p g w1) as [w2 [s|e2]]; [discriminate|].
      cbn [snd] in Hinit. injection Hinit as ->. reflexivity. }
    split; [exact Hrun|]. exists new. rewrite Hrun. cbn [fst].
    rewrite keeps_self_init_state, setup_as_loop. cbn [fst snd].
    rewrite zip_fst_snd. split; [exact Hself|]. apply Hall, Hpre.
Qed.

(** *** [update] *)

(** X6. On the base class [update] returns exactly when there is nothing to
    update: with no triples it returns, having advanced the counter and
    touched nothing else; with any triple it does not return. *)
Theorem X6_base_update_returns_iff_empty w n ts :
  Configured w n ts ->
  (ts = [] ->
   update (base : hooks F St) w
   = (World (store w) (Optimizer_ (Some (n + 1)%Z) (Some [])), Return tt)) /\
  (forall w', update (base : hooks F St) w = (w', Return tt) -> ts = []).
Proof.
  intros Hc. split.
  - intros ->. destruct Hc as (Ht & Hts & _). apply (update_run base w n [] Ht Hts).
  - intros w' Hrun. destruct ts as [|x ts]; [reflexivity|].
    rewrite (update_base_raises w n x ts Hc) in Hrun. discriminate.
Qed.

End Lifecycle.

Section Composition.

Context {F : Type} {AF : Arith F} {St : Type}.

Implicit Types (w : world F St) (cls : hooks F St).
Implicit Types (ts : list (loc * loc * option St)).

Lemma map_const_length {A B} (c : B) (xs ys : list A) :
  length xs = length ys -> map (fun _ => c) xs = map (fun _ => c) ys.
Proof.
  revert ys. induction xs as [|x xs IH]; intros [|y ys] H; try discriminate;
    [reflexivity|].
  simpl. f_equal. apply IH. simpl in H. lia.
Qed.

Lemma zeroed_same_shape (h h' : gmap loc (ndarray F)) l :
  shape_at h' l = shape_at h l ->
  with_data (map (fun _ => zero)) <$> h' !! l
  = with_data (map (fun _ => zero)) <$> h !! l.
Proof.
  unfold shape_at. destruct (h' !! l) as [a'|], (h !! l) as [a|]; simpl;
    try discriminate; [|reflexivity].
  intros [= Hdev Hlen]. unfold with_data. rewrite Hdev.
  rewrite (map_const_length zero _ _ Hlen). reflexivity.
Qed.

Lemma is_Some_shapes (h h' : gmap loc (ndarray F)) l :
  shape_at h' l = shape_at h l -> is_Some (h !! l) -> is_Some (h' !! l).
Proof.
  unfold shape_at. intros Hs [a Ha]. rewrite Ha in Hs.
  destruct (h' !! l); [eauto|discriminate].
Qed.

Lemma zero_grads_erases w w' n ts :
  Configured w n ts ->
  self w' = self w ->
  (forall l, l ∉ grads ts -> store w' !! l = store w !! l) ->
  (forall l, shape_at (store w') l = shape_at (store w) l) ->
  zero_grads w' = zero_grads w.
Proof.
  intros Hc Hself Hout Hshape. pose proof (Configured_live_grads _ _ _ Hc) as Hlive.
  destruct Hc as (_ & Hts & _).
  rewrite (zero_grads_run w ts Hts Hlive).
  rewrite (zero_grads_run w' ts).
  - rewrite Hself. f_equal. f_equal. apply map_eq. intros l.
    rewrite !lookup_zero_updates. destruct (decide (l ∈ grads ts)) as [Hl|Hl].
    + apply zeroed_same_shape, Hshape.
    + apply Hout, Hl.
  - rewrite Hself. exact Hts.
  - eapply Forall_impl; [exact Hlive|]. intros l. apply is_Some_shapes, Hshape.
Qed.

(** X7. [zero_grads] erases what the gradient utilities did: in a
    configured optimizer, [zero_grads] after [zero_grads], [clip_grads],
    [weight_decay] or [accumulate_grads] (with any argument, and whether
    that call returned or raised) leaves exactly the state that
    [zero_grads] alone leaves. In particular [zero_grads] is idempotent. *)
Theorem X7_zero_grads_erases w n ts :
  Configured w n ts ->
  zero_grads (zero_grads w).1 = zero_grads w /\
  (forall maxnorm, zero_grads (clip_grads maxnorm w).1 = zero_grads w) /\
  (forall decay, zero_grads (weight_decay decay w).1 = zero_grads w) /\
  (forall srcs, zero_grads (accumulate_grads srcs w).1 = zero_grads w).
Proof.
  intros Hc. pose proof Hc as (_ & Hts & _).
  split; [|split; [|split]].
  - apply (zero_grads_erases w _ n ts Hc).
    + apply keeps_self_zero_grads.
    + intros l Hl. apply (frame_outside_grads w ts l Hts Hl).
    + intros l. apply keeps_shapes_zero_grads.
  - intros maxnorm. apply (zero_grads_erases w _ n ts Hc).
    + apply keeps_self_clip_grads.
    + intros l Hl. apply (frame_outside_grads w ts l Hts Hl).
    + intros l. apply keeps_shapes_clip_grads.
  - intros decay. apply (zero_grads_erases w _ n ts Hc).
    + apply keeps_self_weight_decay.
    + intros l Hl. apply (frame_outside_grads w ts l Hts Hl).
    + intros l. apply keeps_shapes_weight_decay.
  - intros srcs. apply (zero_grads_erases w _ n ts Hc).
    + apply keeps_self_accumulate_grads.
    + intros l Hl. apply (frame_outside_grads w ts l Hts Hl).
    + intros l. apply keeps_shapes_accumulate_grads.
Qed.

End Composition.

Section Truncation.

Context {F : Type} {AF : Arith F} {St : Type}.

Implicit Types (w : world F St).
Implicit Types (ts : list (loc * loc * option St)).

Lemma zip_extra {A B} (xs : list A) (ys extra : list B) :
  length xs <= length ys -> zip xs (ys ++ extra) = zip xs ys.
Proof.
  revert ys. induction xs as [|x xs IH]; intros [|y ys] H; simpl in *;
    try reflexivity; try lia.
  f_equal. apply IH. lia.
Qed.

(** X8. [accumulate_grads] pairs triples and sources with [zip] and checks
    no length: sources beyond the number of triples are ignored (they are
    not even read), the gradients of the triples beyond the number of
    sources are left as they are, and with no source at all the call
    returns having done nothing. *)
Theorem X8_accumulate_grads_truncates w ts (srcs extra : list loc) :
  tuples (self w) = Some ts ->
  (length ts <= length srcs ->
   accumulate_grads (srcs ++ extra) w = accumulate_grads srcs w) /\
  (forall l, l ∉ grads (take (length srcs) ts) ->
     store (accumulate_grads srcs w).1 !! l = store w !! l) /\
  accumulate_grads [] w = (w, Return tt).
Proof.
  intros Hts. pose proof (run_getattr_tuples w ts Hts) as Hget.
  split; [|split].
  - intros Hlen. unfold accumulate_grads.
    rewrite !(run_bind_return _ _ _ _ _ Hget), (zip_extra ts srcs extra Hlen).
    reflexivity.
  - intros l Hl. unfold accumulate_grads. rewrite (run_bind_return _ _ _ _ _ Hget).
    apply writes_within_accum_loop, Hl.
  - unfold accumulate_grads. rewrite (run_bind_return _ _ _ _ _ Hget).
    replace (zip ts []) with (@nil (loc * loc * option St * loc));
      [reflexivity|]. destruct ts; reflexivity.
Qed.

End Truncation.

(** ** binary64: signs, NaN and division by zero *)

Section Binary64Edges.

Lemma SFcompare_refl x : x <> S754_nan -> SFcompare x x = Some Eq.
Proof.
  destruct x as [s|s| |s m e]; intros H; try reflexivity; try congruence.
  - destruct s; reflexivity.
  - simpl. rewrite Z.compare_refl, Pos.compare_cont_refl. destruct s; reflexivity.
Qed.

(** [numpy.isnan] on a float64. *)
Lemma is_nan_spec (x : float) : PrimFloat.is_nan x = true <-> Prim2SF x = S754_nan.
Proof.
  unfold PrimFloat.is_nan. rewrite FloatAxioms.eqb_spec. unfold SFeqb. split.
  - intros H. destruct (Prim2SF x) as [s|s| |s m e] eqn:E; try reflexivity;
      rewrite SFcompare_refl in H by discriminate; discriminate.
  - intros ->. reflexivity.
Qed.

Lemma float_mul_nan (x : float) :
  PrimFloat.is_nan x = true -> PrimFloat.is_nan (x * x)%float = true.
Proof.
  rewrite !is_nan_spec, mul_spec. intros ->. reflexivity.
Qed.

Lemma float_add_nan_l (a b : float) :
  PrimFloat.is_nan a = true -> PrimFloat.is_nan (a + b)%float = true.
Proof.
  rewrite !is_nan_spec, add_spec. intros ->. reflexivity.
Qed.

Lemma float_add_nan_r (a b : float) :
  PrimFloat.is_nan b = true -> PrimFloat.is_nan (a + b)%float = true.
Proof.
  rewrite !is_nan_spec, add_spec. intros ->.
  destruct (Prim2SF a) as [s|s| |s m e]; reflexivity.
Qed.

Lemma float_sqrt_nan (x : float) :
  PrimFloat.is_nan x = true -> PrimFloat.is_nan (PrimFloat.sqrt x) = true.
Proof.
  rewrite !is_nan_spec, sqrt_spec. intros ->. reflexivity.
Qed.

Lemma float_ltb_nan_l (x y : float) :
  PrimFloat.is_nan x = true -> (x <? y)%float = false.
Proof.
  rewrite is_nan_spec, FloatAxioms.ltb_spec. intros ->. reflexivity.
Qed.

Lemma float_ltb_nan_r (x y : float) :
  PrimFloat.is_nan y = true -> (x <? y)%float = false.
Proof.
  rewrite is_nan_spec, FloatAxioms.ltb_spec. intros ->. unfold SFltb.
  destruct (Prim2SF x) as [s|s| |s m e]; reflexivity.
Qed.

(** A square root is never below zero: it is NaN, a zero, or positive. *)
Lemma float_sqrt_nonneg (x : float) : (PrimFloat.sqrt x <? 0)%float = false.
Proof.
  rewrite float_ltb_zero, sqrt_spec.
  destruct (Prim2SF x) as [s|s| |s m e]; try reflexivity.
  - destruct s; reflexivity.
  - destruct s; [reflexivity|]. unfold SF64sqrt, SFsqrt.
    destruct (SFsqrt_core_binary prec emax (Z.pos m) e) as [[mz ez] lz].
    rewrite binary_round_aux_nonneg. reflexivity.
Qed.

End Binary64Edges.

Section NormAfterZero.

Context {F : Type} {AF : Arith F} {AL : ArithLaws F} {St : Type}.

Lemma zero_grads_norm (w : world F St) n ts :
  Configured w n ts ->
  compute_grads_norm (zero_grads w).1 = ((zero_grads w).1, Return zero).
Proof.
  intros Hc. pose proof (Configured_live_grads _ _ _ Hc) as Hlive.
  pose proof Hc as (_ & Hts & _).
  rewrite (zero_grads_run w ts Hts Hlive). cbn [fst].
  rewrite (compute_grads_norm_returns _ n ts (Configured_apply_all _ w n ts Hc)).
  cbn [store].
  rewrite (arrays_fmap (store w) _ (with_data (map (fun _ => zero)))).
  - rewrite sum_sqnorm_zeros, sqrt_zero. reflexivity.
  - intros l Hl. rewrite lookup_zero_updates, decide_True by exact Hl. reflexivity.
Qed.

End NormAfterZero.

Section FloatEdges.

Context {St : Type}.

Implicit Types (w : world float St).
Implicit Types (ts : list (loc * loc * option St)).

(** X9. In binary64, on gradients that are all zero (as [zero_grads]
    leaves them, or when there is no triple) the norm is [0.0], and
    [clip_grads] divides by it when [maxnorm] is negative: it raises
    [ZeroDivisionError], changing nothing. With any other [maxnorm] (zero,
    positive, NaN) it returns, changing nothing. *)
Theorem X9_clip_zero_gradients w n ts (maxnorm : float) :
  Configured w n ts ->
  ((maxnorm <? 0)%float = true ->
   clip_grads maxnorm (zero_grads w).1 = ((zero_grads w).1, Raise ZeroDivisionError)) /\
  ((maxnorm <? 0)%float = false ->
   clip_grads maxnorm (zero_grads w).1 = ((zero_grads w).1, Return tt)).
Proof.
  intros Hc. pose proof (zero_grads_norm w n ts Hc) as Hnorm.
  split; intros Hm; unfold clip_grads;
    rewrite (run_bind_return _ _ _ _ _ Hnorm); cbn [ltb float_arith zero];
    rewrite Hm; reflexivity.
Qed.

(** *** NaN *)

Lemma dot_nan_from (xs : list float) (acc : float) :
  PrimFloat.is_nan acc = true \/ (exists x, x ∈ xs /\ PrimFloat.is_nan x = true) ->
  PrimFloat.is_nan
    (foldl (fun acc xy => add acc (mul xy.1 xy.2)) acc (zip xs xs)) = true.
Proof.
  revert acc. induction xs as [|x xs IH]; intros acc H.
  - destruct H as [H|(x & Hx & _)]; [exact H|]. apply elem_of_nil in Hx. destruct Hx.
  - simpl. apply IH. destruct H as [H|(y & Hy & Hnan)].
    + left. apply float_add_nan_l, H.
    + apply elem_of_cons in Hy as [->|Hy].
      * left. apply float_add_nan_r, float_mul_nan, Hnan.
      * right. eauto.
Qed.

Lemma sum_nan_from (gs : list (ndarray float)) (acc : float) :
  PrimFloat.is_nan acc = true \/
  (exists a x, a ∈ gs /\ x ∈ data a /\ PrimFloat.is_nan x = true) ->
  PrimFloat.is_nan (foldl (fun acc a => add acc (sqnorm_of a)) acc gs) = true.
Proof.
  revert acc. induction gs as [|a gs IH]; intros acc H.
  - destruct H as [H|(a & x & Ha & _)]; [exact H|]. apply elem_of_nil in Ha. destruct Ha.
  - simpl. apply IH. destruct H as [H|(b & x & Hb & Hx & Hnan)].
    + left. apply float_add_nan_l, H.
    + apply elem_of_cons in Hb as [->|Hb].
      * left. apply float_add_nan_r. unfold sqnorm_of, dot.
        apply dot_nan_from. right. eauto.
      * right. eauto.
Qed.

Lemma arrays_elem (h : gmap loc (ndarray float)) (ls : list loc) l a :
  l ∈ ls -> h !! l = Some a -> a ∈ arrays h ls.
Proof.
  intros Hl Ha. unfold arrays. apply list_elem_of_omap. exists l. auto.
Qed.

(** X10. NaN is passed through, not detected: in binary64, if any element
    of any gradient buffer is NaN, [compute_grads_norm] returns NaN (it does
    not raise), and [clip_grads] returns without changing anything, whatever
    [maxnorm] is: a diverged gradient is never clipped. *)
Theorem X10_nan_gradient_is_not_clipped w n ts (g : loc) (a : ndarray float) (x : float) :
  Configured w n ts ->
  g ∈ grads ts -> store w !! g = Some a ->
  x ∈ data a -> PrimFloat.is_nan x = true ->
  (exists norm, compute_grads_norm w = (w, Return norm) /\
                PrimFloat.is_nan norm = true) /\
  (forall maxnorm, clip_grads maxnorm w = (w, Return tt)).
Proof.
  intros Hc Hg Ha Hx Hnan.
  pose proof (compute_grads_norm_returns w n ts Hc) as Hnorm.
  assert (Hn : PrimFloat.is_nan
                 (sqrt (sum_sqnorm (arrays (store w) (grads ts)))) = true).
  { apply float_sqrt_nan. unfold sum_sqnorm. apply sum_nan_from. right.
    exists a, x. split; [apply (arrays_elem _ _ g); assumption|]. auto. }
  split; [eauto|].
  intros maxnorm. unfold clip_grads. rewrite (run_bind_return _ _ _ _ _ Hnorm).
  cbn [ltb float_arith]. rewrite (float_ltb_nan_r _ _ Hn). reflexivity.
Qed.

(** X11. In binary64 the value [compute_grads_norm] returns is never below
    zero, in any state: it is NaN, a zero or positive. *)
Theorem X11_norm_not_negative w w' (norm : float) :
  compute_grads_norm w = (w', Return norm) -> (norm <? 0)%float = false.
Proof.
  unfold compute_grads_norm. rewrite run_bind.
  destruct (getattr_tuples w) as [w1 [ts|e]]; [|discriminate].
  rewrite run_bind.
  destruct (for_fold ts zero _ w1) as [w2 [sq|e]]; [|discriminate].
  unfold math_sqrt. destruct (ltb sq zero); [discriminate|].
  intros H. change ((w2, Return (sqrt sq)) = (w', Return norm)) in H.
  injection H as _ <-. apply float_sqrt_nonneg.
Qed.

End FloatEdges.

Section ShapeErrors.

Context {F : Type} {AF : Arith F} {St : Type}.

Implicit Types (w : world F St) (h : gmap loc (ndarray F)).
Implicit Types (ts : list (loc * loc * option St)).

Lemma zip_middle {A B} (xs xs' : list A) (ys ys' : list B) x y :
  length xs = length ys ->
  zip (xs ++ x :: xs') (ys ++ y :: ys') = zip xs ys ++ (x, y) :: zip xs' ys'.
Proof.
  revert ys. induction xs as [|a xs IH]; intros [|b ys] H; simpl in *;
    try discriminate; [reflexivity|].
  f_equal. apply IH. lia.
Qed.

Lemma added_mismatch (a xs : list F) :
  length xs <> length a -> length xs <> 1 -> added a xs = None.
Proof.
  intros Hne H1. unfold added, broadcast_to.
  rewrite decide_False by exact Hne.
  destruct xs as [|x [|y xs]]; try reflexivity. simpl in H1. lia.
Qed.

Lemma length_apply_all us h l :
  Forall (fun u => forall h', exists k,
            u.2 h' = with_data k /\ forall a : list F, length (k a) = length a) us ->
  (fun a => length (data a)) <$> (apply_all us h !! l)
  = (fun a => length (data a)) <$> (h !! l).
Proof.
  revert h. induction us as [|u us IH]; intros h Hus; [reflexivity|].
  apply Forall_cons in Hus as [Hu Hus]. rewrite apply_all_cons, (IH _ Hus).
  destruct (Hu h) as (k & -> & Hk). apply lookup_alter_shape, Hk.
Qed.

Lemma accum_loop_run (xs : list (loc * loc * option St * loc)) h o :
  Forall (matched h) xs ->
  for_each xs (fun '((_, g_dst, _), g_src) =>
    dst ← deref g_dst;
    src ← deref g_src;
    match dev dst with
    | Host => iadd g_dst (data (to_cpu src))
    | Gpu d_dst =>
        match dev src with
        | Gpu d_src =>
            if negb (Nat.eqb d_dst d_src)
            then iadd g_dst (data (copy src d_src))
            else iadd g_dst (data (to_gpu src d_dst))
        | Host => iadd g_dst (data (to_gpu src d_dst))
        end
    end) (World h o : world F St)
  = (World (apply_all (accum_updates xs) h) o, Return tt).
Proof.
  intros Hshape. unfold accum_updates.
  apply (for_each_apply_all _ _ (fun h x => matched h x)).
  - intros [[[p g] s] g_src] h' (sa & ga & Hs & Hg & Hlen). simpl in *.
    rewrite (run_bind_return _ _ _ _ _ (run_deref g (World h' o) ga Hg)).
    rewrite (run_bind_return _ _ _ _ _ (run_deref g_src (World h' o) sa Hs)).
    rewrite (elems_lookup h' g_src sa Hs).
    destruct (dev ga); [|destruct (dev sa); [|destruct (negb _)]];
      apply (run_iadd g _ (World h' o) ga Hg Hlen).
  - intros x y h' _ Hx. apply same_len_alter; [apply plus_length | exact Hx].
  - exact Hshape.
Qed.

(** X12. A source that cannot be broadcast stops [accumulate_grads]
    half-way: if the sources of the first triples have the shapes of their
    gradients and the number of elements of the next source does not divide
    that of its gradient (so that no shapes with these sizes broadcast), the
    call raises [ValueError] after having added the earlier sources into
    their gradients; the failing gradient and the later ones are not
    accumulated, and nothing is rolled back. *)
Theorem X12_accumulate_grads_shape_error w pre post (spre spost : list loc)
    (p g src : loc) (s : option St) (ga sa : ndarray F) :
  tuples (self w) = Some (pre ++ (p, g, s) :: post) ->
  length spre = length pre ->
  Forall (matched (store w)) (zip pre spre) ->
  store w !! g = Some ga -> store w !! src = Some sa ->
  ~ Nat.divide (length (data sa)) (length (data ga)) ->
  accumulate_grads (spre ++ src :: spost) w
  = (World (apply_all (accum_updates (zip pre spre)) (store w)) (self w),
     Raise ValueError).
Proof.
  intros Hts Hlen Hm Hg Hs Hdiv.
  assert (Hne : length (data sa) <> length (data ga))
    by (intros E; apply Hdiv; rewrite E; apply Nat.divide_refl).
  assert (H1 : length (data sa) <> 1)
    by (intros E; apply Hdiv; rewrite E; apply Nat.divide_1_l).
  unfold accumulate_grads.
  rewrite (run_bind_return _ _ _ _ _ (run_getattr_tuples w _ Hts)).
  rewrite (zip_middle pre post spre spost (p, g, s) src) by (symmetry; exact Hlen).
  rewrite for_each_app. destruct w as [h o]. cbn [store self] in *.
  rewrite (run_bind_return _ _ _ _ _ (accum_loop_run (zip pre spre) h o Hm)).
  rewrite for_each_cons. apply run_bind_raise.
  set (h1 := apply_all (accum_updates (zip pre spre)) h).
  pose proof (length_apply_all (accum_updates (zip pre spre)) h g
                (accum_updates_keep_shape _)) as Lg.
  pose proof (length_apply_all (accum_updates (zip pre spre)) h src
                (accum_updates_keep_shape _)) as Ls.
  fold h1 in Lg, Ls. rewrite Hg in Lg. rewrite Hs in Ls.
  destruct (h1 !! g) as [ga1|] eqn:Eg; [|discriminate].
  destruct (h1 !! src) as [sa1|] eqn:Es; [|discriminate].
  cbn in Lg, Ls. injection Lg as Lg. injection Ls as Ls.
  rewrite (run_bind_return _ _ _ _ _ (run_deref g (World h1 o) ga1 Eg)).
  rewrite (run_bind_return _ _ _ _ _ (run_deref src (World h1 o) sa1 Es)).
  assert (Hno : added (data ga1) (data sa1) = None)
    by (apply added_mismatch; congruence).
  destruct (dev ga1); [|destruct (dev sa1); [|destruct (negb _)]];
    apply (run_iadd_mismatch g _ (World h1 o) ga1 Eg Hno).
Qed.

End ShapeErrors.

(** * [examples/word2vec/search.py] *)

Section SearchProofs.

Context {F : Type} {AF : Arith F}.

Variable isnan : F -> bool.
Variable ranking : list F -> list nat.
Variable word2index : gmap string nat.
Variable index2word : gmap nat string.

Lemma print_results_spec (similarity : list F) (order : list nat) (count : nat) :
  count < n_result ->
  (forall i, i ∈ order ->
     exists v, similarity !! i = Some v /\
               (isnan v = false -> is_Some (index2word !! i))) ->
  print_results isnan index2word similarity order count
  = (take (n_result - count) (ranked isnan index2word similarity order), None).
Proof.
  revert count. induction order as [|i order IH]; intros count Hc Hok.
  - simpl. rewrite take_nil. reflexivity.
  - destruct (Hok i (list_elem_of_here _ _)) as (v & Hv & Hword).
    assert (Hok' : forall j, j ∈ order ->
              exists v, similarity !! j = Some v /\
                        (isnan v = false -> is_Some (index2word !! j)))
      by (intros j Hj; apply Hok, list_elem_of_further, Hj).
    cbn [print_results ranked omap list_omap]. rewrite Hv. cbn [mbind option_bind].
    destruct (isnan v) eqn:Hnan.
    + apply (IH count Hc Hok').
    + destruct (Hword eq_refl) as [word Hw]. rewrite Hw. cbn [mbind option_bind].
      destruct (Nat.eqb (S count) n_result) eqn:E.
      * apply Nat.eqb_eq in E. replace (n_result - count) with 1 by lia.
        reflexivity.
      * apply Nat.eqb_neq in E.
        rewrite (IH (S count)) by (assumption || lia). cbn [fst snd].
        replace (n_result - count) with (S (n_result - S count)) by lia.
        reflexivity.
Qed.

(** X13. The result loop of the search script, with its [continue] and
    [break], prints the first [n_result] entries of the ranking whose
    similarity is not NaN, in the ranking's order: fewer only when the
    ranking has fewer such entries. (Every ranked index is an index of
    [similarity], and [index2word] knows the words it has to print.) *)
Theorem X13_results_are_first_non_nan (similarity : list F) (order : list nat) :
  (forall i, i ∈ order ->
     exists v, similarity !! i = Some v /\
               (isnan v = false -> is_Some (index2word !! i))) ->
  print_results isnan index2word similarity order 0
  = (take n_result (ranked isnan index2word similarity order), None).
Proof.
  intros Hok.
  rewrite (print_results_spec similarity order 0); [reflexivity| |exact Hok].
  unfold n_result. lia.
Qed.

Lemma print_results_bounds (similarity : list F) (order : list nat) (count : nat) :
  count < n_result ->
  Forall (shows_no_nan isnan)
    (print_results isnan index2word similarity order count).1 /\
  Forall (fun l => is_result l = true)
    (print_results isnan index2word similarity order count).1 /\
  length (print_results isnan index2word similarity order count).1
  <= n_result - count.
Proof.
  revert count. induction order as [|i order IH]; intros count Hc.
  - simpl. repeat split; [constructor|constructor|lia].
  - cbn [print_results]. destruct (similarity !! i) as [v|];
      [|simpl; repeat split; [constructor|constructor|lia]].
    destruct (isnan v) eqn:Hnan; [apply (IH count Hc)|].
    destruct (index2word !! i) as [word|];
      [|simpl; repeat split; [constructor|constructor|lia]].
    destruct (Nat.eqb (S count) n_result) eqn:E.
    + simpl. repeat split; [repeat constructor; exact Hnan|repeat constructor|lia].
    + apply Nat.eqb_neq in E.
      destruct (IH (S count)) as (H1 & H2 & H3); [lia|].
      cbn [fst]. split; [|split].
      * constructor; [exact Hnan|exact H1].
      * constructor; [reflexivity|exact H2].
      * simpl. lia.
Qed.

Lemma filter_all {A} (P : A -> bool) (xs : list A) :
  Forall (fun x => P x = true) xs -> List.filter P xs = xs.
Proof.
  induction 1 as [|x xs Hx _ IH]; [reflexivity|]. simpl. rewrite Hx, IH. reflexivity.
Qed.

Lemma filter_none {A} (P : A -> bool) (xs : list A) :
  Forall (fun x => P x = true) xs ->
  forall Q : A -> bool, (forall x, P x = true -> Q x = false) -> List.filter Q xs = [].
Proof.
  induction 1 as [|x xs Hx _ IH]; intros Q HQ; [reflexivity|].
  simpl. rewrite (HQ x Hx). apply IH, HQ.
Qed.

Lemma session_bounds (w : list (list F)) (inputs : list string) :
  Forall (shows_no_nan isnan) (session isnan ranking word2index index2word w inputs).1 /\
  length (List.filter is_result
            (session isnan ranking word2index index2word w inputs).1)
  <= n_result *
     length (List.filter is_query
               (session isnan ranking word2index index2word w inputs).1).
Proof.
  induction inputs as [|q inputs [IH1 IH2]].
  - simpl. split; [repeat constructor|lia].
  - cbn [session]. destruct (word2index !! q) as [k|].
    + destruct (w !! k) as [v|]; [|simpl; split; [repeat constructor|lia]].
      set (sim := similarities w v).
      destruct (print_results_bounds sim (ranking sim) 0) as (H1 & H2 & H3);
        [unfold n_result; lia|].
      set (p := print_results isnan index2word sim (ranking sim) 0) in *.
      assert (Hres : List.filter is_result p.1 = p.1) by (apply filter_all, H2).
      assert (Hq : List.filter is_query p.1 = [])
        by (apply (filter_none is_result); [exact H2|]; intros [] ?; done).
      destruct p.2 as [e|]; cbn [fst].
      * split; [repeat constructor; exact H1|].
        cbn [List.filter is_result is_query length]. rewrite Hres, Hq.
        cbn [length]. unfold n_result in *. lia.
      * split; [repeat constructor; apply Forall_app; split; assumption|].
        cbn [List.filter is_result is_query length].
        rewrite !List.filter_app, Hres, Hq, !length_app.
        cbn [length app]. unfold n_result in *. lia.
    + cbn [fst]. split; [repeat constructor; exact IH1|]. exact IH2.
Qed.

Lemma results_per_query_more (n b b' : nat) (out : list (line F)) :
  b <= b' -> results_per_query n b out = true -> results_per_query n b' out = true.
Proof.
  revert b b'. induction out as [|l out IH]; intros b b' Hb H; [reflexivity|].
  destruct l as [|q|q|word v]; cbn [results_per_query] in *; try exact H.
  destruct b as [|b]; [discriminate|]. destruct b' as [|b']; [lia|].
  apply (IH b b'); [lia|exact H].
Qed.

Lemma results_per_query_block (n b : nat) (rs out : list (line F)) :
  Forall (fun l => is_result l = true) rs -> length rs <= b ->
  results_per_query n 0 out = true ->
  results_per_query n b (rs ++ out) = true.
Proof.
  intros Hrs. revert b. induction Hrs as [|l rs Hl _ IH]; intros b Hlen Hout.
  - apply (results_per_query_more n 0 b); [lia|exact Hout].
  - destruct l as [|q|q|word v]; try discriminate.
    cbn [app results_per_query]. destruct b as [|b]; [simpl in Hlen; lia|].
    apply IH; [simpl in Hlen; lia|exact Hout].
Qed.

Lemma session_per_query (w : list (list F)) (inputs : list string) :
  results_per_query n_result 0
    (session isnan ranking word2index index2word w inputs).1 = true.
Proof.
  induction inputs as [|q inputs IH]; [reflexivity|].
  cbn [session]. destruct (word2index !! q) as [k|]; [|exact IH].
  destruct (w !! k) as [v|]; [|reflexivity].
  set (sim := similarities w v).
  destruct (print_results_bounds sim (ranking sim) 0) as (_ & H2 & H3);
    [unfold n_result; lia|].
  rewrite Nat.sub_0_r in H3.
  set (p := print_results isnan index2word sim (ranking sim) 0) in *.
  destruct p.2 as [e|]; cbn [fst results_per_query].
  - rewrite <- (app_nil_r p.1).
    apply results_per_query_block; [exact H2|exact H3|reflexivity].
  - apply results_per_query_block; [exact H2|exact H3|exact IH].
Qed.

(** X14. Whatever the model, the ranking and the input, and also when the
    script dies on a lookup, what the search script has printed never shows
    a NaN similarity, and shows at most [n_result] results per query line:
    every result line follows a query line with fewer than [n_result]
    other result lines, and nothing else, in between. So there are at most
    [n_result] times as many result lines as query lines. *)
Theorem X14_search_output_bounds (w : list (list F)) (inputs : list string) :
  Forall (shows_no_nan isnan)
    (search isnan ranking word2index index2word w inputs).1 /\
  results_per_query n_result 0
    (search isnan ranking word2index index2word w inputs).1 = true /\
  length (List.filter is_result
            (search isnan ranking word2index index2word w inputs).1)
  <= n_result *
     length (List.filter is_query
               (search isnan ranking word2index index2word w inputs).1).
Proof.
  split; [apply session_bounds|]. split; [apply session_per_query|].
  apply session_bounds.
Qed.

End SearchProofs.

(** ** Words without an embedding

    A row of zeros is divided by its norm [0.0]: numpy does not raise, the
    row becomes NaN. *)

Section SkippedEntries.

Context {F : Type} {AF : Arith F}.

Variable isnan : F -> bool.
Variable index2word : gmap nat string.

(** An index whose similarity is NaN can be taken out of the ranking. *)
Lemma print_results_skip (similarity : list F) (k : nat) (x : F)
    (order : list nat) (count : nat) :
  similarity !! k = Some x -> isnan x = true ->
  print_results isnan index2word similarity order count
  = print_results isnan index2word similarity (filter (fun i => i <> k) order) count.
Proof.
  intros Hk Hx. revert count. induction order as [|i order IH]; intros count.
  - reflexivity.
  - destruct (decide (i = k)) as [->|Hne].
    + rewrite filter_cons_False by (intros H; apply H; reflexivity).
      cbn [print_results]. rewrite Hk, Hx. apply IH.
    + rewrite filter_cons_True by exact Hne.
      cbn [print_results]. destruct (similarity !! i) as [v|]; [|reflexivity].
      destruct (isnan v); [apply IH|].
      destruct (index2word !! i) as [word|]; [|reflexivity].
      destruct (Nat.eqb (S count) n_result); [reflexivity|].
      rewrite IH. reflexivity.
Qed.

(** When every similarity is NaN, nothing is printed. *)
Lemma print_results_all_nan (similarity : list F) (order : list nat) (count : nat) :
  (forall i, i ∈ order -> exists x, similarity !! i = Some x /\ isnan x = true) ->
  print_results isnan index2word similarity order count = ([], None).
Proof.
  induction order as [|i order IH]; intros H; [reflexivity|].
  destruct (H i (list_elem_of_here _ _)) as (x & Hi & Hx).
  cbn [print_results]. rewrite Hi, Hx. apply IH.
  intros j Hj. apply H, list_elem_of_further, Hj.
Qed.

End SkippedEntries.

Section ZeroEmbedding.

Variable ranking : list float -> list nat.
Variable word2index : gmap string nat.
Variable index2word : gmap nat string.

Lemma float_mul_nan_l (x y : float) :
  PrimFloat.is_nan x = true -> PrimFloat.is_nan (x * y)%float = true.
Proof.
  rewrite !is_nan_spec, mul_spec. intros ->. reflexivity.
Qed.

Lemma float_mul_nan_r (x y : float) :
  PrimFloat.is_nan y = true -> PrimFloat.is_nan (x * y)%float = true.
Proof.
  rewrite !is_nan_spec, mul_spec. intros ->.
  destruct (Prim2SF x) as [s|s| |s m e]; reflexivity.
Qed.

Lemma dot_pairs_nan_from (ps : list (float * float)) (acc : float) :
  PrimFloat.is_nan acc = true ->
  PrimFloat.is_nan (foldl (fun acc xy => add acc (mul xy.1 xy.2)) acc ps) = true.
Proof.
  revert acc. induction ps as [|p ps IH]; intros acc H; [exact H|].
  simpl. apply IH, float_add_nan_l, H.
Qed.

Lemma dot_nan_row (n : nat) (v : list float) :
  v <> [] -> PrimFloat.is_nan (dot (replicate (S n) PrimFloat.nan) v) = true.
Proof.
  destruct v as [|y v]; [congruence|]. intros _. unfold dot. simpl.
  apply dot_pairs_nan_from, float_add_nan_r, float_mul_nan_l. reflexivity.
Qed.

Lemma dot_nan_query (row : list float) (n : nat) :
  row <> [] -> PrimFloat.is_nan (dot row (replicate (S n) PrimFloat.nan)) = true.
Proof.
  destruct row as [|x row]; [congruence|]. intros _. unfold dot. simpl.
  apply dot_pairs_nan_from, float_add_nan_r, float_mul_nan_r. reflexivity.
Qed.

Lemma dot_zero_row (n : nat) :
  dot (replicate n 0%float) (replicate n 0%float) = 0%float.
Proof.
  unfold dot. induction n as [|n IH]; [reflexivity|]. simpl.
  replace (0 + 0 * 0)%float with 0%float by reflexivity. exact IH.
Qed.

(** Normalising a row of zeros gives a row of NaN. *)
Lemma normalize_zero_row (n : nat) :
  normalize_row (replicate n 0%float) = replicate n PrimFloat.nan.
Proof.
  unfold normalize_row. rewrite dot_zero_row.
  induction n as [|n IH]; [reflexivity|]. cbn [replicate map].
  rewrite IH. reflexivity.
Qed.

Lemma normalize_lookup (w : list (list float)) (k : nat) :
  normalize w !! k = normalize_row <$> w !! k.
Proof. apply list_lookup_fmap. Qed.

Lemma similarities_lookup (w : list (list float)) (v : list float) (k : nat) :
  similarities w v !! k = (fun row => dot row v) <$> w !! k.
Proof. apply list_lookup_fmap. Qed.

(** X15. In binary64, a word whose embedding is a (non-empty) row of zeros
    has a NaN similarity to every query, so the result loop never shows it:
    the lines printed are those printed with that word taken out of the
    ranking. And a query for that word prints the query line and no result
    at all, when every row has an element and the ranking stays within the
    matrix, as that of [argsort] does. *)
Theorem X15_zero_embedding_is_hidden (w : list (list float)) (k n : nat) :
  w !! k = Some (replicate (S n) 0%float) ->
  (forall v order count, v <> [] ->
     print_results PrimFloat.is_nan index2word (similarities (normalize w) v) order count
     = print_results PrimFloat.is_nan index2word (similarities (normalize w) v)
         (filter (fun i => i <> k) order) count) /\
  (forall q inputs,
     word2index !! q = Some k ->
     (forall row, row ∈ w -> row <> []) ->
     (forall sim i, i ∈ ranking sim -> i < length sim) ->
     search PrimFloat.is_nan ranking word2index index2word w (q :: inputs)
     = (Prompt :: Query q :: (search PrimFloat.is_nan ranking word2index index2word w inputs).1,
        (search PrimFloat.is_nan ranking word2index index2word w inputs).2)).
Proof.
  intros Hk.
  assert (Hrow : normalize w !! k = Some (replicate (S n) PrimFloat.nan)).
  { rewrite normalize_lookup, Hk. cbn [fmap option_fmap option_map].
    rewrite normalize_zero_row. reflexivity. }
  split.
  - intros v order count Hv.
    apply (print_results_skip _ _ _ k
             (dot (replicate (S n) PrimFloat.nan) v)).
    + rewrite similarities_lookup, Hrow. reflexivity.
    + apply dot_nan_row, Hv.
  - intros q inputs Hq Hrows Hrank. unfold search.
    cbn [session]. rewrite Hq, Hrow.
    rewrite print_results_all_nan; [reflexivity|].
    intros i Hi. apply Hrank in Hi.
    unfold similarities in Hi. rewrite length_map in Hi.
    unfold normalize in Hi. rewrite length_map in Hi.
    destruct (lookup_lt_is_Some_2 w i Hi) as [row Hi'].
    exists (dot (normalize_row row) (replicate (S n) PrimFloat.nan)). split.
    + rewrite similarities_lookup, normalize_lookup, Hi'. reflexivity.
    + apply dot_nan_query.
      pose proof (Hrows row (list_elem_of_lookup_2 _ _ _ Hi')) as Hne.
      destruct row; [congruence|discriminate].
Qed.

End ZeroEmbedding.

(** ** Exact arithmetic: the similarity is a cosine *)

Section UnitRows.

Lemma sum_of_squares_divided (row : list R) (c : R) :
  c <> 0%R ->
  sum_of_squares (map (fun x => div x c) row) = (sum_of_squares row / (c * c))%R.
Proof.
  intros Hc. induction row as [|x row IH].
  - simpl. unfold Rdiv. rewrite Rmult_0_l. reflexivity.
  - cbn [map sum_of_squares foldr]. fold (sum_of_squares (map (fun x => div x c) row)).
    fold (sum_of_squares row). rewrite IH. real_ops. field. exact Hc.
Qed.

Lemma sum_of_squares_pos (row : list R) :
  (exists x, x ∈ row /\ x <> 0%R) -> (0 < sum_of_squares row)%R.
Proof.
  induction row as [|y row IH]; intros (x & Hx & Hne).
  - apply elem_of_nil in Hx. destruct Hx.
  - simpl. pose proof (sum_of_squares_nonneg row) as Hrow.
    apply elem_of_cons in Hx as [->|Hx].
    + assert (0 < y * y)%R by nra. lra.
    + assert (0 < sum_of_squares row)%R by (apply IH; eauto). nra.
Qed.

Lemma normalize_row_unit (row : list R) :
  (exists x, x ∈ row /\ x <> 0%R) ->
  dot (normalize_row row) (normalize_row row) = 1%R.
Proof.
  intros H. apply sum_of_squares_pos in H.
  unfold dot at 1. rewrite dot_real_from. unfold normalize_row.
  unfold dot. rewrite dot_real_from. cbn [zero sqrt real_arith].
  rewrite !Rplus_0_l.
  assert (Hc : R_sqrt.sqrt (sum_of_squares row) <> 0%R).
  { intros E. apply R_sqrt.sqrt_eq_0 in E; lra. }
  rewrite (sum_of_squares_divided row _ Hc).
  rewrite R_sqrt.sqrt_sqrt by lra. field. lra.
Qed.

(** X16. In exact arithmetic the normalisation makes every row with a
    non-zero element a unit vector, so the similarity of a word to itself
    is 1. *)
Theorem X16_self_similarity_is_one (w : list (list R)) (k : nat) (row : list R) :
  w !! k = Some row -> (exists x, x ∈ row /\ x <> 0%R) ->
  exists v, normalize w !! k = Some v /\ dot v v = 1%R /\
            similarities (normalize w) v !! k = Some 1%R.
Proof.
  intros Hk Hrow. exists (normalize_row row).
  assert (Hv : normalize w !! k = Some (normalize_row row)).
  { unfold normalize. rewrite (list_lookup_fmap normalize_row w k), Hk. reflexivity. }
  split; [exact Hv|]. split; [apply normalize_row_unit, Hrow|].
  unfold similarities.
  rewrite (list_lookup_fmap (fun r => dot r (normalize_row row)) (normalize w) k), Hv.
  cbn [fmap option_fmap option_map]. rewrite normalize_row_unit by exact Hrow.
  reflexivity.
Qed.

End UnitRows.

(** * The further properties at the concrete models *)

Lemma mismatch_Ready : Ready Mismatch.ready 0 [(0, 1, None); (2, 3, None)].
Proof.
  split; [reflexivity|]. split; [reflexivity|]. split; [done|]. split.
  - constructor; [|constructor; [|constructor]].
    + exists (NdArray Host [1; 2]%float), (NdArray Host [3; 4]%float).
      split; [reflexivity|]. split; reflexivity.
    + exists (NdArray Host [1; 2; 3]%float), (NdArray Host [5; 6; 7]%float).
      split; [reflexivity|]. split; reflexivity.
  - apply (bool_decide_eq_true_1 (NoDup [0; 2; 1; 3])). reflexivity.
Defined.

Lemma X1_only_gradients_written_witness :
  store (weight_decay 2%float Scenario.ready).1 !! 0 = Scenario.objects !! 0 /\
  store (accumulate_grads [2] Scenario.ready).1 !! 2 = Scenario.objects !! 2.
Proof.
  split.
  - apply (X1_only_gradients_written Scenario.ready [(0, 1, None)] 0 eq_refl).
    apply not_elem_of_cons. split; [discriminate|apply not_elem_of_nil].
  - apply (X1_only_gradients_written Scenario.ready [(0, 1, None)] 2 eq_refl).
    apply not_elem_of_cons. split; [discriminate|apply not_elem_of_nil].
Defined.

Lemma X3_ready_is_kept_witness :
  Ready (accumulate_grads [4; 5] Mismatch.ready).1 0 [(0, 1, None); (2, 3, None)] /\
  Ready (update base Mismatch.ready).1 1 [(0, 1, None); (2, 3, None)].
Proof.
  destruct (X3_ready_is_kept Mismatch.ready 0 _ mismatch_Ready)
    as (_ & _ & _ & _ & Hacc & Hupd).
  split; [apply Hacc|exact Hupd].
Defined.

Lemma X4_setup_resets_witness :
  setup Strict.cls ([0; 2], [1; 5]) (World Mismatch.objects (Optimizer_ None None))
  = (World Mismatch.objects (Optimizer_ (Some 0%Z) (Some [(0, 1, Some tt)])),
     Raise ValueError) /\
  exists ts,
    self (setup Strict.cls ([0; 2], [1; 5])
            (World Mismatch.objects (Optimizer_ None None))).1
    = Optimizer_ (Some 0%Z) (Some ts) /\
    ts.*1 = [(0, 1)].
Proof.
  destruct (X4_setup_resets Strict.cls ([0; 2], [1; 5])
              (World Mismatch.objects (Optimizer_ None None))) as (_ & _ & H).
  destruct (H [(0, 1)] 2 5 [] ValueError eq_refl eq_refl eq_refl) as [Hrun Hts].
  split; [rewrite Hrun; reflexivity|exact Hts].
Defined.

Lemma X6_base_update_returns_iff_empty_witness :
  update base (World Scenario.objects (Optimizer_ (Some 0%Z) (Some [])) : world float unit)
  = (World Scenario.objects (Optimizer_ (Some 1%Z) (Some [])), Return tt).
Proof.
  apply (X6_base_update_returns_iff_empty
           (World Scenario.objects (Optimizer_ (Some 0%Z) (Some []))) 0 []);
    [|reflexivity].
  split; [reflexivity|]. split; [reflexivity|]. constructor.
Defined.

Lemma X7_zero_grads_erases_witness :
  zero_grads (weight_decay 2%float Scenario.ready).1 = zero_grads Scenario.ready /\
  zero_grads (zero_grads Scenario.ready).1 = zero_grads Scenario.ready.
Proof.
  destruct (X7_zero_grads_erases Scenario.ready 0 _ scenario_Configured)
    as (Hzero & _ & Hdecay & _).
  split; [apply Hdecay|exact Hzero].
Defined.

Lemma X8_accumulate_grads_truncates_witness :
  accumulate_grads ([2] ++ [3; 7]) Scenario.ready = accumulate_grads [2] Scenario.ready /\
  accumulate_grads [] Scenario.ready = (Scenario.ready, Return tt).
Proof.
  destruct (X8_accumulate_grads_truncates Scenario.ready [(0, 1, None)] [2] [3; 7] eq_refl)
    as (Hextra & _ & _).
  destruct (X8_accumulate_grads_truncates Scenario.ready [(0, 1, None)] [] [] eq_refl)
    as (_ & _ & Hnone).
  split; [apply Hextra; simpl; lia|exact Hnone].
Defined.

Lemma X9_clip_zero_gradients_witness :
  clip_grads (-1)%float (zero_grads Scenario.ready).1
  = ((zero_grads Scenario.ready).1, Raise ZeroDivisionError).
Proof.
  apply (X9_clip_zero_gradients Scenario.ready 0 _ (-1)%float scenario_Configured).
  reflexivity.
Defined.

Lemma X10_nan_gradient_is_not_clipped_witness :
  clip_grads 1%float Diverged.configured = (Diverged.configured, Return tt).
Proof.
  apply (X10_nan_gradient_is_not_clipped Diverged.configured 0 [(0, 1, None)] 1
           (NdArray Host [3; PrimFloat.nan]%float) PrimFloat.nan).
  - split; [reflexivity|]. split; [reflexivity|].
    repeat constructor; eexists; reflexivity.
  - apply list_elem_of_here.
  - reflexivity.
  - apply list_elem_of_further, list_elem_of_here.
  - reflexivity.
Defined.

Lemma X11_norm_not_negative_witness :
  compute_grads_norm Scenario.ready = (Scenario.ready, Return 5%float) /\
  (5 <? 0)%float = false.
Proof.
  split; [reflexivity|].
  apply (X11_norm_not_negative Scenario.ready Scenario.ready 5%float). reflexivity.
Defined.

Lemma X12_accumulate_grads_shape_error_witness :
  exists h,
    accumulate_grads [4; 5] Mismatch.ready = (World h (self Mismatch.ready), Raise ValueError) /\
    h !! 1 = Some (NdArray Host [13; 24]%float) /\
    h !! 3 = Some (NdArray Host [5; 6; 7]%float).
Proof.
  eexists. split; [|split].
  - apply (X12_accumulate_grads_shape_error Mismatch.ready [(0, 1, None)] [] [4] []
             2 3 5 None (NdArray Host [5; 6; 7]%float) (NdArray Host [1; 2]%float));
      try reflexivity.
    + constructor; [|constructor].
      exists (NdArray Host [10; 20]%float), (NdArray Host [3; 4]%float).
      split; [reflexivity|]. split; reflexivity.
    + intros [c Hc]. simpl in Hc. lia.
  - reflexivity.
  - reflexivity.
Defined.

Lemma X13_results_are_first_non_nan_witness :
  print_results PrimFloat.is_nan Vocabulary.index2word
    Vocabulary.similarity Vocabulary.order 0
  = ([Result "queen"%string 1%float; Result "king"%string 0.5%float], None).
Proof.
  rewrite (X13_results_are_first_non_nan PrimFloat.is_nan Vocabulary.index2word
             Vocabulary.similarity Vocabulary.order); [reflexivity|].
  intros i Hi. apply (proj1 (list_elem_of_In _ _)) in Hi.
  destruct Hi as [<-|[<-|[<-|[]]]]; eexists; (split; [reflexivity|]);
    intros _; eexists; reflexivity.
Defined.

Lemma X15_zero_embedding_is_hidden_witness :
  print_results PrimFloat.is_nan Vocabulary.index2word
    (similarities (normalize [[0; 0]; [3; 4]]%float) [0.5; 0.75]%float) [0; 1] 0
  = print_results PrimFloat.is_nan Vocabulary.index2word
      (similarities (normalize [[0; 0]; [3; 4]]%float) [0.5; 0.75]%float)
      (filter (fun i => i <> 0) [0; 1]) 0 /\
  search PrimFloat.is_nan (fun sim => seq 0 (length sim))
    {[ "void"%string := 0 ]} Vocabulary.index2word
    [[0; 0]; [3; 4]]%float ["void"%string]
  = ([Prompt; Query "void"%string; Prompt], None).
Proof.
  destruct (X15_zero_embedding_is_hidden (fun sim => seq 0 (length sim))
              {[ "void"%string := 0 ]} Vocabulary.index2word
              [[0; 0]; [3; 4]]%float 0 1 eq_refl) as [Hskip Hquery].
  split.
  - apply Hskip. discriminate.
  - rewrite (Hquery "void"%string []).
    + reflexivity.
    + reflexivity.
    + intros row Hrow. apply list_elem_of_In in Hrow.
      destruct Hrow as [<-|[<-|[]]]; discriminate.
    + intros sim i Hi. apply elem_of_seq in Hi. lia.
Defined.

Lemma X16_self_similarity_is_one_witness :
  exists v, normalize [[3; 4]%R] !! 0 = Some v /\ dot v v = 1%R /\
            similarities (normalize [[3; 4]%R]) v !! 0 = Some 1%R.
Proof.
  apply (X16_self_similarity_is_one [[3; 4]%R] 0 [3; 4]%R eq_refl).
  exists 3%R. split; [apply list_elem_of_here|lra].
Defined.
